(** * python-novel-crawler: the crawl-and-extract loop of [main.py]

    A shallow embedding of [src/main.py]: the text helpers the loop calls
    on Python [str] values, the pieces of one iteration ([main], lines
    163-250), the file helpers [write_content] / [append_content] and the
    pacer [delay].

    Python strings are sequences of Unicode code points; they are modelled
    as [list N].  What the interpreter and the third-party libraries bring
    with them as data tables (Unicode case mapping, Unicode alphanumeric
    classes, the transliteration table of the unidecode package, the
    platform line separator) is collected in the class [Platform]. *)

From Stdlib Require Import ZArith NArith List Bool Lia String Ascii FinFun.
From stdpp Require Import gmap list.
Import ListNotations.

Local Open Scope Z_scope.

(** ** Python [str] *)

Module Str.

(** A character is its code point. *)
Abbreviation char := N (only parsing).
Abbreviation str := (list N) (only parsing).

(** A literal: the code points of an ASCII string constant. *)
Definition u (s : string) : str := map N_of_ascii (list_ascii_of_string s).
Arguments u s%_string.

Definition LF : char := 10%N.
Definition CR : char := 13%N.
Definition UNDERSCORE : char := 95%N.

Definition is_ascii (c : char) : bool := (c <? 128)%N.
Definition non_ascii (c : char) : bool := negb (is_ascii c).

(** [str.isspace] on one character (the table of
    [_PyUnicode_IsWhitespace]). *)
Definition isspace (c : char) : bool :=
  ((9 <=? c) && (c <=? 13) || (28 <=? c) && (c <=? 32)
   || (c =? 133) || (c =? 160) || (c =? 5760)
   || (8192 <=? c) && (c <=? 8202)
   || (c =? 8232) || (c =? 8233) || (c =? 8239) || (c =? 8287)
   || (c =? 12288))%N.

Fixpoint lstrip (s : str) : str :=
  match s with
  | c :: t => if isspace c then lstrip t else s
  | [] => []
  end.

Definition rstrip (s : str) : str := rev (lstrip (rev s)).

(** [s.strip()] *)
Definition strip (s : str) : str := rstrip (lstrip s).

(** [s.startswith(p)] *)
Fixpoint startswith (p s : str) : bool :=
  match p, s with
  | [], _ => true
  | a :: p', b :: s' => (a =? b)%N && startswith p' s'
  | _ :: _, [] => false
  end.

(** [p in s] *)
Fixpoint contains (p s : str) : bool :=
  startswith p s ||
  match s with
  | [] => false
  | _ :: t => contains p t
  end.

(** [s.replace(old, new)] for a non-empty [old]: a left-to-right scan,
    matches do not overlap.  [skip] counts the characters of a match that
    are still to be dropped. *)
Fixpoint replace_from (old new : str) (skip : nat) (s : str) : str :=
  match s with
  | [] => []
  | c :: t =>
      match skip with
      | S k => replace_from old new k t
      | O => if startswith old s
             then new ++ replace_from old new (Nat.pred (length old)) t
             else c :: replace_from old new O t
      end
  end.

Definition replace (old new s : str) : str := replace_from old new O s.

Definition ascii_lower (c : char) : char :=
  if ((65 <=? c) && (c <=? 90))%N then (c + 32)%N else c.

Definition ascii_isalnum (c : char) : bool :=
  ((48 <=? c) && (c <=? 57) || (65 <=? c) && (c <=? 90)
   || (97 <=? c) && (c <=? 122))%N.

(** The first line of a text: everything before the first newline. *)
Fixpoint first_line (s : str) : str :=
  match s with
  | [] => []
  | c :: t => if (c =? LF)%N then [] else c :: first_line t
  end.

End Str.
Export Str.

(** ** What the platform supplies *)

Class Platform := {
  (** [os.linesep] *)
  linesep : str;
  (** [str.lower] on a string that is not pure ASCII (Unicode case
      mapping, with its context rule for the Greek final sigma) *)
  unicode_lower : str -> str;
  (** [str.isalnum] on a character above U+007F *)
  unicode_isalnum : char -> bool;
  (** the table of the unidecode package: the replacement string of a
      character above U+007F (empty when the package drops it) *)
  unidecode_table : char -> str;
}.

(** The tables of unidecode hold ASCII strings only. *)
Definition table_is_ascii (P : Platform) : Prop :=
  forall c, forallb is_ascii (unidecode_table c) = true.

Section Text.
Context {P : Platform}.

(** [s.lower()] *)
Definition lower (s : str) : str :=
  if forallb is_ascii s then map ascii_lower s else unicode_lower s.

(** [unidecode(s)]: ASCII characters stay, every other character is
    replaced by its table entry. *)
Definition unidecode_char (c : char) : str :=
  if is_ascii c then [c] else unidecode_table c.

Definition unidecode (s : str) : str := flat_map unidecode_char s.

(** The class [\w] of a [str] pattern. *)
Definition is_word (c : char) : bool :=
  (if is_ascii c then ascii_isalnum c else unicode_isalnum c)
  || (c =? UNDERSCORE)%N.

(** [re.sub("\\s+|\\W", "_", s)]: a maximal run of whitespace becomes one
    underscore, and so does every other character outside [\w].
    [in_run] says that the previous character belonged to a whitespace
    run that has already been replaced. *)
Fixpoint sub_space_nonword (in_run : bool) (s : str) : str :=
  match s with
  | [] => []
  | c :: t =>
      if isspace c then
        if in_run then sub_space_nonword true t
        else UNDERSCORE :: sub_space_nonword true t
      else if is_word c then c :: sub_space_nonword false t
      else UNDERSCORE :: sub_space_nonword false t
  end.

(** [re.sub("_+", "_", s)] *)
Fixpoint sub_underscores (in_run : bool) (s : str) : str :=
  match s with
  | [] => []
  | c :: t =>
      if (c =? UNDERSCORE)%N then
        if in_run then sub_underscores true t
        else UNDERSCORE :: sub_underscores true t
      else c :: sub_underscores false t
  end.

(** Lines 194-198: the file name of a chapter. *)
Definition derive_filename (title : str) : str :=
  let ascii_title := unidecode title in
  let filename := sub_space_nonword false ascii_title in
  sub_underscores false filename.

(** Lines 205-208: the loop that joins the paragraphs. *)
Definition join_paragraphs (contents : list str) : str :=
  fold_left (fun utf8_content paragraph_text =>
               utf8_content ++ (paragraph_text ++ linesep))
            contents [].

(** Lines 205-213: the text of the chapter. *)
Definition normalize (contents : list str) : str :=
  let utf8_content := join_paragraphs contents in
  let fixed_nl_content :=
    replace (u "\r") [CR] (replace (u "\n") [LF] utf8_content) in
  let ascii_content := unidecode fixed_nl_content in
  strip ascii_content.

(** Line 204, on the text of the first content node. *)
Definition content_firstline_of (first_paragraph : str) : str :=
  strip (lower first_paragraph).

(** Lines 216-219: the test of the [if]. *)
Definition heading_missing (title content_firstline : str) : bool :=
  negb (startswith (u "chapter") content_firstline
        || contains (lower title) content_firstline).

(** Lines 215-222. *)
Definition reconcile_heading (title content_firstline ascii_content : str)
  : str :=
  if heading_missing title content_firstline
  then u "## " ++ title ++ linesep ++ ascii_content
  else u "## " ++ ascii_content.

End Text.

(** ** The text normalizer as the specification words it

    Each step is written from the words of the specification, on its own:
    none of them calls [replace], [unidecode] or [strip]. *)

Module Spec.
Section Spec.
Context {P : Platform}.

Definition BACKSLASH : char := 92%N.
Definition LETTER_N : char := 110%N.
Definition LETTER_R : char := 114%N.

(** Step 1: each node's text with one line separator after it,
    concatenated. *)
Definition step1_concatenate (contentNodes : list str) : str :=
  concat (map (fun node => node ++ linesep) contentNodes).

(** Step 2: read from the left, a backslash followed by the letter [n]
    is a newline and a backslash followed by the letter [r] is a carriage
    return; every other character stays as it is. *)
Fixpoint step2_unescape (text : str) : str :=
  match text with
  | [] => []
  | c :: rest =>
      match rest with
      | c' :: rest' =>
          if (c =? BACKSLASH)%N && (c' =? LETTER_N)%N
          then LF :: step2_unescape rest'
          else if (c =? BACKSLASH)%N && (c' =? LETTER_R)%N
          then CR :: step2_unescape rest'
          else c :: step2_unescape rest
      | [] => [c]
      end
  end.

(** Step 3: every character above U+007F gives way to its ASCII
    transliteration. *)
Definition step3_transliterate (text : str) : str :=
  concat (map (fun c => if (c <? 128)%N then [c] else unidecode_table c) text).

(** The number of whitespace characters a text begins with. *)
Fixpoint leading_whitespace (text : str) : nat :=
  match text with
  | c :: rest => if isspace c then S (leading_whitespace rest) else O
  | [] => O
  end.

(** Step 4: the text between its leading and its trailing whitespace. *)
Definition step4_trim (text : str) : str :=
  let i := leading_whitespace text in
  let j := leading_whitespace (rev text) in
  firstn (length text - i - j) (skipn i text).

Definition normalize_spec (contentNodes : list str) : str :=
  step4_trim (step3_transliterate (step2_unescape (step1_concatenate contentNodes))).

End Spec.
End Spec.

(** ** Exceptions, the world and the monad of the loop *)

Inductive exn :=
  | IndexError                       (* [xs[0]] on an empty list *)
  | FileExistsError (path : str)
  | FileNotFoundError
  | NotADirectoryError
  | IsADirectoryError
  | ValueError
  | OverflowError
  | ConnectionError                  (* [requests.get] itself failed *)
  | RequestException (status : Z)    (* f"Bad page status code {status}" *)
  | SystemError (msg : str)
  | SystemExit (arg : str).          (* [raise SystemExit("...")] *)

Inductive result (A : Type) :=
  | Ok (a : A)
  | Raise (e : exn).
Arguments Ok {A} a.
Arguments Raise {A} e.

Inductive level := DEBUG | INFO | WARNING | ERROR.

(** What [document.xpath] returns for the three configured queries: the
    title strings, the flattened text ([text_content()]) of every content
    node, and the next-link strings. *)
Record document := {
  title_matches : list str;
  contents_matches : list str;
  nexturl_matches : list str;
}.

Record response := {
  status_code : Z;
  reason : str;
  raw : document;
}.

Inductive node :=
  | Dir
  | File (text : str).

(** A [pathlib.Path]: its parts. *)
Abbreviation path := (list (list N)) (only parsing).

Record world := {
  (** the site: what a GET of a URL answers, [None] when the request
      itself fails *)
  web : str -> option response;
  fs : gmap path node;
  log : list (level * str);
  (** the URLs requested so far, latest first *)
  fetched : list str;
  (** the arguments of [time.sleep] so far, in milliseconds, latest first *)
  slept : list Z;
}.

Definition set_fs (f : gmap path node) (w : world) : world :=
  {| web := web w; fs := f; log := log w; fetched := fetched w;
     slept := slept w |}.

(** State, exceptions, and a finite choice whose alternatives are equally
    likely ([random.randrange]). *)
Definition M (A : Type) : Type := world -> list (result A * world).

Definition ret {A} (a : A) : M A := fun w => [(Ok a, w)].
Definition raise {A} (e : exn) : M A := fun w => [(Raise e, w)].

Definition bind {A B} (m : M A) (f : A -> M B) : M B :=
  fun w =>
    flat_map (fun rw : result A * world =>
                match fst rw with
                | Ok a => f a (snd rw)
                | Raise e => [(Raise e, snd rw)]
                end) (m w).

Definition choose {A} (alternatives : list A) : M A :=
  fun w => map (fun a => (Ok a, w)) alternatives.

Definition lift {A} (r : result A) : M A :=
  fun w => [(r, w)].

(** The world after some more log records, after one more request, after
    one more sleep. *)
Definition log_also (records : list (level * str)) (w : world) : world :=
  {| web := web w; fs := fs w; log := log w ++ records;
     fetched := fetched w; slept := slept w |}.

Definition after_get (url : str) (w : world) : world :=
  {| web := web w; fs := fs w; log := log w;
     fetched := url :: fetched w; slept := slept w |}.

Definition after_sleep (ms : Z) (w : world) : world :=
  {| web := web w; fs := fs w; log := log w; fetched := fetched w;
     slept := ms :: slept w |}.

(** [logger.debug(msg, ...)] and the like: the record holds the format
    string. *)
Definition logger (l : level) (msg : string) : M unit :=
  fun w => [(Ok tt, log_also [(l, u msg)] w)].

Declare Scope crawl_scope.
Delimit Scope crawl_scope with crawl.
Notation "x <- m ;; k" := (bind m (fun x => k))
  (at level 100, m at next level, right associativity) : crawl_scope.
Notation "m ;; k" := (bind m (fun _ => k))
  (at level 100, right associativity) : crawl_scope.
Local Open Scope crawl_scope.

(** [xs[0]] *)
Definition item0 {A} (xs : list A) : M A :=
  match xs with
  | x :: _ => ret x
  | [] => raise IndexError
  end.

(** ** The file system *)

Module Fs.

(** [s.split(sep)] for a one-character separator. *)
Fixpoint split (sep : char) (s : str) : list str :=
  match s with
  | [] => [[]]
  | c :: t =>
      if (c =? sep)%N then [] :: split sep t
      else match split sep t with
           | piece :: pieces => (c :: piece) :: pieces
           | [] => [[c]]
           end
  end.

Definition SLASH : char := 47%N.
Definition DOT : char := 46%N.

Definition is_nil {A} (l : list A) : bool :=
  match l with [] => true | _ => false end.

Definition keep_part (part : str) : bool :=
  negb (is_nil part) && negb (startswith [DOT] part && (length part =? 1)%nat).

(** [pathlib.Path(pathstr)] on a POSIX system: empty and [.] components
    vanish; a leading slash is the root part (exactly two leading slashes
    are a root of their own). *)
Definition Path (pathstr : str) : path :=
  let parts := List.filter keep_part (split SLASH pathstr) in
  if startswith [SLASH; SLASH] pathstr && negb (startswith [SLASH; SLASH; SLASH] pathstr)
  then [SLASH; SLASH] :: parts
  else if startswith [SLASH] pathstr then [SLASH] :: parts
  else parts.

Definition is_root (part : str) : bool := startswith [SLASH] part.

(** [path.parent] *)
Definition parent (p : path) : path :=
  match p with
  | [] => []
  | [part] => if is_root part then p else []
  | _ => removelast p
  end.

(** What is at a path; the current directory and the root are always
    directories. *)
Definition stat (f : gmap path node) (p : path) : option node :=
  match p with
  | [] => Some Dir
  | [part] => if is_root part then Some Dir else f !! p
  | _ => f !! p
  end.

(** ["/".join(parts)] *)
Fixpoint join_slash (parts : list str) : str :=
  match parts with
  | [] => []
  | [seg] => seg
  | seg :: rest => seg ++ SLASH :: join_slash rest
  end.

(** [path.mkdir(parents=True, exist_ok=True)], from the top component
    down: missing directories are created, a file in the way is an
    error. *)
Fixpoint mkdir_from (prefix : path) (rest : list str) (f : gmap path node)
  : result (gmap path node) :=
  match rest with
  | [] => Ok f
  | part :: rest' =>
      let p := prefix ++ [part] in
      match stat f p with
      | Some Dir => mkdir_from p rest' f
      | Some (File _) =>
          if is_nil rest' then Raise (FileExistsError (join_slash p))
          else Raise NotADirectoryError
      | None => mkdir_from p rest' (<[p := Dir]> f)
      end
  end.

Definition mkdir_parents (p : path) (f : gmap path node)
  : result (gmap path node) := mkdir_from [] p f.

(** A file system is well formed when whatever exists lies in a
    directory. *)
Definition well_formed (f : gmap path node) : Prop :=
  forall (p : path) (n : node), f !! p = Some n -> stat f (parent p) = Some Dir.

End Fs.

Section Files.
Context {P : Platform}.

(** Text mode with the default [newline=None]: every newline written
    becomes [os.linesep].  The file is kept as text; its UTF-8 bytes are
    not modelled. *)
Definition text_mode (content : str) : str :=
  flat_map (fun c => if (c =? LF)%N then linesep else [c]) content.

Definition mkdir (p : path) : M unit :=
  fun w => match Fs.mkdir_parents p (fs w) with
           | Ok f => [(Ok tt, set_fs f w)]
           | Raise e => [(Raise e, w)]
           end.

(** [with open(path, mode) as f: f.write(content)]; [append] is mode
    ["a+"], otherwise mode ["w"]. *)
Definition open_write (append : bool) (p : path) (content : str) : M unit :=
  fun w =>
    match Fs.stat (fs w) p with
    | Some Dir => [(Raise IsADirectoryError, w)]
    | old =>
        match Fs.stat (fs w) (Fs.parent p) with
        | Some Dir =>
            let before := match old with
                          | Some (File text) => if append then text else []
                          | _ => []
                          end in
            [(Ok tt, set_fs (<[p := File (before ++ text_mode content)]> (fs w)) w)]
        | Some (File _) => [(Raise NotADirectoryError, w)]
        | None => [(Raise FileNotFoundError, w)]
        end
    end.

Definition path_exists (p : path) : M bool :=
  fun w => [(Ok (match Fs.stat (fs w) p with Some _ => true | None => false end), w)].

(** Lines 68-87. *)
Definition write_content (pathstr : str) (content : str) : M unit :=
  let path := Fs.Path pathstr in
  mkdir (Fs.parent path) ;;
  exists_ <- path_exists path ;;
  if (exists_ : bool) then
    logger ERROR "Can't write content to an already existsting path: %s" ;;
    raise (FileExistsError pathstr)
  else
    logger DEBUG "Write content: %s" ;;
    open_write false path content.

(** Lines 90-105. *)
Definition append_content (pathstr : str) (content : str) : M unit :=
  let path := Fs.Path pathstr in
  mkdir (Fs.parent path) ;;
  logger DEBUG "Append content: %s" ;;
  open_write true path content.

End Files.

(** ** The pacer *)

Module Pacer.

(** [n / 2 ** e] rounded to the nearest integer, ties to the even one
    ([n >= 0], [e >= 1]). *)
Definition round_half_even (n e : Z) : Z :=
  let q := n / 2 ^ e in
  let r := n mod 2 ^ e in
  let half := 2 ^ (e - 1) in
  if r <? half then q
  else if half <? r then q + 1
  else if Z.even q then q else q + 1.

(** [math.floor(a / 2)].  [a / 2] is the true division of two [int]s: the
    exact quotient rounded to the nearest double (53 significant bits,
    ties to even), [OverflowError] when that is beyond the largest
    double.  Below [2 ** 53] the quotient is a double as it is; from
    there on the rounded quotient is an integer. *)
Definition floor_half (a : Z) : result Z :=
  let n := Z.abs a in
  if n <? 2 ^ 53 then Ok (a / 2)
  else
    let e := Z.log2 n - 52 in
    let q := round_half_even n e * 2 ^ (e - 1) in
    if 2 ^ 1024 <=? q then Raise OverflowError
    else Ok (Z.sgn a * q).

(** The integers [start], ..., [start + width - 1]. *)
Definition interval (start : Z) (width : Z) : list Z :=
  map (fun i => start + Z.of_nat i) (seq 0 (Z.to_nat width)).

(** [random.randrange(start, stop)]: [start + _randbelow(width)], every
    value below [width] being equally likely; an empty range is a
    [ValueError]. *)
Definition randrange (start stop : Z) : M Z :=
  let width := stop - start in
  if 0 <? width then choose (interval start width)
  else raise ValueError.

(** [time.sleep(ms / 1000)]: the seconds are converted to a signed 64-bit
    count of nanoseconds ([OverflowError] beyond it), a negative length is
    a [ValueError].  The rounding of [ms / 1000] to a double and the time
    the process really stays blocked are not modelled: the request is
    recorded in milliseconds. *)
Definition time_sleep (ms : Z) : M unit :=
  fun w =>
    if (2 ^ 63 <=? ms * 10 ^ 6) || (ms * 10 ^ 6 <? - 2 ^ 63)
    then [(Raise OverflowError, w)]
    else if ms <? 0 then [(Raise ValueError, w)]
    else [(Ok tt, after_sleep ms w)].

Definition DELAY_RECORD : level * list N := (DEBUG, u "Delay for: %s ms").

(** Lines 115-118: the number of milliseconds drawn, the numerator of
    [rand_sec]. *)
Definition draw_ms (average_ms : Z) : M Z :=
  deviation_ms <- lift (floor_half average_ms) ;;
  randrange (average_ms - deviation_ms) (average_ms + deviation_ms).

(** Lines 108-120. *)
Definition delay (average_ms : Z) : M unit :=
  rand_ms <- draw_ms average_ms ;;
  logger DEBUG "Delay for: %s ms" ;;
  time_sleep rand_ms.

End Pacer.
Export Pacer.

(** ** [urllib.parse.urljoin]

    The standard library function that line 242 calls, after
    [urllib/parse.py] of CPython 3.10: [urlparse], [urlunparse] and the
    resolution of the path segments. *)

Module Url.

Import Fs.

Definition eqb_str (a b : str) : bool := bool_decide (a = b).

Definition member (s : str) (l : list string) : bool :=
  existsb (fun x => eqb_str s (u x)) l.

Definition uses_relative : list string :=
  [EmptyString; "ftp"; "http"; "gopher"; "nntp"; "imap"; "wais"; "file"; "https";
   "shttp"; "mms"; "prospero"; "rtsp"; "rtspu"; "sftp"; "svn"; "svn+ssh";
   "ws"; "wss"]%string.

Definition uses_netloc : list string :=
  [EmptyString; "ftp"; "http"; "gopher"; "nntp"; "telnet"; "imap"; "wais"; "file";
   "mms"; "https"; "shttp"; "snews"; "prospero"; "rtsp"; "rtspu"; "rsync";
   "svn"; "svn+ssh"; "sftp"; "nfs"; "git"; "git+ssh"; "ws"; "wss"]%string.

Definition uses_params : list string :=
  [EmptyString; "ftp"; "hdl"; "prospero"; "http"; "imap"; "https"; "shttp"; "rtsp";
   "rtspu"; "sip"; "sips"; "mms"; "sftp"; "tel"]%string.

(** Letters, digits and [+-.] *)
Definition scheme_char (c : char) : bool :=
  ascii_isalnum c || (c =? 43)%N || (c =? 45)%N || (c =? 46)%N.

(** [s.split(sep, 1)] when [sep] occurs in [s]. *)
Fixpoint cut (sep : char) (s : str) : option (str * str) :=
  match s with
  | [] => None
  | c :: t =>
      if (c =? sep)%N then Some ([], t)
      else match cut sep t with
           | Some (before, after) => Some (c :: before, after)
           | None => None
           end
  end.

(** [_splitnetloc(url, 2)] without the two slashes: the network location
    ends at the first of [/], [?], [#]. *)
Fixpoint splitnetloc (s : str) : str * str :=
  match s with
  | [] => ([], [])
  | c :: t =>
      if (c =? SLASH)%N || (c =? 63)%N || (c =? 35)%N then ([], s)
      else let '(netloc, rest) := splitnetloc t in (c :: netloc, rest)
  end.

Record SplitResult := {
  scheme : str;
  netloc : str;
  upath : str;
  params : str;
  query : str;
  fragment : str;
}.

Definition unsafe_byte (c : char) : bool :=
  (c =? 9)%N || (c =? 10)%N || (c =? 13)%N.

(** [_splitparams] *)
Definition splitparams (url : str) : str * str :=
  let segments := split SLASH url in
  let last_segment := List.last segments [] in
  match cut 59%N last_segment with
  | Some (before, after) =>
      (firstn (length url - length last_segment) url ++ before, after)
  | None => (url, [])
  end.

(** [urlparse(url, default_scheme)].  The checks that make [urlsplit]
    raise (unbalanced brackets of an IPv6 host, a network location that
    changes under NFKC normalization) are left out. *)
Definition urlparse (url default_scheme : str) : SplitResult :=
  let url := List.filter (fun c => negb (unsafe_byte c)) url in
  let default_scheme := List.filter (fun c => negb (unsafe_byte c)) default_scheme in
  let '(scheme, url) :=
    match cut 58%N url with
    | Some (before, after) =>
        if negb (is_nil before) && forallb scheme_char before
        then (map ascii_lower before, after)
        else (default_scheme, url)
    | None => (default_scheme, url)
    end in
  let '(netloc, url) :=
    if startswith [SLASH; SLASH] url then splitnetloc (skipn 2 url)
    else ([], url) in
  let '(url, fragment) :=
    match cut 35%N url with
    | Some (before, after) => (before, after)
    | None => (url, [])
    end in
  let '(url, query) :=
    match cut 63%N url with
    | Some (before, after) => (before, after)
    | None => (url, [])
    end in
  let '(url, params) :=
    if member scheme uses_params && existsb (N.eqb 59) url
    then splitparams url else (url, []) in
  {| scheme := scheme; netloc := netloc; upath := url; params := params;
     query := query; fragment := fragment |}.

(** [urlunparse] *)
Definition urlunparse (r : SplitResult) : str :=
  let url := if is_nil (params r) then upath r
             else upath r ++ [59%N] ++ params r in
  let url :=
    if negb (is_nil (netloc r))
       || (negb (is_nil (scheme r)) && member (scheme r) uses_netloc
           && negb (startswith [SLASH; SLASH] url))
    then [SLASH; SLASH] ++ netloc r
         ++ (if negb (is_nil url) && negb (startswith [SLASH] url)
             then SLASH :: url else url)
    else url in
  let url := if is_nil (scheme r) then url else scheme r ++ [58%N] ++ url in
  let url := if is_nil (query r) then url else url ++ [63%N] ++ query r in
  if is_nil (fragment r) then url else url ++ [35%N] ++ fragment r.

(** [segments[1:-1] = filter(None, segments[1:-1])] *)
Definition drop_inner_empty (segments : list str) : list str :=
  match segments with
  | first :: (_ :: _) as others =>
      first :: List.filter (fun seg => negb (is_nil seg)) (removelast others)
        ++ [List.last others []]
  | _ => segments
  end.

(** The loop over the segments that resolves [.] and [..]. *)
Definition resolve_segments (segments : list str) : list str :=
  fold_left (fun resolved_path seg =>
               if eqb_str seg (u "..") then removelast resolved_path
               else if eqb_str seg (u ".") then resolved_path
               else resolved_path ++ [seg])
            segments [].

Definition urljoin (base url : str) : str :=
  if is_nil base then url
  else if is_nil url then base
  else
    let b := urlparse base [] in
    let r := urlparse url (scheme b) in
    if negb (eqb_str (scheme r) (scheme b)) || negb (member (scheme r) uses_relative)
    then url
    else if member (scheme r) uses_netloc && negb (is_nil (netloc r))
    then urlunparse r
    else
      let netloc' := if member (scheme r) uses_netloc then netloc b else netloc r in
      if is_nil (upath r) && is_nil (params r) then
        urlunparse {| scheme := scheme r; netloc := netloc';
                      upath := upath b; params := params b;
                      query := if is_nil (query r) then query b else query r;
                      fragment := fragment r |}
      else
        let base_parts := split SLASH (upath b) in
        let base_parts := if is_nil (List.last base_parts [])
                          then base_parts else removelast base_parts in
        let segments :=
          if startswith [SLASH] (upath r) then split SLASH (upath r)
          else drop_inner_empty (base_parts ++ split SLASH (upath r)) in
        let resolved_path := resolve_segments segments in
        let last_segment := List.last segments [] in
        let resolved_path :=
          if eqb_str last_segment (u ".") || eqb_str last_segment (u "..")
          then resolved_path ++ [[]] else resolved_path in
        let joined := join_slash resolved_path in
        urlunparse {| scheme := scheme r; netloc := netloc';
                      upath := if is_nil joined then [SLASH] else joined;
                      params := params r; query := query r;
                      fragment := fragment r |}.

End Url.

(** ** The crawl loop *)

Record config := {
  basedir : str;
  request_delay_ms : Z;
  serie_id : str;
  serie_starturl : str;
  serie_combine_flag : bool;
  src_baseurl : str;
}.

Definition STATUS_CODE_OK : Z := 200.

Definition END_OF_CHAPTERS : str := u "End of chapters reached".

(** How the loop was left, when no exception ended it. *)
Inductive loop_end :=
  | LoopExit                       (* the test [url is not None] failed *)
  | OutOfFuel (url : str).         (* the model stopped unrolling here *)

Section Crawl.
Context {P : Platform}.

(** [requests.get(url, ...)]: the timeout and the headers are part of
    what [web] answers. *)
Definition requests_get (url : str) : M response :=
  fun w =>
    match web w url with
    | Some r => [(Ok r, after_get url w)]
    | None => [(Raise ConnectionError, after_get url w)]
    end.

Definition chapter_path (cf : config) (filename : str) : str :=
  basedir cf ++ u "/" ++ serie_id cf ++ u "/" ++ filename ++ u ".txt".

Definition combined_path (cf : config) : str :=
  basedir cf ++ u "/" ++ serie_id cf ++ u "/" ++ serie_id cf ++ u ".txt".

(** Lines 202-222: the text written for a page. *)
Definition final_content (title : str) (contents : list str) : M str :=
  first_paragraph <- item0 contents ;;
  let content_firstline := content_firstline_of first_paragraph in
  ret (reconcile_heading title content_firstline (normalize contents)).

(** Lines 165-229: fetch the page, extract, write the chapter. *)
Definition fetch_and_store (cf : config) (url : str) : M document :=
  logger INFO "Fetch URL: %s" ;;
  response <- requests_get url ;;
  if negb (status_code response =? STATUS_CODE_OK) then
    logger ERROR "Page status: %s %s" ;;
    raise (RequestException (status_code response))
  else
    logger DEBUG "Parsing HTML document" ;;
    let document := raw response in
    title <- item0 (title_matches document) ;;
    let filename := derive_filename title in
    logger DEBUG "Title: %s" ;;
    logger DEBUG "Filename: %s" ;;
    ascii_content <- final_content title (contents_matches document) ;;
    write_content (chapter_path cf filename) ascii_content ;;
    (if serie_combine_flag cf
     then append_content (combined_path cf) (ascii_content ++ linesep)
     else ret tt) ;;
    ret document.

Definition NO_NEXT : level * list N :=
  (INFO, u "Next URL (xpath) is invalid. End of chapters is reached.").

(** Line 241: the test of the [if]. *)
Definition link_is_valid (cf : config) (relative_nexturl : str) : bool :=
  startswith (u "/") relative_nexturl
  || startswith (src_baseurl cf) relative_nexturl.

(** Lines 231-250: the next URL, or the end of the chain. *)
Definition advance (cf : config) (document : document) : M (option str) :=
  let relative_nexturl_matches := nexturl_matches document in
  if Fs.is_nil relative_nexturl_matches then
    logger INFO "Next URL (xpath) is invalid. End of chapters is reached." ;;
    raise (SystemExit END_OF_CHAPTERS)
  else
    first_match <- item0 relative_nexturl_matches ;;
    let relative_nexturl := strip first_match in
    logger DEBUG "Next URL (xpath): %s" ;;
    if link_is_valid cf relative_nexturl then
      let next_url := Url.urljoin (src_baseurl cf) relative_nexturl in
      logger DEBUG "Next URL (normalized): %s" ;;
      delay (request_delay_ms cf) ;;
      ret (Some next_url)
    else
      logger INFO "Next URL (xpath) is invalid. End of chapters is reached." ;;
      raise (SystemExit END_OF_CHAPTERS).

(** The body of the [while] loop. *)
Definition iteration (cf : config) (url : str) : M (option str) :=
  document <- fetch_and_store cf url ;;
  advance cf document.

(** [while url is not None: ...], unrolled at most [fuel] times. *)
Fixpoint crawl (fuel : nat) (cf : config) (url : option str) : M loop_end :=
  match url with
  | None => ret LoopExit
  | Some current =>
      match fuel with
      | O => ret (OutOfFuel current)
      | S fuel' =>
          next <- iteration cf current ;;
          crawl fuel' cf next
      end
  end.

(** [main], once the configuration has been read (lines 152-250). *)
Definition main (fuel : nat) (cf : config) : M loop_end :=
  if negb (contains (u "://") (lower (src_baseurl cf))) then
    logger ERROR "source [%s] baseurl [%s] is missing url protocol" ;;
    raise (SystemError (u "source baseurl configuration missing protocol"))
  else
    logger DEBUG "Finished loading configuration" ;;
    crawl fuel cf (Some (serie_starturl cf)).

End Crawl.

(** The exit status of the interpreter when [main()] ends with [r]: zero
    when it returns; an uncaught exception prints a traceback and gives
    status one; [SystemExit] raised with a string prints the string on
    standard error and gives status one as well. *)
Definition exit_status {A} (r : result A) : Z :=
  match r with
  | Ok _ => 0
  | Raise (SystemExit _) => 1
  | Raise _ => 1
  end.

(** Whether the interpreter prints a traceback for [r]. *)
Definition prints_traceback {A} (r : result A) : bool :=
  match r with
  | Ok _ => false
  | Raise (SystemExit _) => false
  | Raise _ => true
  end.

Definition logged (l : level) (w : world) : list str :=
  map snd (List.filter (fun rec => match fst rec, l with
                                   | DEBUG, DEBUG | INFO, INFO
                                   | WARNING, WARNING | ERROR, ERROR => true
                                   | _, _ => false
                                   end) (log w)).

(** ** A sample platform and a sample site

    A POSIX system, with the few entries of the Latin-1 block of the
    unidecode table that the examples use; the characters outside the
    excerpt are dropped. *)

Module Sample.

Definition table (c : char) : str :=
  if (c =? 224)%N then u "a"           (* a with grave *)
  else if (c =? 233)%N then u "e"      (* e with acute *)
  else if (c =? 234)%N then u "e"      (* e with circumflex *)
  else if (c =? 241)%N then u "n"      (* n with tilde *)
  else [].

Definition posix : Platform :=
  {| linesep := [LF];
     unicode_lower := fun s => map ascii_lower s;
     unicode_isalnum := fun c => (192 <=? c)%N;
     unidecode_table := table |}.

Definition ok_page (d : document) : option response :=
  Some {| status_code := 200; reason := u "OK"; raw := d |}.

(** "Cafe", with its e acute. *)
Definition cafe : str := u "Caf" ++ [233%N].

Definition page1 : document :=
  {| title_matches := [u "Chapter One"];
     contents_matches := [u " Chapter One: The Beginning... "; u "Second\nline."];
     nexturl_matches := [u " /ch2 "] |}.

Definition page2 : document :=
  {| title_matches := [u "A New Dawn"];
     contents_matches := [u "The sun rose slowly"];
     nexturl_matches := [] |}.

Definition page3 : document :=
  {| title_matches := [cafe];
     contents_matches := [u "The sun rose slowly"; u "over the caf" ++ [233%N]];
     nexturl_matches := [u "javascript:void(0)"] |}.

Definition site (url : str) : option response :=
  if bool_decide (url = u "https://example.com/ch1") then ok_page page1
  else if bool_decide (url = u "https://example.com/ch2") then ok_page page2
  else if bool_decide (url = u "https://example.com/ch3") then ok_page page3
  else if bool_decide (url = u "https://example.com/gone") then
    Some {| status_code := 404; reason := u "Not Found"; raw := page2 |}
  else None.

Definition w0 : world :=
  {| web := site; fs := ∅; log := []; fetched := []; slept := [] |}.

Definition cf : config :=
  {| basedir := u "out"; request_delay_ms := 4; serie_id := u "novel";
     serie_starturl := u "https://example.com/ch1";
     serie_combine_flag := true;
     src_baseurl := u "https://example.com/novel/" |}.

(** The same run, started on the second page or on the third. *)
Definition cf_from (url : string) : config :=
  {| basedir := u "out"; request_delay_ms := 4; serie_id := u "novel";
     serie_starturl := u url; serie_combine_flag := false;
     src_baseurl := u "https://example.com/novel/" |}.

(** A world in which the first chapter has been written before. *)
Definition w_written : world :=
  {| web := site;
     fs := <[ [u "out"; u "novel"; u "Chapter_One.txt"] := File (u "kept") ]>
             (<[ [u "out"; u "novel"] := Dir ]> (<[ [u "out"] := Dir ]> ∅));
     log := []; fetched := []; slept := [] |}.

End Sample.

(** ** Further definitions: the outcomes of the loop, the data and
    configuration files, and what a run leaves of the file system *)

(** The record [write_content] logs before it raises. *)
Definition WRITE_ERROR : level * list N :=
  (ERROR, u "Can't write content to an already existsting path: %s").

(** The exceptions that end the loop of [main]: those of the request, of
    the extraction, of the two file helpers, of the pacer, and the
    [SystemExit] of the end of the chain. *)
Definition ends_the_loop (e : exn) : bool :=
  match e with
  | ConnectionError | RequestException _ | IndexError
  | FileExistsError _ | NotADirectoryError | IsADirectoryError
  | ValueError | OverflowError => true
  | SystemExit arg => bool_decide (arg = END_OF_CHAPTERS)
  | FileNotFoundError | SystemError _ => false
  end.

(** The world once a page has been requested. *)
Definition FETCH_LOG (url : str) (w : world) : world :=
  after_get url (log_also [(INFO, u "Fetch URL: %s")] w).

(** A world in which the combined archive holds an earlier chapter. *)
Definition w_archive : world :=
  {| web := Sample.site;
     fs := <[ [u "out"; u "novel"; u "novel.txt"] := File (u "## Zero;") ]>
             (<[ [u "out"; u "novel"] := Dir ]> (<[ [u "out"] := Dir ]> ∅));
     log := []; fetched := []; slept := [] |}.

(** How a run may change the file system: whatever was there is still
    there, a directory as a directory, a file with the text it held,
    except that the file at [archive] may have grown at its end. *)
Definition evolves (archive : path) (f f' : gmap path node) : Prop :=
  forall q n, f !! q = Some n ->
    exists n', f' !! q = Some n'
      /\ (q <> archive -> n' = n)
      /\ match n with
         | Dir => n' = Dir
         | File old => exists more, n' = File (old ++ more)
         end.

(** A step that leaves a well-formed file system well formed. *)
Definition keeps_well_formed (f f' : gmap path node) : Prop :=
  Fs.well_formed f -> Fs.well_formed f'.

(** Every outcome of [m] moves the file system along [R]. *)
Definition moves {A : Type} (R : gmap path node -> gmap path node -> Prop) (m : M A) : Prop :=
  forall w r w', In (r, w') (m w) -> R (fs w) (fs w').

(** The sum of a list of integers. *)
Definition total (l : list Z) : Z := fold_right Z.add 0 l.

(** What an outcome of [delay] has slept last. *)
Definition slept_now {A} (rw : result A * world) : Z := hd 0 (slept (snd rw)).

(** ** The data and configuration files

    [read_data] and [write_data] of [main.py], [read_app_config] and
    [setup_logging] of [_config.py].  The parsers and printers of the
    json, tomli and yaml packages and [logging.config.dictConfig] are what
    the class [Parsers] supplies; [pydata] stands for the Python objects
    they yield. *)

Class Parsers := {
  pydata : Type;
  (** [{}] *)
  empty_dict : pydata;
  (** [json.loads] *)
  json_loads : str -> result pydata;
  (** [json.dump(result, f, ensure_ascii=False, indent=4)]: the text that
      reaches the file, and the exception when the dump breaks off *)
  json_dump : pydata -> str * option exn;
  (** [tomli.load] on the bytes of the file *)
  tomli_load : str -> result pydata;
  (** [yaml.safe_load] *)
  yaml_safe_load : str -> result pydata;
  (** [logging.config.dictConfig], which may open the files of the
      handlers it sets up *)
  dictConfig : pydata -> M unit;
}.

(** Whether an exception is an [OSError]: the errors of the file system,
    and those of the requests package, which derive from [IOError]. *)
Definition is_OSError (e : exn) : bool :=
  match e with
  | FileExistsError _ | FileNotFoundError | NotADirectoryError
  | IsADirectoryError | ConnectionError | RequestException _ => true
  | IndexError | ValueError | OverflowError | SystemError _ | SystemExit _ => false
  end.

(** [try: m  except ...: handler]: [handler e] is the body of the clause
    that catches [e], when there is one. *)
Definition try_except {A} (m : M A) (handler : exn -> option (M A)) : M A :=
  fun w =>
    flat_map (fun rw : result A * world =>
                match fst rw with
                | Ok _ => [rw]
                | Raise e => match handler e with
                             | Some h => h (snd rw)
                             | None => [rw]
                             end
                end) (m w).

Module FsRead.
Import Fs.

(** Looking a path up from the top: a file on the way is
    [NotADirectoryError], a missing component [FileNotFoundError]. *)
Fixpoint walk (f : gmap path node) (prefix : path) (rest : list str) : result node :=
  match stat f prefix with
  | None => Raise FileNotFoundError
  | Some n =>
      match rest with
      | [] => Ok n
      | part :: rest' =>
          match n with
          | Dir => walk f (prefix ++ [part]) rest'
          | File _ => Raise NotADirectoryError
          end
      end
  end.

Definition find (f : gmap path node) (p : path) : result node := walk f [] p.

(** Reading in text mode with the default [newline=None]: a carriage
    return with its line feed, and a carriage return alone, are read as
    one newline. *)
Fixpoint universal_newlines (text : str) : str :=
  match text with
  | [] => []
  | c :: t =>
      if (c =? CR)%N then
        match t with
        | c' :: t' => if (c' =? LF)%N then LF :: universal_newlines t'
                      else LF :: universal_newlines t
        | [] => [LF]
        end
      else c :: universal_newlines t
  end.

End FsRead.

(** [with open(path, mode) as f: f.read()], mode ["rb"] when [binary],
    otherwise ["rt"]. *)
Definition open_read (binary : bool) (p : path) : M (list N) :=
  fun w =>
    match FsRead.find (fs w) p with
    | Ok (File text) =>
        [(Ok (if binary then text else FsRead.universal_newlines text), w)]
    | Ok Dir => [(Raise IsADirectoryError, w)]
    | Raise e => [(Raise e, w)]
    end.

(** [open(name, mode)] on a string: the empty name is no file. *)
Definition open_name (binary : bool) (name : str) : M (list N) :=
  if Fs.is_nil name then raise FileNotFoundError
  else open_read binary (Fs.Path name).

(** The names that the operating system takes as one component of a
    path, as [Fs.Path] does: no slash, no NUL character and no surrogate
    (which [open] refuses with a [ValueError]), and not the name of the
    parent directory. *)
Definition is_surrogate (c : char) : bool := (55296 <=? c)%N && (c <=? 57343)%N.

Definition plain_name (name : str) : bool :=
  forallb (fun c => negb (c =? Fs.SLASH)%N && negb (c =? 0)%N && negb (is_surrogate c))
          name
  && negb (bool_decide (name = [Fs.DOT; Fs.DOT])).

Section DataFiles.
Context {P : Platform} {J : Parsers}.

(** [os.makedirs(name, exist_ok=True)] *)
Definition makedirs (name : str) : M unit := mkdir (Fs.Path name).

Definition data_path (name : str) : str := u "./data/" ++ name ++ u ".json".

(** Lines 31-49 of [main.py]. *)
Definition read_data (name : str) : M pydata :=
  let path := data_path name in
  logger DEBUG "Read JSON [%s]" ;;
  try_except
    (text <- open_read false (Fs.Path path) ;;
     data <- lift (json_loads text) ;;
     ret data)
    (fun e =>
       match e with
       | FileNotFoundError =>
           Some (logger WARNING "JSON doesn't exist yet [%s] return empty" ;;
                 ret empty_dict)
       | _ =>
           if is_OSError e
           then Some (logger WARNING "Failed to load JSON [%s] return empty" ;;
                      ret empty_dict)
           else None
       end).

(** Lines 52-65 of [main.py]. *)
Definition write_data (name : str) (result : pydata) : M unit :=
  makedirs (u "data") ;;
  let path := data_path name in
  logger DEBUG "Write JSON [%s]: %s" ;;
  open_write false (Fs.Path path) (fst (json_dump result)) ;;
  match snd (json_dump result) with
  | Some e => raise e
  | None => ret tt
  end.

(** Lines 27-40 of [_config.py]. *)
Definition read_app_config (path : str) : M pydata :=
  logger DEBUG "Load application configuration [%s]" ;;
  try_except
    (bytes <- open_name true path ;;
     lift (tomli_load bytes))
    (fun e =>
       if is_OSError e
       then Some (logger ERROR "Failed to load app config: %s" ;; raise e)
       else None).

(** Lines 8-23 of [_config.py]. *)
Definition setup_logging (path : str) : M unit :=
  makedirs (u "log") ;;
  logconfig <-
    try_except
      (text <- open_name false path ;;
       lift (yaml_safe_load text))
      (fun e =>
         if is_OSError e
         then Some (logger ERROR "Error loading of logging config: %s" ;; raise e)
         else None) ;;
  dictConfig logconfig.

End DataFiles.

(** Sample parsers: the data are texts, written and read as they are. *)
Definition plain_parsers : Parsers :=
  {| pydata := list N; empty_dict := u "{}";
     json_loads := fun text => Ok text;
     json_dump := fun d => (d, None);
     tomli_load := fun text => Ok text;
     yaml_safe_load := fun text => Ok text;
     dictConfig := fun _ => ret tt |}.

(** The records [read_app_config] and [setup_logging] log before they
    raise again. *)
Definition CONFIG_ERROR : level * list N :=
  (ERROR, u "Failed to load app config: %s").

Definition LOGGING_ERROR : level * list N :=
  (ERROR, u "Error loading of logging config: %s").

(** The world once [read_data] has logged its first record. *)
Definition READ_LOG (w : world) : world :=
  log_also [(DEBUG, u "Read JSON [%s]")] w.

(** * Properties *)

Local Open Scope crawl_scope.

(** ** The monad: running a step whose outcome is known *)

Lemma bind_ok {A B} (m : M A) (f : A -> M B) (w w' : world) (a : A) :
  m w = [(Ok a, w')] -> bind m f w = f a w'.
Proof. intros H. unfold bind. rewrite H. simpl. apply app_nil_r. Qed.

Lemma bind_raise {A B} (m : M A) (f : A -> M B) (w w' : world) (e : exn) :
  m w = [(Raise e, w')] -> bind m f w = [(Raise e, w')].
Proof. intros H. unfold bind. rewrite H. reflexivity. Qed.

Lemma bind_ret {A B} (a : A) (f : A -> M B) (w : world) :
  bind (ret a) f w = f a w.
Proof. apply bind_ok. reflexivity. Qed.

Lemma bind_logger {B} (l : level) (msg : string) (f : unit -> M B) (w : world) :
  bind (logger l msg) f w = f tt (log_also [(l, u msg)] w).
Proof. apply bind_ok. reflexivity. Qed.

(** ** Text *)

Section TextFacts.
Context {P : Platform}.

Lemma join_paragraphs_from (contents : list str) (acc : str) :
  fold_left (fun utf8_content paragraph_text =>
               utf8_content ++ (paragraph_text ++ linesep)) contents acc
  = acc ++ concat (map (fun node => node ++ linesep) contents).
Proof.
  revert acc. induction contents as [|node rest IH]; intros acc; simpl.
  - symmetry. apply app_nil_r.
  - rewrite IH. rewrite <- app_assoc. reflexivity.
Qed.

Lemma lstrip_suffix (s : str) : exists skipped, s = skipped ++ lstrip s.
Proof.
  induction s as [|c t [sk IH]]; simpl.
  - exists []. reflexivity.
  - destruct (isspace c).
    + exists (c :: sk). simpl. f_equal. exact IH.
    + exists []. reflexivity.
Qed.

Lemma forallb_lstrip (p : char -> bool) (s : str) :
  forallb p s = true -> forallb p (lstrip s) = true.
Proof.
  intros H. destruct (lstrip_suffix s) as [sk E]. rewrite E in H.
  rewrite forallb_app in H. apply andb_true_iff in H. tauto.
Qed.

Lemma forallb_rev (p : char -> bool) (s : str) :
  forallb p (rev s) = forallb p s.
Proof.
  induction s as [|c t IH]; [reflexivity|].
  change (rev (c :: t)) with (rev t ++ [c]).
  rewrite forallb_app, IH. simpl. rewrite andb_true_r. apply andb_comm.
Qed.

Lemma forallb_strip (p : char -> bool) (s : str) :
  forallb p s = true -> forallb p (strip s) = true.
Proof.
  intros H. unfold strip, rstrip. rewrite forallb_rev.
  apply forallb_lstrip. rewrite forallb_rev. apply forallb_lstrip. exact H.
Qed.

Lemma forallb_flat_map {A B} (p : B -> bool) (f : A -> list B) (l : list A) :
  (forall a, forallb p (f a) = true) -> forallb p (flat_map f l) = true.
Proof.
  intros H. induction l as [|a t IH]; simpl; [reflexivity|].
  rewrite forallb_app, H, IH. reflexivity.
Qed.

Lemma unidecode_is_ascii (s : str) :
  table_is_ascii P -> forallb is_ascii (unidecode s) = true.
Proof.
  intros HT. apply forallb_flat_map. intros c. unfold unidecode_char.
  destruct (is_ascii c) eqn:E; simpl; [rewrite E; reflexivity | apply HT].
Qed.

Lemma normalize_is_ascii (contents : list str) :
  table_is_ascii P -> forallb is_ascii (normalize contents) = true.
Proof. intros HT. apply forallb_strip, unidecode_is_ascii, HT. Qed.

(** The file name: what the two substitutions leave. *)

Lemma isspace_underscore : isspace UNDERSCORE = false.
Proof. reflexivity. Qed.

Lemma sub_space_nonword_no_space (s : str) (in_run : bool) :
  existsb isspace (sub_space_nonword in_run s) = false.
Proof.
  revert in_run. induction s as [|c t IH]; intros in_run; simpl; [reflexivity|].
  destruct (isspace c) eqn:E.
  - destruct in_run; simpl; rewrite ?IH; reflexivity.
  - destruct (is_word c); simpl; rewrite ?E, IH; reflexivity.
Qed.

Lemma sub_underscores_no_space (s : str) (in_run : bool) :
  existsb isspace s = false ->
  existsb isspace (sub_underscores in_run s) = false.
Proof.
  revert in_run. induction s as [|c t IH]; intros in_run H; simpl in *; [reflexivity|].
  apply orb_false_iff in H. destruct H as [Hc Ht].
  destruct (c =? UNDERSCORE)%N.
  - destruct in_run; simpl; rewrite ?IH; auto.
  - simpl. rewrite Hc, IH; auto.
Qed.

(** After [sub_underscores], an underscore is never followed by a second
    one; inside a run the output does not even start with one. *)
Lemma sub_underscores_head (s : str) :
  startswith [UNDERSCORE] (sub_underscores true s) = false.
Proof.
  induction s as [|c t IH]; simpl; [reflexivity|].
  destruct (c =? UNDERSCORE)%N eqn:E; [exact IH|].
  change ((UNDERSCORE =? c)%N && true = false).
  rewrite N.eqb_sym, E. reflexivity.
Qed.

Lemma sub_underscores_single (s : str) (in_run : bool) :
  contains [UNDERSCORE; UNDERSCORE] (sub_underscores in_run s) = false.
Proof.
  revert in_run. induction s as [|c t IH]; intros in_run; simpl; [reflexivity|].
  destruct (c =? UNDERSCORE)%N eqn:E.
  - destruct in_run; [apply IH|].
    change (contains [UNDERSCORE; UNDERSCORE] (UNDERSCORE :: sub_underscores true t))
      with (startswith [UNDERSCORE; UNDERSCORE] (UNDERSCORE :: sub_underscores true t)
            || contains [UNDERSCORE; UNDERSCORE] (sub_underscores true t)).
    rewrite IH, orb_false_r.
    change (startswith [UNDERSCORE; UNDERSCORE] (UNDERSCORE :: sub_underscores true t))
      with ((UNDERSCORE =? UNDERSCORE)%N && startswith [UNDERSCORE] (sub_underscores true t)).
    rewrite sub_underscores_head. apply andb_false_r.
  - change (contains [UNDERSCORE; UNDERSCORE] (c :: sub_underscores false t))
      with (startswith [UNDERSCORE; UNDERSCORE] (c :: sub_underscores false t)
            || contains [UNDERSCORE; UNDERSCORE] (sub_underscores false t)).
    rewrite IH, orb_false_r.
    change (startswith [UNDERSCORE; UNDERSCORE] (c :: sub_underscores false t))
      with ((UNDERSCORE =? c)%N && startswith [UNDERSCORE] (sub_underscores false t)).
    rewrite N.eqb_sym, E. reflexivity.
Qed.

End TextFacts.

Section Heading.
Context {P : Platform}.

Lemma final_content_cons (title first : str) (rest : list str) (w : world) :
  final_content title (first :: rest) w =
  [(Ok (reconcile_heading title (content_firstline_of first)
          (normalize (first :: rest))), w)].
Proof. unfold final_content. simpl. rewrite bind_ret. reflexivity. Qed.

Lemma final_content_nil (title : str) (w : world) :
  final_content title [] w = [(Raise IndexError, w)].
Proof. reflexivity. Qed.

(** The branch of line 222. *)
Lemma heading_present_final (title first : str) (rest : list str) (w : world) :
  heading_missing title (content_firstline_of first) = false ->
  final_content title (first :: rest) w =
  [(Ok (u "## " ++ normalize (first :: rest)), w)].
Proof.
  intros H. rewrite final_content_cons. unfold reconcile_heading.
  rewrite H. reflexivity.
Qed.

(** The branch of line 220. *)
Lemma heading_missing_final (title first : str) (rest : list str) (w : world) :
  heading_missing title (content_firstline_of first) = true ->
  final_content title (first :: rest) w =
  [(Ok (u "## " ++ title ++ linesep ++ normalize (first :: rest)), w)].
Proof.
  intros H. rewrite final_content_cons. unfold reconcile_heading.
  rewrite H. reflexivity.
Qed.

Lemma heading_missing_false (title content_firstline : str) :
  startswith (u "chapter") content_firstline = true
  \/ contains (lower title) content_firstline = true ->
  heading_missing title content_firstline = false.
Proof.
  intros H. unfold heading_missing. apply negb_false_iff, orb_true_iff, H.
Qed.

End Heading.

(** ** The four steps

    The steps as the specification words them, against the calls of lines
    205-213: the two [replace] calls read the text once, [unidecode] works
    character by character, [strip] cuts the text at the ends of its
    leading and trailing whitespace. *)

Section FourSteps.
Context {P : Platform}.

(** [s.replace(old, new)] for an [old] of two characters. *)
Lemma replace_pair_short (a b : N) (new s : list N) :
  (length s <= 1)%nat -> replace [a; b] new s = s.
Proof.
  destruct s as [|c [|c' t]]; cbn [length]; intros H; [reflexivity| |lia].
  unfold replace. cbn [replace_from startswith]. rewrite andb_false_r. reflexivity.
Qed.

Lemma replace_pair_cons (a b : N) (new : list N) (c c' : N) (t : list N) :
  replace [a; b] new (c :: c' :: t)
  = if (a =? c)%N && (b =? c')%N then new ++ replace [a; b] new t
    else c :: replace [a; b] new (c' :: t).
Proof.
  unfold replace. cbn [replace_from startswith length Nat.pred].
  rewrite andb_true_r. destruct ((a =? c)%N && (b =? c')%N); reflexivity.
Qed.

Lemma replace_pair_other (a b : N) (new : list N) (c : N) (s : list N) :
  (a =? c)%N = false -> replace [a; b] new (c :: s) = c :: replace [a; b] new s.
Proof.
  intros H. destruct s as [|c' t].
  - rewrite !replace_pair_short by (cbn; lia). reflexivity.
  - rewrite replace_pair_cons, H. reflexivity.
Qed.

Lemma replace_pair_first (a b : N) (new : list N) (s : list N) :
  (forall h y, s = h :: y -> (b =? h)%N = false) ->
  replace [a; b] new (a :: s) = a :: replace [a; b] new s.
Proof.
  intros H. destruct s as [|c' t].
  - rewrite !replace_pair_short by (cbn; lia). reflexivity.
  - rewrite replace_pair_cons, (H c' t eq_refl), andb_false_r. reflexivity.
Qed.

(** The first pass never puts the letter [r] in front. *)
Lemma replace_newline_head (s : list N) (h : N) (y : list N) :
  (forall h0 y0, s = h0 :: y0 -> (114 =? h0)%N = false) ->
  replace [92; 110]%N [LF] s = h :: y -> (114 =? h)%N = false.
Proof.
  intros Hs. destruct s as [|c [|c' t]].
  - rewrite replace_pair_short by (cbn; lia). discriminate.
  - rewrite replace_pair_short by (cbn; lia). intros E. inversion E. subst.
    apply (Hs h []). reflexivity.
  - rewrite replace_pair_cons. destruct ((92 =? c)%N && (110 =? c')%N).
    + intros E. inversion E. reflexivity.
    + intros E. inversion E. subst. apply (Hs h (c' :: t)). reflexivity.
Qed.

(** The two passes of line 210 are one reading of the text. *)
Lemma unescape_two_passes (s : list N) :
  replace (u "\r") [CR] (replace (u "\n") [LF] s) = Spec.step2_unescape s.
Proof.
  change (u "\r") with [92; 114]%N. change (u "\n") with [92; 110]%N.
  enough (H : (replace [92; 114]%N [CR] (replace [92; 110]%N [LF] s)
               = Spec.step2_unescape s)
              /\ forall c, replace [92; 114]%N [CR] (replace [92; 110]%N [LF] (c :: s))
                           = Spec.step2_unescape (c :: s)) by apply H.
  induction s as [|c' t [IHt IHc]].
  - split; [reflexivity|]. intros c.
    rewrite (replace_pair_short _ _ _ [c]) by (cbn; lia).
    rewrite (replace_pair_short _ _ _ [c]) by (cbn; lia). reflexivity.
  - split; [apply IHc|]. intros c.
    rewrite replace_pair_cons. cbn [Spec.step2_unescape].
    unfold Spec.BACKSLASH, Spec.LETTER_N, Spec.LETTER_R.
    rewrite (N.eqb_sym c 92), (N.eqb_sym c' 110), (N.eqb_sym c' 114).
    destruct (N.eqb_spec 92 c) as [<-|Hc]; cbn [andb].
    + destruct (N.eqb_spec 110 c') as [<-|Hn].
      * cbn [app]. rewrite replace_pair_other by reflexivity.
        rewrite IHt. reflexivity.
      * destruct (N.eqb_spec 114 c') as [<-|Hr].
        -- rewrite (replace_pair_other _ _ _ 114%N) by reflexivity.
           rewrite replace_pair_cons. cbn [app]. rewrite IHt. reflexivity.
        -- rewrite replace_pair_first.
           ++ rewrite (IHc c'). reflexivity.
           ++ intros h y E. apply (replace_newline_head (c' :: t) h y); [|exact E].
              intros h0 y0 E0. inversion E0. subst. apply N.eqb_neq, Hr.
    + rewrite replace_pair_other by (apply N.eqb_neq, Hc).
      rewrite (IHc c'). reflexivity.
Qed.

Lemma lstrip_skipn (s : list N) : lstrip s = skipn (Spec.leading_whitespace s) s.
Proof.
  induction s as [|c t IH]; [reflexivity|].
  cbn [lstrip Spec.leading_whitespace]. destruct (isspace c); [exact IH | reflexivity].
Qed.

Lemma rstrip_firstn (s : list N) :
  rstrip s = firstn (length s - Spec.leading_whitespace (rev s)) s.
Proof.
  unfold rstrip. rewrite lstrip_skipn, skipn_rev, rev_involutive. reflexivity.
Qed.

Lemma leading_whitespace_app (a b : list N) :
  existsb (fun c => negb (isspace c)) a = true ->
  Spec.leading_whitespace (a ++ b) = Spec.leading_whitespace a.
Proof.
  induction a as [|c t IH]; [discriminate|].
  cbn [existsb app Spec.leading_whitespace]. destruct (isspace c); cbn [negb orb].
  - intros H. rewrite (IH H). reflexivity.
  - reflexivity.
Qed.

Lemma leading_whitespace_skipn (s : list N) (h : N) (y : list N) :
  skipn (Spec.leading_whitespace s) s = h :: y -> isspace h = false.
Proof.
  induction s as [|c t IH]; [discriminate|].
  cbn [Spec.leading_whitespace]. destruct (isspace c) eqn:E.
  - exact IH.
  - cbn [skipn]. intros H. inversion H. subst. exact E.
Qed.

(** [s.strip()] is the text between the leading and the trailing
    whitespace. *)
Lemma strip_is_trim (s : list N) : strip s = Spec.step4_trim s.
Proof.
  unfold strip, Spec.step4_trim. cbv zeta.
  rewrite rstrip_firstn, lstrip_skipn.
  set (i := Spec.leading_whitespace s).
  destruct (skipn i s) as [|h y] eqn:E.
  - rewrite !firstn_nil. reflexivity.
  - f_equal. rewrite <- E, length_skipn. f_equal.
    rewrite <- (firstn_skipn i s) at 2. rewrite rev_app_distr.
    symmetry. apply leading_whitespace_app.
    rewrite E. change (rev (h :: y)) with (rev y ++ [h]).
    rewrite existsb_app. cbn [existsb].
    rewrite (leading_whitespace_skipn s h y E). cbn. apply orb_true_r.
Qed.

End FourSteps.

(** C4. [normalize] is the four steps of the specification, in their
    order, each over the whole text: the nodes' texts joined with one line
    separator after each, the escaped newlines and carriage returns made
    real, the transliteration to ASCII, the trim. *)
Theorem normalize_is_the_four_steps {P : Platform} (contents : list str) :
  normalize contents = Spec.normalize_spec contents.
Proof.
  unfold normalize, Spec.normalize_spec, Spec.step3_transliterate,
    Spec.step1_concatenate, join_paragraphs. cbv zeta.
  rewrite join_paragraphs_from. cbn [app].
  rewrite unescape_two_passes, strip_is_trim.
  unfold unidecode. rewrite flat_map_concat_map. reflexivity.
Qed.

(** C6. The file name is a function of the title, it never holds two
    underscores in a row and it holds no whitespace character. *)
Theorem derive_filename_slug {P : Platform} (title1 title2 : str) :
  title1 = title2 ->
  derive_filename title1 = derive_filename title2
  /\ contains (u "__") (derive_filename title1) = false
  /\ existsb isspace (derive_filename title1) = false.
Proof.
  intros ->. split; [reflexivity|]. split.
  - apply sub_underscores_single.
  - apply sub_underscores_no_space, sub_space_nonword_no_space.
Qed.

Lemma derive_filename_slug_witness :
  derive_filename (P := Sample.posix) (Sample.cafe ++ u "  - the __ end!")
  = u "Cafe_the_end_"
  /\ contains (u "__") (derive_filename (P := Sample.posix) (Sample.cafe ++ u "  - the __ end!")) = false
  /\ existsb isspace (derive_filename (P := Sample.posix) (Sample.cafe ++ u "  - the __ end!")) = false.
Proof.
  split; [vm_compute; reflexivity|].
  apply (derive_filename_slug (P := Sample.posix) _ _ eq_refl).
Defined.

(** C2, as the code has it. When the first content line (lower-cased,
    trimmed, taken before the normalization) starts with "chapter" or
    holds the lower-cased title, the final content is "## " followed
    directly by the normalized content: the title is not inserted. *)
Theorem heading_present_marks_content {P : Platform}
    (title first : str) (rest : list str) (w : world) :
  startswith (u "chapter") (content_firstline_of first) = true
  \/ contains (lower title) (content_firstline_of first) = true ->
  final_content title (first :: rest) w =
  [(Ok (u "## " ++ normalize (first :: rest)), w)].
Proof.
  intros H. apply heading_present_final, heading_missing_false, H.
Qed.

Lemma heading_present_marks_content_witness :
  final_content (P := Sample.posix) (u "Chapter One")
    [u "Chapter One: The Beginning"] Sample.w0
  = [(Ok (u "## Chapter One: The Beginning"), Sample.w0)].
Proof.
  apply (heading_present_marks_content (P := Sample.posix)
           (u "Chapter One") (u "Chapter One: The Beginning") [] Sample.w0).
  left. vm_compute. reflexivity.
Defined.

(** C2 as the specification words it fails: on the page titled
    "Chapter One" whose only paragraph is "Chapter One: The Beginning" the
    first line starts with "chapter", and the final content is not
    "## " + title followed by the content. *)
Lemma heading_present_title_not_inserted :
  startswith (u "chapter")
    (content_firstline_of (P := Sample.posix) (u "Chapter One: The Beginning")) = true
  /\ final_content (P := Sample.posix) (u "Chapter One")
       [u "Chapter One: The Beginning"] Sample.w0
     = [(Ok (u "## Chapter One: The Beginning"), Sample.w0)]
  /\ final_content (P := Sample.posix) (u "Chapter One")
       [u "Chapter One: The Beginning"] Sample.w0
     <> [(Ok (u "## " ++ u "Chapter One"
              ++ normalize (P := Sample.posix) [u "Chapter One: The Beginning"]),
          Sample.w0)].
Proof.
  split; [vm_compute; reflexivity|].
  split; [rewrite final_content_cons; vm_compute; reflexivity|].
  rewrite final_content_cons. intros H.
  apply (f_equal (fun l => match l with
                           | (Ok t, _) :: _ => length t
                           | _ => O
                           end)) in H.
  vm_compute in H. discriminate H.
Qed.


#[local] Arguments N.eqb : simpl never.

Section FirstLine.
Context {P : Platform}.

Lemma first_line_app (a b : str) :
  existsb (N.eqb LF) a = false -> first_line (a ++ b) = a ++ first_line b.
Proof.
  induction a as [|c t IH]; intros H; simpl in *; [reflexivity|].
  apply orb_false_iff in H. destruct H as [Hc Ht].
  rewrite N.eqb_sym, Hc. f_equal. apply IH, Ht.
Qed.

Lemma text_mode_app (a b : str) : text_mode (a ++ b) = text_mode a ++ text_mode b.
Proof. unfold text_mode. apply flat_map_app. Qed.

Lemma text_mode_one_line (a : str) :
  existsb (N.eqb LF) a = false -> text_mode a = a.
Proof.
  induction a as [|c t IH]; intros H; simpl in *; [reflexivity|].
  apply orb_false_iff in H. destruct H as [Hc Ht].
  rewrite N.eqb_sym, Hc. simpl. f_equal. apply IH, Ht.
Qed.

End FirstLine.

(** C3. The two worked examples of the heading reconciler: the title
    "Chapter One" over a first line "chapter one: the beginning..." gives
    "## " and then the normalized content at once; the title "A New Dawn"
    over a first line "the sun rose slowly" gives "## A New Dawn", one
    line separator, then the normalized content. *)
Theorem heading_examples {P : Platform}
    (first1 first2 : str) (rest1 rest2 : list str) (w : world) :
  content_firstline_of first1 = u "chapter one: the beginning..." ->
  content_firstline_of first2 = u "the sun rose slowly" ->
  final_content (u "Chapter One") (first1 :: rest1) w =
    [(Ok (u "## " ++ normalize (first1 :: rest1)), w)]
  /\ final_content (u "A New Dawn") (first2 :: rest2) w =
    [(Ok (u "## A New Dawn" ++ linesep ++ normalize (first2 :: rest2)), w)].
Proof.
  intros H1 H2. split.
  - apply heading_present_final. rewrite H1. vm_compute. reflexivity.
  - rewrite heading_missing_final.
    + reflexivity.
    + rewrite H2. vm_compute. reflexivity.
Qed.

Lemma heading_examples_witness :
  final_content (P := Sample.posix) (u "Chapter One")
    [u " Chapter One: The Beginning... "; u "Second\nline."] Sample.w0
  = [(Ok (u "## Chapter One: The Beginning... " ++ [LF] ++ u "Second"
          ++ [LF] ++ u "line."), Sample.w0)]
  /\ final_content (P := Sample.posix) (u "A New Dawn")
       [u "The sun rose slowly"] Sample.w0
     = [(Ok (u "## A New Dawn" ++ [LF] ++ u "The sun rose slowly"), Sample.w0)].
Proof.
  apply (heading_examples (P := Sample.posix)
           (u " Chapter One: The Beginning... ") (u "The sun rose slowly")
           [u "Second\nline."] [] Sample.w0);
    vm_compute; reflexivity.
Defined.

Lemma sample_table_is_ascii : table_is_ascii Sample.posix.
Proof.
  intros c. simpl. unfold Sample.table.
  repeat match goal with |- context [if ?b then _ else _] => destruct b end;
    reflexivity.
Qed.

(** The third sample page: the file written for the chapter "Cafe" (with
    its e acute) starts with the raw title. *)
Lemma sample_cafe_file :
  exists (w1 : world) (text : str),
    fetch_and_store (P := Sample.posix) (Sample.cf_from "https://example.com/ch3")
      (u "https://example.com/ch3") Sample.w0 = [(Ok Sample.page3, w1)]
    /\ fs w1 !! [u "out"; u "novel"; u "Cafe.txt"] = Some (File text)
    /\ first_line text = u "## " ++ Sample.cafe
    /\ existsb non_ascii (first_line text) = true
    /\ forallb is_ascii (skipn (length (first_line text)) text) = true.
Proof.
  eexists. eexists. split; [vm_compute; reflexivity|].
  split; [vm_compute; reflexivity|].
  split; [vm_compute; reflexivity|].
  split; vm_compute; reflexivity.
Qed.

(** C9. When the title line is synthesized, what follows "## " is the
    title as extracted, not its transliteration: the body is pure ASCII
    while the first line of the text written carries the title character
    for character; with the title "Cafe" spelt with an e acute, the first
    line of the chapter file holds a non-ASCII character. *)
Theorem synthesized_title_is_raw {P : Platform}
    (title first : str) (rest : list str) (w : world) :
  table_is_ascii P ->
  heading_missing title (content_firstline_of first) = true ->
  existsb (N.eqb LF) title = false ->
  let body := normalize (first :: rest) in
  final_content title (first :: rest) w =
    [(Ok (u "## " ++ title ++ linesep ++ body), w)]
  /\ forallb is_ascii body = true
  /\ first_line (text_mode (u "## " ++ title ++ linesep ++ body))
     = u "## " ++ title ++ first_line (text_mode (linesep ++ body))
  /\ exists (w1 : world) (text : str),
       fetch_and_store (P := Sample.posix)
         (Sample.cf_from "https://example.com/ch3")
         (u "https://example.com/ch3") Sample.w0 = [(Ok Sample.page3, w1)]
       /\ fs w1 !! [u "out"; u "novel"; u "Cafe.txt"] = Some (File text)
       /\ existsb non_ascii (first_line text) = true
       /\ forallb is_ascii (skipn (length (first_line text)) text) = true.
Proof.
  intros HT HM HL body. split; [apply heading_missing_final, HM|].
  split; [apply normalize_is_ascii, HT|]. split.
  - rewrite !text_mode_app.
    rewrite (text_mode_one_line (u "## ")) by reflexivity.
    rewrite (text_mode_one_line title) by exact HL.
    rewrite first_line_app by reflexivity.
    rewrite first_line_app by exact HL. reflexivity.
  - destruct sample_cafe_file as (w1 & text & H1 & H2 & _ & H3 & H4).
    exists w1, text. auto.
Qed.

Lemma synthesized_title_is_raw_witness :
  final_content (P := Sample.posix) Sample.cafe
    [u "The sun rose slowly"; u "over the caf" ++ [233%N]] Sample.w0
  = [(Ok (u "## " ++ Sample.cafe ++ [LF] ++ u "The sun rose slowly" ++ [LF]
          ++ u "over the cafe"), Sample.w0)].
Proof.
  apply (synthesized_title_is_raw (P := Sample.posix) Sample.cafe
           (u "The sun rose slowly") [u "over the caf" ++ [233%N]] Sample.w0).
  - exact sample_table_is_ascii.
  - vm_compute. reflexivity.
  - vm_compute. reflexivity.
Defined.

(** ** The file system *)

Module FsFacts.
Import Fs.

Lemma stat_long (f : gmap path node) (a b : str) (rest : path) :
  stat f (a :: b :: rest) = f !! (a :: b :: rest).
Proof. reflexivity. Qed.

Lemma parent_snoc (q : path) (a x : str) :
  parent ((a :: q) ++ [x]) = a :: q.
Proof.
  destruct q as [|b q]; [reflexivity|].
  change (parent ((a :: b :: q) ++ [x])) with (removelast ((a :: b :: q) ++ [x])).
  apply removelast_last.
Qed.

Lemma stat_parent (f : gmap path node) (p : path) (n : node) :
  well_formed f -> stat f p = Some n -> stat f (parent p) = Some Dir.
Proof.
  intros WF H. destruct p as [|a [|b rest]].
  - reflexivity.
  - simpl in *. destruct (is_root a) eqn:E.
    + simpl. rewrite E. reflexivity.
    + reflexivity.
  - rewrite stat_long in H. exact (WF _ _ H).
Qed.

(** In a well-formed file system every ancestor of a directory is a
    directory. *)
Lemma ancestors_are_dirs (f : gmap path node) (q : path) :
  well_formed f -> stat f q = Some Dir ->
  forall k, (0 < k <= length q)%nat -> stat f (firstn k q) = Some Dir.
Proof.
  intros WF. induction q as [|x q' IH] using rev_ind; intros H k Hk.
  - simpl in Hk. lia.
  - rewrite length_app in Hk. simpl in Hk.
    destruct (Nat.eq_dec k (length q' + 1)%nat) as [->|Hne].
    + rewrite firstn_all2 by (rewrite length_app; simpl; lia). exact H.
    + rewrite firstn_app.
      replace (k - length q')%nat with O by lia.
      rewrite firstn_O, app_nil_r.
      destruct q' as [|a q'']; [simpl in Hk, Hne; lia|].
      apply IH; [|simpl in *; lia].
      rewrite <- (parent_snoc q'' a x).
      apply (stat_parent f _ Dir WF H).
Qed.

Lemma mkdir_from_existing (f : gmap path node) (rest prefix : path) :
  (forall k, (0 < k <= length rest)%nat ->
             stat f (prefix ++ firstn k rest) = Some Dir) ->
  mkdir_from prefix rest f = Ok f.
Proof.
  revert prefix. induction rest as [|part rest' IH]; intros prefix H.
  - reflexivity.
  - assert (H1 : stat f (prefix ++ [part]) = Some Dir)
      by (apply (H 1%nat); simpl; lia).
    simpl. rewrite H1.
    apply IH. intros k Hk. rewrite <- app_assoc.
    apply (H (S k)). simpl. lia.
Qed.

(** Making a directory that is there changes nothing. *)
Lemma mkdir_parents_existing (f : gmap path node) (q : path) :
  well_formed f -> stat f q = Some Dir -> mkdir_parents q f = Ok f.
Proof.
  intros WF H. apply mkdir_from_existing. intros k Hk.
  apply ancestors_are_dirs; assumption.
Qed.

End FsFacts.

Section FilesFacts.
Context {P : Platform}.

(** [write_content] on a path that exists: the error is logged, the
    exception raised, the file system left as it was. *)
Lemma write_content_existing (pathstr content : str) (w : world) (n : node) :
  Fs.well_formed (fs w) ->
  Fs.stat (fs w) (Fs.Path pathstr) = Some n ->
  write_content pathstr content w =
  [(Raise (FileExistsError pathstr),
    log_also [(ERROR, u "Can't write content to an already existsting path: %s")] w)].
Proof.
  intros WF H. unfold write_content.
  rewrite (bind_ok _ _ w w tt).
  - rewrite (bind_ok _ _ w w true).
    + rewrite bind_logger. reflexivity.
    + unfold path_exists. rewrite H. reflexivity.
  - unfold mkdir.
    rewrite (FsFacts.mkdir_parents_existing _ _ WF (FsFacts.stat_parent _ _ _ WF H)).
    destruct w; reflexivity.
Qed.

End FilesFacts.

(** ** Outcomes of a sequence of steps *)

Lemma in_bind {A B} (m : M A) (f : A -> M B) (w w' : world) (r : result B) :
  In (r, w') (bind m f w) <->
  (exists a w1, In (Ok a, w1) (m w) /\ In (r, w') (f a w1))
  \/ (exists e, r = Raise e /\ In (Raise e, w') (m w)).
Proof.
  unfold bind. rewrite in_flat_map. split.
  - intros [[[a|e] w1] [Hin H]]; simpl in H.
    + left. exists a, w1. auto.
    + right. exists e. destruct H as [H|[]]. inversion H; subst. auto.
  - intros [(a & w1 & Hin & H)|(e & -> & Hin)].
    + exists (Ok a, w1). auto.
    + exists (Raise e, w'). simpl. auto.
Qed.

Lemma bind_choose {A B} (l : list A) (f : A -> M B) (w : world) :
  bind (choose l) f w = flat_map (fun a => f a w) l.
Proof.
  unfold bind, choose. induction l as [|a t IH]; simpl; [reflexivity|].
  rewrite IH. reflexivity.
Qed.

Lemma flat_map_singletons {A B} (f : A -> list B) (g : A -> B) (l : list A) :
  (forall a, In a l -> f a = [g a]) -> flat_map f l = map g l.
Proof.
  induction l as [|a t IH]; intros H; simpl; [reflexivity|].
  rewrite (H a) by (left; reflexivity). simpl. f_equal.
  apply IH. intros b Hb. apply H. right. exact Hb.
Qed.

(** ** The pacer *)

Module PacerFacts.

Lemma in_interval (start width k : Z) :
  In k (interval start width) <-> start <= k < start + width.
Proof.
  unfold interval. rewrite in_map_iff. split.
  - intros (i & <- & Hi). apply in_seq in Hi. lia.
  - intros H. exists (Z.to_nat (k - start)). split; [lia|].
    apply in_seq. lia.
Qed.


Lemma floor_half_small (a : Z) :
  Z.abs a < 2 ^ 53 -> floor_half a = Ok (a / 2).
Proof.
  intros H. unfold floor_half.
  destruct (Z.ltb_spec (Z.abs a) (2 ^ 53)); [reflexivity | lia].
Qed.

(** Beyond [2 ** 53] the rounded half stays well below the number
    itself. *)
Lemma rounded_half_bound (n : Z) :
  2 ^ 53 <= n ->
  let q := round_half_even n (Z.log2 n - 52) * 2 ^ (Z.log2 n - 52 - 1) in
  0 <= q /\ 4 * q <= 3 * n.
Proof.
  intros Hn q. subst q.
  assert (Hpos : 0 < n) by (pose proof (Z.pow_pos_nonneg 2 53); lia).
  assert (HL : 53 <= Z.log2 n).
  { apply Z.log2_le_pow2; [exact Hpos | exact Hn]. }
  destruct (Z.log2_spec n Hpos) as [Hlo _].
  set (e := Z.log2 n - 52) in *.
  set (p := 2 ^ (e - 1)).
  assert (Hp : 0 < p) by (apply Z.pow_pos_nonneg; subst e; lia).
  assert (He : 2 ^ e = 2 * p).
  { subst p. replace e with (Z.succ (e - 1)) at 1 by lia.
    apply Z.pow_succ_r. subst e. lia. }
  assert (HLp : 2 ^ Z.log2 n = p * 2 ^ 53).
  { subst p. rewrite <- Z.pow_add_r by (subst e; lia).
    f_equal. subst e. lia. }
  assert (H53 : 2 ^ 53 = 9007199254740992) by reflexivity.
  unfold round_half_even. rewrite He.
  fold p.
  pose proof (Z.mul_div_le n (2 * p) ltac:(lia)) as Hd.
  assert (Hq0 : 0 <= n / (2 * p)) by (apply Z.div_pos; lia).
  set (d := n / (2 * p)) in *.
  repeat match goal with |- context [if ?b then _ else _] => destruct b end; nia.
Qed.

(** What [floor_half] gives: the floor of the half below [2 ** 53]; past
    it a value of the sign of its argument, of no more than three quarters
    of its size; [OverflowError] only past [2 ** 1024]. *)
Lemma floor_half_cases (a : Z) :
  (Z.abs a < 2 ^ 53 /\ floor_half a = Ok (a / 2))
  \/ (2 ^ 53 <= a /\ exists d, floor_half a = Ok d /\ 0 <= d /\ 4 * d <= 3 * a)
  \/ (a <= - 2 ^ 53 /\ exists d, floor_half a = Ok d /\ d <= 0)
  \/ (2 ^ 1024 <= Z.abs a /\ floor_half a = Raise OverflowError).
Proof.
  destruct (Z.lt_ge_cases (Z.abs a) (2 ^ 53)) as [Hs|Hb].
  - left. split; [exact Hs | apply floor_half_small, Hs].
  - right. unfold floor_half.
    destruct (Z.ltb_spec (Z.abs a) (2 ^ 53)) as [?|_]; [lia|].
    destruct (rounded_half_bound (Z.abs a) Hb) as [Hq0 Hq].
    set (q := round_half_even (Z.abs a) (Z.log2 (Z.abs a) - 52)
              * 2 ^ (Z.log2 (Z.abs a) - 52 - 1)) in *.
    destruct (Z.leb_spec (2 ^ 1024) q) as [Hov|Hok].
    + right. right. split; [lia | reflexivity].
    + destruct (Z.le_gt_cases 0 a) as [Ha|Ha].
      * left. split; [lia|]. exists (Z.sgn a * q). split; [reflexivity|].
        rewrite Z.sgn_pos by lia. lia.
      * right. left. split; [lia|]. exists (Z.sgn a * q). split; [reflexivity|].
        rewrite Z.sgn_neg by lia. lia.
Qed.

Lemma randrange_empty (start stop : Z) (w : world) :
  stop <= start -> randrange start stop w = [(Raise ValueError, w)].
Proof.
  intros H. unfold randrange.
  destruct (Z.ltb_spec 0 (stop - start)); [lia | reflexivity].
Qed.

Lemma randrange_nonempty (start stop : Z) (w : world) :
  start < stop ->
  randrange start stop w = map (fun k => (Ok k, w)) (interval start (stop - start)).
Proof.
  intros H. unfold randrange.
  destruct (Z.ltb_spec 0 (stop - start)); [reflexivity | lia].
Qed.

Lemma draw_ms_with (a d : Z) (w : world) :
  floor_half a = Ok d ->
  draw_ms a w = randrange (a - d) (a + d) w.
Proof.
  intros H. unfold draw_ms.
  apply (bind_ok (lift (floor_half a))
           (fun deviation_ms => randrange (a - deviation_ms) (a + deviation_ms)) w w d).
  unfold lift. rewrite H. reflexivity.
Qed.

Lemma draw_ms_overflow (a : Z) (w : world) (e : exn) :
  floor_half a = Raise e -> draw_ms a w = [(Raise e, w)].
Proof. intros H. unfold draw_ms. apply bind_raise. unfold lift. rewrite H. reflexivity. Qed.

Lemma time_sleep_cases (ms : Z) (w : world) :
  (0 <= ms /\ ms * 10 ^ 6 < 2 ^ 63 /\ time_sleep ms w = [(Ok tt, after_sleep ms w)])
  \/ (exists e, time_sleep ms w = [(Raise e, w)]).
Proof.
  unfold time_sleep.
  destruct (Z.leb_spec (2 ^ 63) (ms * 10 ^ 6)); simpl.
  - right. eexists. reflexivity.
  - destruct (Z.ltb_spec (ms * 10 ^ 6) (- 2 ^ 63)); simpl.
    + right. eexists. reflexivity.
    + destruct (Z.ltb_spec ms 0).
      * right. eexists. reflexivity.
      * left. auto.
Qed.

End PacerFacts.

Module DelayFacts.
Import PacerFacts.

(** A call of [delay] that returns has drawn [k] between the two bounds
    and has slept [k] milliseconds. *)
Lemma delay_returns_inv (a : Z) (w w' : world) :
  In (Ok tt, w') (delay a w) ->
  exists d k,
    floor_half a = Ok d /\ a - d <= k < a + d
    /\ 0 <= k /\ k * 10 ^ 6 < 2 ^ 63
    /\ draw_ms a w = map (fun k => (Ok k, w)) (interval (a - d) (a + d - (a - d)))
    /\ w' = after_sleep k (log_also [DELAY_RECORD] w).
Proof.
  unfold delay. intros H. apply in_bind in H.
  destruct H as [(k & w1 & Hdraw & Hrest)|(e & He & _)]; [|discriminate He].
  destruct (floor_half a) as [d|e] eqn:Hd.
  - rewrite (draw_ms_with a d w Hd) in Hdraw.
    destruct (Z.lt_ge_cases (a - d) (a + d)) as [Hlt|Hge].
    + rewrite (randrange_nonempty _ _ w Hlt) in Hdraw.
      apply in_map_iff in Hdraw. destruct Hdraw as (k' & Hk' & Hin).
      inversion Hk'; subst k' w1. clear Hk'.
      apply in_interval in Hin.
      rewrite bind_logger in Hrest.
      destruct (time_sleep_cases k (log_also [(DEBUG, u "Delay for: %s ms")] w))
        as [(H0 & H63 & Hs)|(e & Hs)]; rewrite Hs in Hrest;
        destruct Hrest as [Hrest|[]]; inversion Hrest.
      exists d, k. repeat split; try lia.
      * rewrite (draw_ms_with a d w Hd). apply randrange_nonempty, Hlt.
    + rewrite (randrange_empty _ _ w) in Hdraw by lia.
      destruct Hdraw as [Hdraw|[]]. discriminate Hdraw.
  - rewrite (draw_ms_overflow a w e Hd) in Hdraw.
    destruct Hdraw as [Hdraw|[]]. discriminate Hdraw.
Qed.

Lemma delay_empty_range (a d : Z) (w : world) :
  floor_half a = Ok d -> d <= 0 -> delay a w = [(Raise ValueError, w)].
Proof.
  intros Hd H0. unfold delay. apply bind_raise.
  rewrite (draw_ms_with a d w Hd). apply randrange_empty. lia.
Qed.

Lemma delay_overflow (a : Z) (w : world) (e : exn) :
  floor_half a = Raise e -> delay a w = [(Raise e, w)].
Proof.
  intros Hd. unfold delay. apply bind_raise. apply draw_ms_overflow, Hd.
Qed.

(** Below two the deviation is not positive, or the division overflows. *)
Lemma delay_below_two_cases (a : Z) (w : world) :
  a < 2 ->
  delay a w = [(Raise ValueError, w)]
  \/ (a <= - 2 ^ 1024 /\ delay a w = [(Raise OverflowError, w)]).
Proof.
  intros Ha.
  destruct (floor_half_cases a)
    as [[Hs Hd]|[[Hb _]|[[Hb (d & Hd & H0)]|[Hb Hd]]]].
  - left. apply (delay_empty_range a (a / 2) w Hd).
    assert (a / 2 < 1) by (apply Z.div_lt_upper_bound; lia). lia.
  - exfalso. assert (0 < 2 ^ 53) by (apply Z.pow_pos_nonneg; lia). lia.
  - left. apply (delay_empty_range a d w Hd H0).
  - right. split; [|apply delay_overflow, Hd].
    assert (0 < 2 ^ 1024) by (apply Z.pow_pos_nonneg; lia). lia.
Qed.

(** With an average between two milliseconds and an hour and more, every
    draw is slept. *)
Lemma delay_runs (a : Z) (w : world) :
  2 <= a < 2 ^ 40 ->
  delay a w =
  map (fun k => (Ok tt, after_sleep k (log_also [DELAY_RECORD] w)))
      (interval (a - a / 2) (a + a / 2 - (a - a / 2)))
  /\ 0 < a + a / 2 - (a - a / 2).
Proof.
  intros Ha.
  assert (H40 : 2 ^ 40 = 1099511627776) by reflexivity.
  assert (H53 : 2 ^ 53 = 9007199254740992) by reflexivity.
  assert (H63 : 2 ^ 63 = 9223372036854775808) by reflexivity.
  assert (Hh : 1 <= a / 2) by (apply Z.div_le_lower_bound; lia).
  assert (Hh' : a / 2 <= a) by (apply Z.div_le_upper_bound; lia).
  split; [|lia].
  unfold delay.
  assert (Hd : floor_half a = Ok (a / 2)) by (apply floor_half_small; lia).
  unfold bind at 1. rewrite (draw_ms_with a _ w Hd).
  rewrite randrange_nonempty by lia.
  rewrite flat_map_concat_map, map_map, <- flat_map_concat_map.
  apply flat_map_singletons. intros k Hk. apply in_interval in Hk.
  simpl. rewrite bind_logger.
  destruct (time_sleep_cases k (log_also [(DEBUG, u "Delay for: %s ms")] w))
    as [(_ & _ & Hs)|(e & Hs)].
  - rewrite Hs. reflexivity.
  - exfalso. revert Hs. unfold time_sleep.
    destruct (Z.leb_spec (2 ^ 63) (k * 10 ^ 6)) as [Hx|_]; [cbn in Hx; lia|].
    destruct (Z.ltb_spec (k * 10 ^ 6) (- 2 ^ 63)) as [Hx|_]; [cbn in Hx; lia|].
    destruct (Z.ltb_spec k 0) as [Hx|_]; [lia|]. simpl. discriminate.
Qed.

End DelayFacts.

Import PacerFacts DelayFacts.

Section CrawlFacts.
Context {P : Platform}.

Lemma advance_no_match (cf : config) (doc : document) (w : world) :
  nexturl_matches doc = [] ->
  advance cf doc w = [(Raise (SystemExit END_OF_CHAPTERS), log_also [NO_NEXT] w)].
Proof.
  intros H. unfold advance. rewrite H. cbn [Fs.is_nil].
  rewrite bind_logger. reflexivity.
Qed.

Lemma advance_invalid (cf : config) (doc : document) (w : world)
    (m : list N) (ms : list (list N)) :
  nexturl_matches doc = m :: ms ->
  link_is_valid cf (strip m) = false ->
  advance cf doc w =
  [(Raise (SystemExit END_OF_CHAPTERS),
    log_also [NO_NEXT] (log_also [(DEBUG, u "Next URL (xpath): %s")] w))].
Proof.
  intros H Hv. unfold advance. rewrite H. cbn [Fs.is_nil item0].
  rewrite bind_ret, bind_logger.
  rewrite Hv. rewrite bind_logger. reflexivity.
Qed.

Lemma advance_valid (cf : config) (doc : document) (w : world)
    (m : list N) (ms : list (list N)) :
  nexturl_matches doc = m :: ms ->
  link_is_valid cf (strip m) = true ->
  advance cf doc w =
  bind (delay (request_delay_ms cf))
       (fun _ => ret (Some (Url.urljoin (src_baseurl cf) (strip m))))
       (log_also [(DEBUG, u "Next URL (normalized): %s")]
          (log_also [(DEBUG, u "Next URL (xpath): %s")] w)).
Proof.
  intros H Hv. unfold advance. rewrite H. cbn [Fs.is_nil item0].
  rewrite bind_ret, bind_logger.
  rewrite Hv. rewrite bind_logger. reflexivity.
Qed.

Lemma iteration_after (cf : config) (url : list N) (w w1 : world) (doc : document) :
  fetch_and_store cf url w = [(Ok doc, w1)] ->
  iteration cf url w = advance cf doc w1.
Proof. intros H. unfold iteration. apply bind_ok, H. Qed.

Lemma crawl_raise (fuel : nat) (cf : config) (url : list N) (w w' : world) (e : exn) :
  iteration cf url w = [(Raise e, w')] ->
  crawl (S fuel) cf (Some url) w = [(Raise e, w')].
Proof. intros H. simpl. apply bind_raise, H. Qed.

(** The loop up to the call of [write_content]. *)
Lemma fetch_and_store_upto_write (cf : config) (url : list N) (w : world)
    (r : response) (title first : list N) (titles rest : list (list N)) :
  web w url = Some r ->
  status_code r = STATUS_CODE_OK ->
  title_matches (raw r) = title :: titles ->
  contents_matches (raw r) = first :: rest ->
  let ascii_content :=
    reconcile_heading title (content_firstline_of first) (normalize (first :: rest)) in
  fetch_and_store cf url w =
  bind (write_content (chapter_path cf (derive_filename title)) ascii_content)
       (fun _ =>
          bind (if serie_combine_flag cf
                then append_content (combined_path cf) (ascii_content ++ linesep)
                else ret tt)
               (fun _ => ret (raw r)))
       (log_also [(DEBUG, u "Filename: %s")]
          (log_also [(DEBUG, u "Title: %s")]
             (log_also [(DEBUG, u "Parsing HTML document")]
                (after_get url (log_also [(INFO, u "Fetch URL: %s")] w))))).
Proof.
  intros Hweb Hst Ht Hc ascii_content. unfold fetch_and_store.
  rewrite bind_logger.
  rewrite (bind_ok _ _ _ (after_get url (log_also [(INFO, u "Fetch URL: %s")] w)) r)
    by (unfold requests_get; simpl; rewrite Hweb; reflexivity).
  rewrite Hst. change (negb (STATUS_CODE_OK =? STATUS_CODE_OK)) with false.
  cbv iota. rewrite bind_logger, Ht. cbn [item0].
  rewrite bind_ret, !bind_logger, Hc.
  rewrite (bind_ok _ _ _ _ _ (final_content_cons _ _ _ _)).
  reflexivity.
Qed.

End CrawlFacts.

Section EndOfChain.
Context {P : Platform}.

(** The end of the chain, in both its forms. *)
Lemma advance_terminal (cf : config) (doc : document) (w : world) :
  nexturl_matches doc = []
  \/ (exists m ms, nexturl_matches doc = m :: ms
                   /\ link_is_valid cf (strip m) = false) ->
  exists w', advance cf doc w = [(Raise (SystemExit END_OF_CHAPTERS), w')]
    /\ last (log w') = Some NO_NEXT
    /\ logged ERROR w' = logged ERROR w
    /\ fs w' = fs w /\ fetched w' = fetched w /\ slept w' = slept w.
Proof.
  intros [H|(m & ms & H & Hv)].
  - eexists. split; [apply advance_no_match, H|].
    split; [apply last_snoc|].
    split; [|auto]. unfold logged, log_also. cbn [log].
    rewrite List.filter_app. cbn [List.filter fst NO_NEXT].
    rewrite app_nil_r. reflexivity.
  - eexists. split; [apply (advance_invalid cf doc w m ms H Hv)|].
    split; [apply last_snoc|].
    split; [|auto]. unfold logged, log_also. cbn [log].
    rewrite !List.filter_app. cbn [List.filter fst NO_NEXT].
    rewrite !app_nil_r. reflexivity.
Qed.

End EndOfChain.

(** C1, as the code has it. When the next-link query finds nothing, or
    finds a link that after trimming starts neither with "/" nor with the
    base URL, the loop stops by raising [SystemExit] with the message "End
    of chapters reached": the end is logged at level INFO, no error is
    logged, no traceback is printed, and what was written, requested and
    slept stays as it was; the exit status of the process is 1, the status
    of a failure. *)
Theorem end_of_chain_raises_system_exit {P : Platform}
    (cf : config) (url : list N) (w w1 : world) (doc : document) (fuel : nat) :
  fetch_and_store cf url w = [(Ok doc, w1)] ->
  nexturl_matches doc = []
  \/ (exists m ms, nexturl_matches doc = m :: ms
                   /\ startswith (u "/") (strip m) = false
                   /\ startswith (src_baseurl cf) (strip m) = false) ->
  exists w2,
    crawl (S fuel) cf (Some url) w = [(Raise (SystemExit END_OF_CHAPTERS), w2)]
    /\ exit_status (Raise (SystemExit END_OF_CHAPTERS) : result loop_end) = 1
    /\ prints_traceback (Raise (SystemExit END_OF_CHAPTERS) : result loop_end) = false
    /\ last (log w2) = Some NO_NEXT
    /\ logged ERROR w2 = logged ERROR w1
    /\ fs w2 = fs w1 /\ fetched w2 = fetched w1 /\ slept w2 = slept w1.
Proof.
  intros Hfetch Hend.
  destruct (advance_terminal cf doc w1) as (w2 & Hadv & Hrest).
  - destruct Hend as [H|(m & ms & H & H1 & H2)]; [left; exact H|].
    right. exists m, ms. split; [exact H|].
    unfold link_is_valid. rewrite H1, H2. reflexivity.
  - exists w2. split.
    + apply crawl_raise. rewrite (iteration_after cf url w w1 doc Hfetch).
      exact Hadv.
    + split; [reflexivity|]. split; [reflexivity|]. exact Hrest.
Qed.

Lemma sample_fetch_page2 :
  exists w1,
    fetch_and_store (P := Sample.posix) (Sample.cf_from "https://example.com/ch2")
      (u "https://example.com/ch2") Sample.w0 = [(Ok Sample.page2, w1)].
Proof. eexists. vm_compute. reflexivity. Qed.

Lemma end_of_chain_raises_system_exit_witness :
  exists w2,
    crawl (P := Sample.posix) 1 (Sample.cf_from "https://example.com/ch2")
      (Some (u "https://example.com/ch2")) Sample.w0
    = [(Raise (SystemExit END_OF_CHAPTERS), w2)].
Proof.
  destruct sample_fetch_page2 as [w1 H1].
  destruct (end_of_chain_raises_system_exit (P := Sample.posix)
              (Sample.cf_from "https://example.com/ch2")
              (u "https://example.com/ch2") Sample.w0 w1 Sample.page2 O H1)
    as (w2 & H2 & _).
  - left. reflexivity.
  - exists w2. exact H2.
Defined.

(** C1 as the specification words it fails: the run over the second
    sample page, which has no next link, ends with exit status 1, not
    with the status 0 of a successful run. *)
Lemma end_of_chain_exit_status :
  nexturl_matches Sample.page2 = []
  /\ map (fun rw => (fst rw, exit_status (fst rw)))
       (main (P := Sample.posix) 3 (Sample.cf_from "https://example.com/ch2") Sample.w0)
     = [(Raise (SystemExit END_OF_CHAPTERS), 1)]
  /\ 1 <> 0.
Proof.
  split; [reflexivity|]. split; [vm_compute; reflexivity | discriminate].
Qed.

(** C5. With the base URL "https://example.com/novel/": the next link
    "/ch2" resolves to "https://example.com/ch2", and that is the URL the
    loop goes on with; the next link "javascript:void(0)" fits neither
    prefix rule, ends the chain, and is never requested. *)
Theorem next_link_examples {P : Platform}
    (cf : config) (doc_a doc_b : document) (rest_a rest_b : list (list N))
    (w : world) :
  src_baseurl cf = u "https://example.com/novel/" ->
  2 <= request_delay_ms cf < 2 ^ 40 ->
  nexturl_matches doc_a = u "/ch2" :: rest_a ->
  nexturl_matches doc_b = u "javascript:void(0)" :: rest_b ->
  (Url.urljoin (src_baseurl cf) (u "/ch2") = u "https://example.com/ch2"
   /\ advance cf doc_a w <> []
   /\ forall r w', In (r, w') (advance cf doc_a w) ->
                   r = Ok (Some (u "https://example.com/ch2")))
  /\ (exists w', advance cf doc_b w = [(Raise (SystemExit END_OF_CHAPTERS), w')]
                 /\ fetched w' = fetched w)
  /\ (forall url w0 fuel,
        fetch_and_store cf url w0 = [(Ok doc_b, w)] ->
        exists w', crawl (S fuel) cf (Some url) w0
                   = [(Raise (SystemExit END_OF_CHAPTERS), w')]
                   /\ fetched w' = fetched w).
Proof.
  intros Hbase Hdelay Ha Hb.
  assert (Hterm : exists w', advance cf doc_b w = [(Raise (SystemExit END_OF_CHAPTERS), w')]
                             /\ fetched w' = fetched w).
  { destruct (advance_terminal cf doc_b w) as (w' & H & _ & _ & _ & Hf & _).
    - right. exists (u "javascript:void(0)"), rest_b. split; [exact Hb|].
      unfold link_is_valid. rewrite Hbase. vm_compute. reflexivity.
    - exists w'. auto. }
  split; [|split; [exact Hterm|]].
  - split; [rewrite Hbase; vm_compute; reflexivity|].
    rewrite (advance_valid cf doc_a w (u "/ch2") rest_a Ha)
      by (unfold link_is_valid; rewrite Hbase; vm_compute; reflexivity).
    destruct (delay_runs (request_delay_ms cf)
                (log_also [(DEBUG, u "Next URL (normalized): %s")]
                   (log_also [(DEBUG, u "Next URL (xpath): %s")] w)) Hdelay)
      as [Hrun Hwidth].
    split.
    + unfold bind. rewrite Hrun.
      remember (request_delay_ms cf) as a.
      unfold interval.
      destruct (Z.to_nat (a + a / 2 - (a - a / 2))) eqn:E; [lia|].
      simpl. discriminate.
    + intros r w' Hin. apply in_bind in Hin.
      destruct Hin as [(x & w1 & _ & Hin)|(e & _ & Hin)].
      * destruct Hin as [Hin|[]]. inversion Hin. subst.
        rewrite Hbase. vm_compute. reflexivity.
      * rewrite Hrun in Hin. apply in_map_iff in Hin.
        destruct Hin as (k & Hk & _). discriminate Hk.
  - intros url w0 fuel Hfetch. destruct Hterm as (w' & H & Hf).
    exists w'. split; [|exact Hf].
    apply crawl_raise. rewrite (iteration_after cf url w0 w doc_b Hfetch).
    exact H.
Qed.

Lemma next_link_examples_witness :
  Url.urljoin (src_baseurl Sample.cf) (u "/ch2") = u "https://example.com/ch2"
  /\ exists w',
       advance Sample.cf Sample.page3 Sample.w0
       = [(Raise (SystemExit END_OF_CHAPTERS), w')].
Proof.
  destruct (next_link_examples (P := Sample.posix) Sample.cf
              {| title_matches := []; contents_matches := [];
                 nexturl_matches := [u "/ch2"] |}
              Sample.page3 [] [] Sample.w0)
    as [[H1 _] [(w' & H2 & _) _]].
  - reflexivity.
  - simpl. split; [lia | reflexivity].
  - reflexivity.
  - reflexivity.
  - split; [exact H1|]. exists w'. exact H2.
Defined.

(** C7. When the path of the chapter file exists already, the iteration
    ends with [FileExistsError] and so does the loop: the file system is
    what it was (the file that was there keeps its text), only the one
    page has been requested, nothing is slept. *)
Theorem existing_chapter_aborts {P : Platform}
    (cf : config) (url : list N) (w : world) (r : response)
    (title first : list N) (titles rest : list (list N)) (n : node) (fuel : nat) :
  Fs.well_formed (fs w) ->
  web w url = Some r ->
  status_code r = STATUS_CODE_OK ->
  title_matches (raw r) = title :: titles ->
  contents_matches (raw r) = first :: rest ->
  Fs.stat (fs w) (Fs.Path (chapter_path cf (derive_filename title))) = Some n ->
  exists w',
    iteration cf url w
    = [(Raise (FileExistsError (chapter_path cf (derive_filename title))), w')]
    /\ crawl (S fuel) cf (Some url) w
       = [(Raise (FileExistsError (chapter_path cf (derive_filename title))), w')]
    /\ fs w' = fs w
    /\ fetched w' = url :: fetched w
    /\ slept w' = slept w.
Proof.
  intros WF Hweb Hst Ht Hc Hex.
  assert (Hit : exists w',
             iteration cf url w
             = [(Raise (FileExistsError (chapter_path cf (derive_filename title))), w')]
             /\ fs w' = fs w /\ fetched w' = url :: fetched w /\ slept w' = slept w).
  { eexists. split.
    - unfold iteration. apply bind_raise.
      rewrite (fetch_and_store_upto_write cf url w r title first titles rest
                 Hweb Hst Ht Hc).
      apply bind_raise. apply (write_content_existing _ _ _ n); [exact WF | exact Hex].
    - auto. }
  destruct Hit as (w' & Hit & Hrest). exists w'.
  split; [exact Hit|]. split; [apply crawl_raise, Hit | exact Hrest].
Qed.

Lemma sample_written_well_formed : Fs.well_formed (fs Sample.w_written).
Proof.
  intros p n H. unfold Sample.w_written in H. cbn [fs] in H.
  apply lookup_insert_Some in H. destruct H as [[<- _]|[_ H]]; [reflexivity|].
  apply lookup_insert_Some in H. destruct H as [[<- _]|[_ H]]; [reflexivity|].
  apply lookup_insert_Some in H. destruct H as [[<- _]|[_ H]]; [reflexivity|].
  rewrite lookup_empty in H. discriminate H.
Qed.

Lemma existing_chapter_aborts_witness :
  exists w',
    crawl (P := Sample.posix) 1 Sample.cf (Some (u "https://example.com/ch1"))
      Sample.w_written
    = [(Raise (FileExistsError (u "out/novel/Chapter_One.txt")), w')]
    /\ fs w' = fs Sample.w_written.
Proof.
  destruct (existing_chapter_aborts (P := Sample.posix) Sample.cf
              (u "https://example.com/ch1") Sample.w_written
              {| status_code := 200; reason := u "OK"; raw := Sample.page1 |}
              (u "Chapter One") (u " Chapter One: The Beginning... ") []
              [u "Second\nline."] (File (u "kept")) O)
    as (w' & _ & H & Hfs & _).
  - exact sample_written_well_formed.
  - reflexivity.
  - reflexivity.
  - reflexivity.
  - reflexivity.
  - vm_compute. reflexivity.
  - exists w'. split; [exact H | exact Hfs].
Defined.



(** C10, as the code has it. Below two milliseconds [delay] never sleeps:
    it raises [ValueError] for the empty range, unless the average is so
    far below zero (at [- 2 ** 1024] or less) that halving it overflows
    and raises [OverflowError]. For 0 and 1 the deviation is 0 and the
    range [average_ms, average_ms) is empty; an iteration that has found a
    valid next link then ends the loop with [ValueError]. *)
Theorem delay_below_two_raises {P : Platform} (average_ms : Z) :
  average_ms < 2 ->
  (forall w,
     delay average_ms w = [(Raise ValueError, w)]
     \/ (average_ms <= - 2 ^ 1024
         /\ delay average_ms w = [(Raise OverflowError, w)]))
  /\ (- 2 ^ 1024 < average_ms ->
      (forall w, delay average_ms w = [(Raise ValueError, w)])
      /\ forall (cf : config) (doc : document) (m : list N) (ms : list (list N))
                (url : list N) (w0 w : world) (fuel : nat),
           request_delay_ms cf = average_ms ->
           fetch_and_store cf url w0 = [(Ok doc, w)] ->
           nexturl_matches doc = m :: ms ->
           link_is_valid cf (strip m) = true ->
           exists w',
             crawl (S fuel) cf (Some url) w0 = [(Raise ValueError, w')]
             /\ slept w' = slept w)
  /\ (0 <= average_ms -> floor_half average_ms = Ok 0).
Proof.
  intros Ha. split; [intros w; apply delay_below_two_cases, Ha|].
  assert (Hve : - 2 ^ 1024 < average_ms ->
                forall w, delay average_ms w = [(Raise ValueError, w)]).
  { intros Hlo w. destruct (delay_below_two_cases average_ms w Ha) as [H|[H _]].
    - exact H.
    - lia. }
  split.
  - intros Hlo. split; [exact (Hve Hlo)|].
    intros cf doc m ms url w0 w fuel Hcf Hfetch Hm Hv.
    eexists. split.
    + apply crawl_raise. rewrite (iteration_after cf url w0 w doc Hfetch).
      rewrite (advance_valid cf doc w m ms Hm Hv).
      apply bind_raise. rewrite Hcf. apply Hve, Hlo.
    + reflexivity.
  - intros H0. rewrite floor_half_small.
    + f_equal. assert (average_ms = 0 \/ average_ms = 1) as [->| ->] by lia;
        reflexivity.
    + assert (E53 : 2 ^ 53 = 9007199254740992) by reflexivity. lia.
Qed.

Lemma delay_below_two_raises_witness :
  delay 1 Sample.w0 = [(Raise ValueError, Sample.w0)]
  /\ floor_half 1 = Ok 0.
Proof.
  destruct (delay_below_two_raises (P := Sample.posix) 1) as (_ & H & H0).
  - lia.
  - split.
    + apply H. assert (0 < 2 ^ 1024) by (apply Z.pow_pos_nonneg; lia). lia.
    + apply H0. lia.
Defined.

(** C10 as stated fails far below zero: for [- 2 ** 1025] the division
    [average_ms / 2] itself raises [OverflowError], before any range is
    built. *)
Lemma delay_far_below_zero_overflows :
  - 2 ^ 1025 < 2
  /\ delay (- 2 ^ 1025) Sample.w0 = [(Raise OverflowError, Sample.w0)]
  /\ delay (- 2 ^ 1025) Sample.w0 <> [(Raise ValueError, Sample.w0)].
Proof.
  assert (H : delay (- 2 ^ 1025) Sample.w0 = [(Raise OverflowError, Sample.w0)]).
  { apply delay_overflow. vm_compute. reflexivity. }
  split; [reflexivity|]. split; [exact H|].
  rewrite H. intros E. inversion E.
Qed.

(** ** The loop never ends by its test *)

Section NoNormalExit.
Context {P : Platform}.

Lemma advance_ok_is_some (cf : config) (doc : document) (w w' : world)
    (next : option (list N)) :
  In (Ok next, w') (advance cf doc w) -> exists url, next = Some url.
Proof.
  unfold advance. destruct (nexturl_matches doc) as [|m ms]; cbn [Fs.is_nil item0].
  - rewrite bind_logger. intros [H|[]]. discriminate H.
  - rewrite bind_ret, bind_logger.
    destruct (link_is_valid cf (strip m)).
    + rewrite bind_logger. intros H. apply in_bind in H.
      destruct H as [(x & w1 & _ & H)|(e & H & _)]; [|discriminate H].
      destruct H as [H|[]]. inversion H. eauto.
    + rewrite bind_logger. intros [H|[]]. discriminate H.
Qed.

Lemma iteration_ok_is_some (cf : config) (url : list N) (w w' : world)
    (next : option (list N)) :
  In (Ok next, w') (iteration cf url w) -> exists url', next = Some url'.
Proof.
  unfold iteration. intros H. apply in_bind in H.
  destruct H as [(doc & w1 & _ & H)|(e & H & _)]; [|discriminate H].
  apply (advance_ok_is_some cf doc w1 w' next H).
Qed.

(** Whatever the site, the loop is left by an exception: the test
    [url is not None] never fails. *)
Lemma crawl_ends_by_exception (fuel : nat) (cf : config) (url : list N)
    (w w' : world) (r : result loop_end) :
  In (r, w') (crawl fuel cf (Some url) w) -> r <> Ok LoopExit.
Proof.
  revert url w. induction fuel as [|fuel IH]; intros url w H.
  - destruct H as [H|[]]. inversion H. discriminate.
  - cbn [crawl] in H. apply in_bind in H.
    destruct H as [(next & w1 & Hit & H)|(e & -> & _)]; [|discriminate].
    destruct (iteration_ok_is_some cf url w w1 next Hit) as [url' ->].
    apply (IH url' w1 H).
Qed.

Lemma main_ends_by_exception (fuel : nat) (cf : config) (w w' : world)
    (r : result loop_end) :
  In (r, w') (main fuel cf w) -> r <> Ok LoopExit.
Proof.
  unfold main. destruct (negb (contains (u "://") (lower (src_baseurl cf)))).
  - rewrite bind_logger. intros [H|[]]. inversion H. discriminate.
  - rewrite bind_logger. apply crawl_ends_by_exception.
Qed.

End NoNormalExit.

(** ** Worked examples *)

Example urljoin_absolute_path :
  Url.urljoin (u "https://example.com/novel/") (u "/ch2")
  = u "https://example.com/ch2".
Proof. vm_compute. reflexivity. Qed.

Example urljoin_relative_path :
  Url.urljoin (u "https://example.com/novel/") (u "ch2.html?x=1#top")
  = u "https://example.com/novel/ch2.html?x=1#top".
Proof. vm_compute. reflexivity. Qed.

Example urljoin_dot_segments :
  Url.urljoin (u "https://example.com/novel/a/b") (u "../c/./d")
  = u "https://example.com/novel/c/d".
Proof. vm_compute. reflexivity. Qed.

Example urljoin_same_site :
  Url.urljoin (u "https://example.com/novel/") (u "https://example.com/novel/ch3")
  = u "https://example.com/novel/ch3".
Proof. vm_compute. reflexivity. Qed.

Example urljoin_other_host :
  Url.urljoin (u "https://example.com/novel/") (u "//other.org/x")
  = u "https://other.org/x".
Proof. vm_compute. reflexivity. Qed.

(** The sample chain of two pages: whatever is drawn for the pause, both
    pages are requested, both chapter files and the combined file are
    written, and the run ends with [SystemExit]. *)
Example two_page_chain :
  Forall (fun rw =>
            fst rw = Raise (SystemExit END_OF_CHAPTERS)
            /\ fetched (snd rw) = [u "https://example.com/ch2"; u "https://example.com/ch1"]
            /\ fs (snd rw) !! [u "out"; u "novel"; u "Chapter_One.txt"]
               = Some (File (u "## Chapter One: The Beginning... " ++ [LF]
                             ++ u "Second" ++ [LF] ++ u "line."))
            /\ fs (snd rw) !! [u "out"; u "novel"; u "A_New_Dawn.txt"]
               = Some (File (u "## A New Dawn" ++ [LF] ++ u "The sun rose slowly")))
         (main (P := Sample.posix) 5 Sample.cf Sample.w0)
  /\ map (fun rw => slept (snd rw)) (main (P := Sample.posix) 5 Sample.cf Sample.w0)
     = [[2]; [3]; [4]; [5]].
Proof.
  split; [|vm_compute; reflexivity].
  vm_compute. repeat constructor.
Qed.

(** * Further properties *)

(** * Further properties of the text helpers *)

Section TrimFacts.

Lemma lstrip_fixed (s : str) :
  existsb isspace (firstn 1 s) = false -> lstrip s = s.
Proof.
  destruct s as [|c t]; [reflexivity|]. cbn [firstn existsb].
  rewrite orb_false_r. intros H. cbn [lstrip]. rewrite H. reflexivity.
Qed.

Lemma lstrip_head (s : str) : existsb isspace (firstn 1 (lstrip s)) = false.
Proof.
  induction s as [|c t IH]; [reflexivity|]. cbn [lstrip].
  destruct (isspace c) eqn:E; [exact IH|].
  cbn [firstn existsb]. rewrite E. reflexivity.
Qed.

Lemma firstn_1_rev_app (a b : str) :
  b <> [] -> firstn 1 (rev (a ++ b)) = firstn 1 (rev b).
Proof.
  intros Hb. rewrite rev_app_distr.
  destruct (rev b) as [|x r] eqn:E.
  - apply (f_equal (@rev N)) in E. rewrite rev_involutive in E. contradiction.
  - reflexivity.
Qed.

(** Stripping on the left keeps the last character. *)
Lemma lstrip_last (s : str) :
  lstrip s <> [] -> firstn 1 (rev (lstrip s)) = firstn 1 (rev s).
Proof.
  intros H. destruct (lstrip_suffix s) as [sk E].
  rewrite E at 2. symmetry. apply firstn_1_rev_app, H.
Qed.

Lemma strip_head (s : str) : existsb isspace (firstn 1 (strip s)) = false.
Proof.
  unfold strip, rstrip.
  destruct (lstrip (rev (lstrip s))) as [|c t] eqn:E; [reflexivity|].
  rewrite <- E.
  rewrite lstrip_last by (rewrite E; discriminate).
  rewrite rev_involutive. apply lstrip_head.
Qed.

Lemma strip_last (s : str) : existsb isspace (firstn 1 (rev (strip s))) = false.
Proof.
  unfold strip, rstrip. rewrite rev_involutive. apply lstrip_head.
Qed.

Lemma strip_fixed (s : str) :
  existsb isspace (firstn 1 s) = false ->
  existsb isspace (firstn 1 (rev s)) = false ->
  strip s = s.
Proof.
  intros Hh Hl. unfold strip, rstrip.
  rewrite (lstrip_fixed s Hh), (lstrip_fixed (rev s) Hl).
  apply rev_involutive.
Qed.

Lemma strip_idempotent (s : str) : strip (strip s) = strip s.
Proof. apply strip_fixed; [apply strip_head | apply strip_last]. Qed.

End TrimFacts.

(** X1. The normalized text is trimmed: it neither starts nor ends with a
    whitespace character, and trimming it once more changes nothing. *)
Theorem normalize_is_trimmed {P : Platform} (contents : list str) :
  existsb isspace (firstn 1 (normalize contents)) = false
  /\ existsb isspace (firstn 1 (rev (normalize contents))) = false
  /\ strip (normalize contents) = normalize contents.
Proof.
  unfold normalize. split; [apply strip_head|].
  split; [apply strip_last | apply strip_idempotent].
Qed.

Section FilenameFacts.
Context {P : Platform}.

Lemma is_word_underscore : is_word UNDERSCORE = true.
Proof. reflexivity. Qed.

Lemma sub_space_nonword_words (s : str) (in_run : bool) :
  forallb is_word (sub_space_nonword in_run s) = true.
Proof.
  revert in_run. induction s as [|c t IH]; intros in_run; [reflexivity|].
  cbn [sub_space_nonword].
  destruct (isspace c).
  - destruct in_run; [apply IH|].
    cbn [forallb]. rewrite is_word_underscore, IH. reflexivity.
  - destruct (is_word c) eqn:E; cbn [forallb].
    + rewrite E, IH. reflexivity.
    + rewrite is_word_underscore, IH. reflexivity.
Qed.

Lemma sub_underscores_keeps (p : N -> bool) (s : str) (in_run : bool) :
  p UNDERSCORE = true -> forallb p s = true ->
  forallb p (sub_underscores in_run s) = true.
Proof.
  intros Hu. revert in_run. induction s as [|c t IH]; intros in_run H; [reflexivity|].
  cbn [forallb] in H. apply andb_true_iff in H. destruct H as [Hc Ht].
  cbn [sub_underscores]. destruct (c =? UNDERSCORE)%N.
  - destruct in_run; [apply IH, Ht|].
    cbn [forallb]. rewrite Hu, IH by exact Ht. reflexivity.
  - cbn [forallb]. rewrite Hc, IH by exact Ht. reflexivity.
Qed.

Lemma derive_filename_words (title : str) :
  forallb is_word (derive_filename title) = true.
Proof.
  unfold derive_filename. apply sub_underscores_keeps.
  - apply is_word_underscore.
  - apply sub_space_nonword_words.
Qed.

Lemma absent_of_forallb (p : N -> bool) (c : N) (s : str) :
  p c = false -> forallb p s = true -> existsb (N.eqb c) s = false.
Proof.
  intros Hc. induction s as [|x t IH]; intros H; [reflexivity|].
  cbn [forallb] in H. apply andb_true_iff in H. destruct H as [Hx Ht].
  cbn [existsb]. rewrite (IH Ht), orb_false_r.
  destruct (N.eqb_spec c x) as [->|]; [congruence | reflexivity].
Qed.

End FilenameFacts.

(** X2. The file name holds word characters only (letters, digits, the
    underscore): no path separator and no dot ever comes from a title. *)
Theorem derive_filename_is_safe {P : Platform} (title : str) :
  forallb is_word (derive_filename title) = true
  /\ existsb (N.eqb Fs.SLASH) (derive_filename title) = false
  /\ existsb (N.eqb Fs.DOT) (derive_filename title) = false
  /\ existsb (N.eqb 92%N) (derive_filename title) = false.
Proof.
  pose proof (derive_filename_words title) as H.
  split; [exact H|].
  repeat split; apply (absent_of_forallb is_word); try exact H; reflexivity.
Qed.

Section FilenameStable.
Context {P : Platform}.

Lemma unidecode_ascii_fixed (s : str) :
  forallb is_ascii s = true -> unidecode s = s.
Proof.
  induction s as [|c t IH]; intros H; [reflexivity|].
  cbn [forallb] in H. apply andb_true_iff in H. destruct H as [Hc Ht].
  unfold unidecode in *. cbn [flat_map]. unfold unidecode_char at 1.
  rewrite Hc. cbn [app]. f_equal. apply IH, Ht.
Qed.

Lemma sub_space_nonword_fixed (s : str) :
  forallb is_word s = true -> existsb isspace s = false ->
  sub_space_nonword false s = s.
Proof.
  induction s as [|c t IH]; intros Hw Hs; [reflexivity|].
  cbn [forallb] in Hw. apply andb_true_iff in Hw. destruct Hw as [Hc Ht].
  cbn [existsb] in Hs. apply orb_false_iff in Hs. destruct Hs as [Hsc Hst].
  cbn [sub_space_nonword]. rewrite Hsc, Hc. f_equal. apply IH; assumption.
Qed.

Lemma sub_underscores_fixed (s : str) (in_run : bool) :
  contains [UNDERSCORE; UNDERSCORE] s = false ->
  (in_run = true -> startswith [UNDERSCORE] s = false) ->
  sub_underscores in_run s = s.
Proof.
  revert in_run. induction s as [|c t IH]; intros in_run Hc Hr; [reflexivity|].
  cbn [contains] in Hc. apply orb_false_iff in Hc. destruct Hc as [Hhere Hrest].
  cbn [sub_underscores].
  destruct (N.eqb_spec c UNDERSCORE) as [->|Hne].
  - destruct in_run.
    + specialize (Hr eq_refl). cbn [startswith] in Hr.
      rewrite N.eqb_refl in Hr. discriminate Hr.
    + f_equal. apply IH; [exact Hrest|]. intros _.
      cbn [startswith] in Hhere. rewrite N.eqb_refl in Hhere.
      destruct t as [|x t']; [reflexivity|].
      cbn [startswith] in *. rewrite andb_true_r in *. exact Hhere.
  - f_equal. apply IH; [exact Hrest | discriminate].
Qed.

Lemma sub_space_nonword_ascii (s : str) (in_run : bool) :
  forallb is_ascii s = true ->
  forallb is_ascii (sub_space_nonword in_run s) = true.
Proof.
  revert in_run. induction s as [|c t IH]; intros in_run H; [reflexivity|].
  cbn [forallb] in H. apply andb_true_iff in H. destruct H as [Hc Ht].
  cbn [sub_space_nonword]. destruct (isspace c).
  - destruct in_run; [apply IH, Ht|]. cbn [forallb]. rewrite IH by exact Ht. reflexivity.
  - destruct (is_word c); cbn [forallb]; rewrite ?Hc, IH by exact Ht; reflexivity.
Qed.

Lemma derive_filename_ascii (title : str) :
  table_is_ascii P -> forallb is_ascii (derive_filename title) = true.
Proof.
  intros HT. unfold derive_filename. apply sub_underscores_keeps; [reflexivity|].
  apply sub_space_nonword_ascii, unidecode_is_ascii, HT.
Qed.

(** A character that is neither whitespace nor a word character becomes
    an underscore whatever it is. *)
Lemma sub_space_nonword_punctuation (a b : str) (c1 c2 : N) (in_run : bool) :
  isspace c1 = false -> is_word c1 = false ->
  isspace c2 = false -> is_word c2 = false ->
  sub_space_nonword in_run (a ++ c1 :: b) = sub_space_nonword in_run (a ++ c2 :: b).
Proof.
  intros Hs1 Hw1 Hs2 Hw2. revert in_run.
  induction a as [|x t IH]; intros in_run.
  - cbn [app sub_space_nonword]. rewrite Hs1, Hw1, Hs2, Hw2. reflexivity.
  - cbn [app sub_space_nonword].
    destruct (isspace x); [destruct in_run; rewrite IH; reflexivity|].
    destruct (is_word x); rewrite IH; reflexivity.
Qed.

Lemma unidecode_around (a b : str) (c : N) :
  is_ascii c = true -> unidecode (a ++ c :: b) = unidecode a ++ c :: unidecode b.
Proof.
  intros H. unfold unidecode. rewrite flat_map_app. cbn [flat_map].
  unfold unidecode_char at 2. rewrite H. reflexivity.
Qed.

End FilenameStable.

(** X3. The file name of a file name is the file name itself: with the
    ASCII tables of unidecode, deriving once more changes nothing. *)
Theorem derive_filename_idempotent {P : Platform} (title : str) :
  table_is_ascii P ->
  derive_filename (derive_filename title) = derive_filename title.
Proof.
  intros HT.
  pose proof (derive_filename_ascii title HT) as Ha.
  pose proof (derive_filename_words title) as Hw.
  assert (Hs : existsb isspace (derive_filename title) = false)
    by (apply sub_underscores_no_space, sub_space_nonword_no_space).
  assert (Hu : contains [UNDERSCORE; UNDERSCORE] (derive_filename title) = false)
    by apply sub_underscores_single.
  unfold derive_filename at 1.
  rewrite (unidecode_ascii_fixed _ Ha), (sub_space_nonword_fixed _ Hw Hs).
  apply sub_underscores_fixed; [exact Hu | discriminate].
Qed.

Lemma derive_filename_idempotent_witness :
  derive_filename (P := Sample.posix)
    (derive_filename (P := Sample.posix) (Sample.cafe ++ u "  - the __ end!"))
  = u "Cafe_the_end_".
Proof.
  rewrite (derive_filename_idempotent (P := Sample.posix) _ sample_table_is_ascii).
  vm_compute. reflexivity.
Defined.

(** X4. Titles that differ in one ASCII punctuation character give the
    same file name: the name does not tell such chapters apart. *)
Theorem derive_filename_collides {P : Platform} (a b : str) (c1 c2 : N) :
  is_ascii c1 = true -> isspace c1 = false -> is_word c1 = false ->
  is_ascii c2 = true -> isspace c2 = false -> is_word c2 = false ->
  derive_filename (a ++ c1 :: b) = derive_filename (a ++ c2 :: b).
Proof.
  intros Ha1 Hs1 Hw1 Ha2 Hs2 Hw2. unfold derive_filename.
  rewrite (unidecode_around a b c1 Ha1), (unidecode_around a b c2 Ha2).
  f_equal. apply sub_space_nonword_punctuation; assumption.
Qed.

Lemma derive_filename_collides_witness :
  derive_filename (P := Sample.posix) (u "Chapter 1!")
  = derive_filename (P := Sample.posix) (u "Chapter 1?")
  /\ derive_filename (P := Sample.posix) (u "Chapter 1?") = u "Chapter_1_".
Proof.
  split; [|vm_compute; reflexivity].
  apply (derive_filename_collides (P := Sample.posix) (u "Chapter 1") [] 33%N 63%N);
    reflexivity.
Defined.

(** * Further properties of the file helpers *)

Module FsGrowth.
Import Fs.

Lemma stat_none (f : gmap path node) (p : path) :
  stat f p = None -> f !! p = None.
Proof.
  destruct p as [|a [|b rest]]; cbn [stat]; [discriminate | | auto].
  destruct (is_root a); [discriminate | auto].
Qed.

Lemma stat_file (f : gmap path node) (p : path) (text : str) :
  stat f p = Some (File text) -> f !! p = Some (File text).
Proof.
  destruct p as [|a [|b rest]]; cbn [stat]; [discriminate | | auto].
  destruct (is_root a); [discriminate | auto].
Qed.

Lemma stat_mono (f f' : gmap path node) (p : path) (n : node) :
  f ⊆ f' -> stat f p = Some n -> stat f' p = Some n.
Proof.
  intros Hsub. destruct p as [|a [|b rest]]; cbn [stat]; [auto | | ].
  - destruct (is_root a); [auto|].
    intros H. exact (lookup_weaken f f' _ _ H Hsub).
  - intros H. exact (lookup_weaken f f' _ _ H Hsub).
Qed.

Lemma insert_grows (f : gmap path node) (p : path) (n : node) :
  stat f p = None -> f ⊆ <[p := n]> f.
Proof. intros H. apply insert_subseteq, stat_none, H. Qed.

(** Making directories only adds to the file system. *)
Lemma mkdir_from_grows (rest prefix : path) (f f' : gmap path node) :
  mkdir_from prefix rest f = Ok f' -> f ⊆ f'.
Proof.
  revert prefix f. induction rest as [|part rest' IH]; intros prefix f H.
  - cbn [mkdir_from] in H. inversion H. reflexivity.
  - cbn [mkdir_from] in H.
    destruct (stat f (prefix ++ [part])) as [[|text]|] eqn:E.
    + apply (IH _ _ H).
    + destruct (is_nil rest'); discriminate H.
    + transitivity (<[prefix ++ [part] := Dir]> f).
      * apply insert_grows, E.
      * apply (IH _ _ H).
Qed.

Lemma parent_of_snoc (prefix : path) (part : list N) :
  prefix <> [] -> parent (prefix ++ [part]) = prefix.
Proof.
  destruct prefix as [|a q]; [contradiction|]. intros _. apply FsFacts.parent_snoc.
Qed.

Lemma stat_insert_here (f : gmap path node) (p : path) (n : node) :
  stat f p = None -> stat (<[p := n]> f) p = Some n.
Proof.
  destruct p as [|a [|b rest]]; cbn [stat]; [discriminate | | ].
  - destruct (is_root a); [discriminate|]. intros _. apply lookup_insert_eq.
  - intros _. apply lookup_insert_eq.
Qed.

(** One more entry in a directory keeps the file system well formed. *)
Lemma insert_well_formed (f : gmap path node) (p : path) (n : node) :
  well_formed f -> stat f p <> Some Dir -> stat f (parent p) = Some Dir ->
  (forall text, stat f p = Some (File text) -> n <> Dir) ->
  well_formed (<[p := n]> f).
Proof.
  intros WF Hp Hpar Hkeep q m Hq.
  assert (Hne : forall x, stat f x = Some Dir -> stat (<[p := n]> f) x = Some Dir).
  { intros x Hx. destruct x as [|a [|b rest]]; cbn [stat] in *; [reflexivity | | ].
    - destruct (is_root a); [reflexivity|].
      rewrite lookup_insert_ne; [exact Hx|]. intros ->. apply Hp. cbn [stat].
      destruct (is_root a) eqn:E; [reflexivity | exact Hx].
    - rewrite lookup_insert_ne; [exact Hx|]. intros ->. apply Hp. exact Hx. }
  destruct (decide (p = q)) as [<-|Hpq].
  - apply Hne, Hpar.
  - rewrite lookup_insert_ne in Hq by exact Hpq. apply Hne, (WF q m Hq).
Qed.

Lemma mkdir_from_well_formed (rest prefix : path) (f f' : gmap path node) :
  well_formed f -> stat f prefix = Some Dir ->
  mkdir_from prefix rest f = Ok f' ->
  well_formed f' /\ stat f' (prefix ++ rest) = Some Dir.
Proof.
  revert prefix f. induction rest as [|part rest' IH]; intros prefix f WF Hpre H.
  - cbn [mkdir_from] in H. inversion H. subst f'. rewrite app_nil_r. auto.
  - cbn [mkdir_from] in H.
    replace (prefix ++ part :: rest') with ((prefix ++ [part]) ++ rest')
      by (rewrite <- app_assoc; reflexivity).
    destruct (stat f (prefix ++ [part])) as [[|text]|] eqn:E.
    + apply (IH _ _ WF E H).
    + destruct (is_nil rest'); discriminate H.
    + apply (IH _ _) in H; [exact H | | apply stat_insert_here, E].
      apply insert_well_formed; [exact WF | congruence | | congruence].
      destruct prefix as [|a q].
      * cbn [app] in *. cbn [parent]. destruct (is_root part) eqn:R.
        -- cbn [stat] in E. rewrite R in E. discriminate E.
        -- reflexivity.
      * rewrite parent_of_snoc by discriminate. exact Hpre.
Qed.

Lemma mkdir_parents_well_formed (p : path) (f f' : gmap path node) :
  well_formed f -> mkdir_parents p f = Ok f' ->
  well_formed f' /\ stat f' p = Some Dir.
Proof.
  intros WF H. apply (mkdir_from_well_formed p [] f f' WF eq_refl H).
Qed.

End FsGrowth.

Module FsMakes.
Import Fs FsGrowth.

(** After [mkdir_from] the target is a directory. *)
Lemma mkdir_from_makes (rest prefix : path) (f f' : gmap path node) :
  stat f prefix = Some Dir ->
  mkdir_from prefix rest f = Ok f' ->
  stat f' (prefix ++ rest) = Some Dir.
Proof.
  revert prefix f. induction rest as [|part rest' IH]; intros prefix f Hpre H.
  - cbn [mkdir_from] in H. inversion H. subst f'. rewrite app_nil_r. exact Hpre.
  - cbn [mkdir_from] in H.
    replace (prefix ++ part :: rest') with ((prefix ++ [part]) ++ rest')
      by (rewrite <- app_assoc; reflexivity).
    destruct (stat f (prefix ++ [part])) as [[|text]|] eqn:E.
    + apply (IH _ _ E H).
    + destruct (is_nil rest'); discriminate H.
    + apply (IH _ _ (stat_insert_here _ _ _ E) H).
Qed.

Lemma mkdir_parents_makes (p : path) (f f' : gmap path node) :
  mkdir_parents p f = Ok f' -> stat f' p = Some Dir.
Proof. apply (mkdir_from_makes p [] f f' eq_refl). Qed.

End FsMakes.

Section FileRuns.
Context {P : Platform}.
Import Fs FsGrowth FsMakes.

(** The three ways [write_content] can go. *)
Lemma write_content_run (pathstr content : str) (w : world) :
  (exists e, mkdir_parents (parent (Path pathstr)) (fs w) = Raise e
             /\ write_content pathstr content w = [(Raise e, w)])
  \/ (exists f1 n,
        mkdir_parents (parent (Path pathstr)) (fs w) = Ok f1
        /\ stat f1 (Path pathstr) = Some n
        /\ write_content pathstr content w
           = [(Raise (FileExistsError pathstr), log_also [WRITE_ERROR] (set_fs f1 w))])
  \/ (exists f1,
        mkdir_parents (parent (Path pathstr)) (fs w) = Ok f1
        /\ stat f1 (Path pathstr) = None
        /\ write_content pathstr content w
           = [(Ok tt,
               set_fs (<[Path pathstr := File (text_mode content)]> f1)
                 (log_also [(DEBUG, u "Write content: %s")] (set_fs f1 w)))]).
Proof.
  unfold write_content.
  destruct (mkdir_parents (parent (Path pathstr)) (fs w)) as [f1|e] eqn:Hmk.
  - right.
    rewrite (bind_ok _ _ w (set_fs f1 w) tt) by (unfold mkdir; rewrite Hmk; reflexivity).
    destruct (stat f1 (Path pathstr)) as [n|] eqn:Hst.
    + left. exists f1, n. split; [first [reflexivity | exact Hmk]|]. split; [first [reflexivity | exact Hst]|].
      rewrite (bind_ok _ _ _ (set_fs f1 w) true)
        by (unfold path_exists; cbn [fs set_fs]; rewrite Hst; reflexivity).
      rewrite bind_logger. reflexivity.
    + right. exists f1. split; [first [reflexivity | exact Hmk]|]. split; [first [reflexivity | exact Hst]|].
      rewrite (bind_ok _ _ _ (set_fs f1 w) false)
        by (unfold path_exists; cbn [fs set_fs]; rewrite Hst; reflexivity).
      rewrite bind_logger. unfold open_write. cbn [fs set_fs log_also].
      rewrite Hst, (mkdir_parents_makes _ _ _ Hmk). reflexivity.
  - left. exists e. split; [first [reflexivity | exact Hmk]|].
    apply bind_raise. unfold mkdir. rewrite Hmk. reflexivity.
Qed.

(** The three ways [append_content] can go. *)
Lemma append_content_run (pathstr content : str) (w : world) :
  (exists e, mkdir_parents (parent (Path pathstr)) (fs w) = Raise e
             /\ append_content pathstr content w = [(Raise e, w)])
  \/ (exists f1,
        mkdir_parents (parent (Path pathstr)) (fs w) = Ok f1
        /\ stat f1 (Path pathstr) = Some Dir
        /\ append_content pathstr content w
           = [(Raise IsADirectoryError,
               log_also [(DEBUG, u "Append content: %s")] (set_fs f1 w))])
  \/ (exists f1 before,
        mkdir_parents (parent (Path pathstr)) (fs w) = Ok f1
        /\ (stat f1 (Path pathstr) = Some (File before)
            \/ stat f1 (Path pathstr) = None /\ before = [])
        /\ append_content pathstr content w
           = [(Ok tt,
               set_fs (<[Path pathstr := File (before ++ text_mode content)]> f1)
                 (log_also [(DEBUG, u "Append content: %s")] (set_fs f1 w)))]).
Proof.
  unfold append_content.
  destruct (mkdir_parents (parent (Path pathstr)) (fs w)) as [f1|e] eqn:Hmk.
  - right.
    rewrite (bind_ok _ _ w (set_fs f1 w) tt) by (unfold mkdir; rewrite Hmk; reflexivity).
    rewrite bind_logger. unfold open_write. cbn [fs set_fs log_also].
    destruct (stat f1 (Path pathstr)) as [[|before]|] eqn:Hst.
    + left. exists f1. split; [first [reflexivity | exact Hmk]|]. split; [first [reflexivity | exact Hst] | reflexivity].
    + right. exists f1, before. split; [first [reflexivity | exact Hmk]|]. split; [left; first [reflexivity | exact Hst]|].
      rewrite (mkdir_parents_makes _ _ _ Hmk). reflexivity.
    + right. exists f1, []. split; [first [reflexivity | exact Hmk]|]. split; [right; auto|].
      rewrite (mkdir_parents_makes _ _ _ Hmk). reflexivity.
  - left. exists e. split; [first [reflexivity | exact Hmk]|].
    apply bind_raise. unfold mkdir. rewrite Hmk. reflexivity.
Qed.

End FileRuns.

Module FsFiles.
Import Fs FsGrowth.

Lemma stat_insert_over (f : gmap path node) (p : path) (n : node) :
  stat f p <> Some Dir -> stat (<[p := n]> f) p = Some n.
Proof.
  destruct p as [|a [|b rest]]; cbn [stat]; [congruence | | ].
  - destruct (is_root a); [congruence|]. intros _. apply lookup_insert_eq.
  - intros _. apply lookup_insert_eq.
Qed.

(** Making directories brings no file. *)
Lemma mkdir_from_files (rest prefix : path) (f f' : gmap path node)
    (q : path) (text : str) :
  mkdir_from prefix rest f = Ok f' ->
  f' !! q = Some (File text) -> f !! q = Some (File text).
Proof.
  revert prefix f. induction rest as [|part rest' IH]; intros prefix f H Hq.
  - cbn [mkdir_from] in H. inversion H. subst f'. exact Hq.
  - cbn [mkdir_from] in H.
    destruct (stat f (prefix ++ [part])) as [[|t]|] eqn:E.
    + apply (IH _ _ H Hq).
    + destruct (is_nil rest'); discriminate H.
    + apply (IH _ _ H) in Hq.
      apply lookup_insert_Some in Hq. destruct Hq as [[_ Hq]|[_ Hq]]; [discriminate Hq | exact Hq].
Qed.

End FsFiles.

Section FileProperties.
Context {P : Platform}.
Import Fs FsGrowth FsMakes FsFiles.

Lemma in_singleton {A} (x y : A) : In x [y] -> x = y.
Proof. intros [H|[]]. symmetry. exact H. Qed.

Lemma write_content_grows (pathstr content : str) (w w' : world) (r : result unit) :
  In (r, w') (write_content pathstr content w) -> fs w ⊆ fs w'.
Proof.
  intros Hin.
  destruct (write_content_run pathstr content w)
    as [(e & _ & Hrun)|[(f1 & n & Hmk & _ & Hrun)|(f1 & Hmk & Hst & Hrun)]];
    rewrite Hrun in Hin; apply in_singleton in Hin; inversion Hin; subst; cbn [fs set_fs log_also].
  - reflexivity.
  - apply (mkdir_from_grows _ _ _ _ Hmk).
  - transitivity f1; [apply (mkdir_from_grows _ _ _ _ Hmk) | apply insert_grows, Hst].
Qed.

Lemma write_content_well_formed (pathstr content : str) (w w' : world) (r : result unit) :
  well_formed (fs w) ->
  In (r, w') (write_content pathstr content w) -> well_formed (fs w').
Proof.
  intros WF Hin.
  destruct (write_content_run pathstr content w)
    as [(e & _ & Hrun)|[(f1 & n & Hmk & _ & Hrun)|(f1 & Hmk & Hst & Hrun)]];
    rewrite Hrun in Hin; apply in_singleton in Hin; inversion Hin; subst; cbn [fs set_fs log_also].
  - exact WF.
  - apply (mkdir_parents_well_formed _ _ _ WF Hmk).
  - destruct (mkdir_parents_well_formed _ _ _ WF Hmk) as [WF1 Hpar].
    apply insert_well_formed; [exact WF1 | congruence | exact Hpar | discriminate].
Qed.

Lemma append_content_well_formed (pathstr content : str) (w w' : world) (r : result unit) :
  well_formed (fs w) ->
  In (r, w') (append_content pathstr content w) -> well_formed (fs w').
Proof.
  intros WF Hin.
  destruct (append_content_run pathstr content w)
    as [(e & _ & Hrun)|[(f1 & Hmk & _ & Hrun)|(f1 & before & Hmk & Hst & Hrun)]];
    rewrite Hrun in Hin; apply in_singleton in Hin; inversion Hin; subst; cbn [fs set_fs log_also].
  - exact WF.
  - apply (mkdir_parents_well_formed _ _ _ WF Hmk).
  - destruct (mkdir_parents_well_formed _ _ _ WF Hmk) as [WF1 Hpar].
    apply insert_well_formed; [exact WF1 | | exact Hpar | discriminate].
    destruct Hst as [Hst|[Hst _]]; congruence.
Qed.

End FileProperties.

(** X5. [write_content] only ever adds to the file system: whatever was
    there before, file or directory, is there unchanged afterwards, whether
    the call returns or raises. *)
Theorem write_content_only_adds {P : Platform}
    (pathstr content : str) (w w' : world) (r : result unit)
    (q : list (list N)) (n : node) :
  In (r, w') (write_content pathstr content w) ->
  fs w !! q = Some n -> fs w' !! q = Some n.
Proof.
  intros Hin Hq.
  exact (lookup_weaken _ _ _ _ Hq (write_content_grows _ _ _ _ _ Hin)).
Qed.

Lemma write_content_only_adds_witness :
  exists w',
    In (Ok tt, w') (write_content (P := Sample.posix) (u "out/novel/Two.txt")
                      (u "text") Sample.w_written)
    /\ fs w' !! [u "out"; u "novel"; u "Chapter_One.txt"] = Some (File (u "kept")).
Proof.
  eexists. split; [vm_compute; left; reflexivity|].
  apply (write_content_only_adds (P := Sample.posix) (u "out/novel/Two.txt")
           (u "text") Sample.w_written _ (Ok tt)).
  - vm_compute. left. reflexivity.
  - vm_compute. reflexivity.
Defined.

(** X6. [write_content] and [append_content] keep the file system well
    formed: in every outcome whatever exists still lies in a directory. *)
Theorem file_helpers_keep_well_formed {P : Platform}
    (pathstr content : str) (w w' : world) (r : result unit) :
  Fs.well_formed (fs w) ->
  In (r, w') (write_content pathstr content w)
  \/ In (r, w') (append_content pathstr content w) ->
  Fs.well_formed (fs w').
Proof.
  intros WF [H|H];
    [apply (write_content_well_formed _ _ _ _ _ WF H)
    | apply (append_content_well_formed _ _ _ _ _ WF H)].
Qed.

(** X7. [write_content] writes once: after a call that returned, the file
    holds the text (its newlines turned into the line separator), and any
    further call on the same path raises [FileExistsError] and leaves the
    file system as it is. *)
Theorem write_content_writes_once {P : Platform}
    (pathstr content again : str) (w w1 : world) :
  Fs.well_formed (fs w) ->
  In (Ok tt, w1) (write_content pathstr content w) ->
  fs w1 !! Fs.Path pathstr = Some (File (text_mode content))
  /\ exists w2,
       write_content pathstr again w1 = [(Raise (FileExistsError pathstr), w2)]
       /\ fs w2 = fs w1.
Proof.
  intros WF Hin.
  pose proof (write_content_well_formed _ _ _ _ _ WF Hin) as WF1.
  destruct (write_content_run pathstr content w)
    as [(e & _ & Hrun)|[(f1 & n & Hmk & _ & Hrun)|(f1 & Hmk & Hst & Hrun)]];
    rewrite Hrun in Hin; apply in_singleton in Hin; inversion Hin.
  subst w1. cbn [fs set_fs log_also] in *.
  split; [apply lookup_insert_eq|].
  eexists. split.
  - apply (write_content_existing pathstr again _ (File (text_mode content))).
    + exact WF1.
    + cbn [fs set_fs]. apply FsGrowth.stat_insert_here, Hst.
  - reflexivity.
Qed.

Lemma sample_w0_well_formed : Fs.well_formed (fs Sample.w0).
Proof. intros p n H. cbn [fs Sample.w0] in H. rewrite lookup_empty in H. discriminate H. Qed.

Lemma sample_write_run :
  exists w1,
    In (Ok tt, w1) (write_content (P := Sample.posix) (u "out/a.txt") (u "one") Sample.w0).
Proof. eexists. vm_compute. left. reflexivity. Qed.

Lemma write_content_writes_once_witness :
  exists w1 w2,
    In (Ok tt, w1) (write_content (P := Sample.posix) (u "out/a.txt") (u "one") Sample.w0)
    /\ fs w1 !! Fs.Path (u "out/a.txt") = Some (File (u "one"))
    /\ write_content (P := Sample.posix) (u "out/a.txt") (u "two") w1
       = [(Raise (FileExistsError (u "out/a.txt")), w2)].
Proof.
  destruct sample_write_run as [w1 Hin].
  destruct (write_content_writes_once (P := Sample.posix) (u "out/a.txt") (u "one")
              (u "two") Sample.w0 w1 sample_w0_well_formed Hin) as (H1 & w2 & H2 & _).
  exists w1, w2. split; [exact Hin|]. split; [exact H1 | exact H2].
Defined.

Lemma file_helpers_keep_well_formed_witness :
  exists w1,
    In (Ok tt, w1) (write_content (P := Sample.posix) (u "out/a.txt") (u "one") Sample.w0)
    /\ Fs.well_formed (fs w1).
Proof.
  destruct sample_write_run as [w1 Hin]. exists w1. split; [exact Hin|].
  exact (file_helpers_keep_well_formed (P := Sample.posix) (u "out/a.txt") (u "one")
           Sample.w0 w1 (Ok tt) sample_w0_well_formed (or_introl Hin)).
Defined.

(** X8. [append_content] accumulates: after two calls that returned, the
    file holds what it held before (nothing when it was not there), then
    the first text, then the second. *)
Theorem append_content_accumulates {P : Platform}
    (pathstr first second : str) (w w1 w2 : world) :
  In (Ok tt, w1) (append_content pathstr first w) ->
  In (Ok tt, w2) (append_content pathstr second w1) ->
  exists before,
    (fs w !! Fs.Path pathstr = Some (File before)
     \/ fs w !! Fs.Path pathstr = None /\ before = [])
    /\ fs w1 !! Fs.Path pathstr = Some (File (before ++ text_mode first))
    /\ fs w2 !! Fs.Path pathstr
       = Some (File (before ++ text_mode first ++ text_mode second)).
Proof.
  intros H1 H2.
  destruct (append_content_run pathstr first w)
    as [(e & _ & Hrun)|[(f1 & Hmk & _ & Hrun)|(f1 & before & Hmk & Hst & Hrun)]];
    rewrite Hrun in H1; apply in_singleton in H1; inversion H1.
  subst w1. clear H1 Hrun.
  assert (Hnd : Fs.stat f1 (Fs.Path pathstr) <> Some Dir)
    by (destruct Hst as [Hst|[Hst _]]; congruence).
  exists before. split.
  { destruct Hst as [Hst|[Hst ->]].
    - left. apply FsGrowth.stat_file in Hst.
      apply (FsFiles.mkdir_from_files _ _ _ _ _ _ Hmk Hst).
    - right. split; [|reflexivity].
      apply FsGrowth.stat_none in Hst.
      destruct (fs w !! Fs.Path pathstr) as [n|] eqn:E; [|reflexivity].
      pose proof (lookup_weaken _ _ _ _ E (FsGrowth.mkdir_from_grows _ _ _ _ Hmk)) as E1.
      congruence. }
  cbn [fs set_fs log_also] in *.
  split; [apply lookup_insert_eq|].
  destruct (append_content_run pathstr second
              (set_fs (<[Fs.Path pathstr := File (before ++ text_mode first)]> f1)
                 (log_also [(DEBUG, u "Append content: %s")] (set_fs f1 w))))
    as [(e & _ & Hrun)|[(f2 & Hmk2 & _ & Hrun)|(f2 & before2 & Hmk2 & Hst2 & Hrun)]];
    rewrite Hrun in H2; apply in_singleton in H2; inversion H2.
  cbn [fs set_fs log_also] in *.
  assert (Hhere : Fs.stat f2 (Fs.Path pathstr) = Some (File (before ++ text_mode first))).
  { apply (FsGrowth.stat_mono _ _ _ _ (FsGrowth.mkdir_from_grows _ _ _ _ Hmk2)).
    apply FsFiles.stat_insert_over, Hnd. }
  destruct Hst2 as [Hst2|[Hst2 _]]; [|congruence].
  assert (before2 = before ++ text_mode first) by congruence. subst before2.
  rewrite lookup_insert_eq, <- app_assoc. reflexivity.
Qed.

Lemma sample_append_run :
  exists w1 w2,
    In (Ok tt, w1) (append_content (P := Sample.posix) (u "out/all.txt") (u "one;") Sample.w0)
    /\ In (Ok tt, w2) (append_content (P := Sample.posix) (u "out/all.txt") (u "two;") w1).
Proof.
  eexists. eexists. split.
  - vm_compute. left. reflexivity.
  - vm_compute. left. reflexivity.
Qed.

Lemma append_content_accumulates_witness :
  exists w2, fs w2 !! Fs.Path (u "out/all.txt") = Some (File (u "one;two;")).
Proof.
  destruct sample_append_run as (w1 & w2 & H1 & H2).
  destruct (append_content_accumulates (P := Sample.posix) _ _ _ _ _ _ H1 H2)
    as (before & Hb & _ & H).
  destruct Hb as [Hb|[_ Hb]].
  - vm_compute in Hb. discriminate Hb.
  - subst before. exists w2. exact H.
Defined.

(** * Further properties of the loop *)

Ltac in_bind_cases H a w1 Ha e He :=
  apply in_bind in H; destruct H as [(a & w1 & Ha & H)|(e & He & H)].

Module Raises.
Import Fs.

Lemma mkdir_from_raises (rest prefix : path) (f : gmap path node) (e : exn) :
  mkdir_from prefix rest f = Raise e -> ends_the_loop e = true.
Proof.
  revert prefix f. induction rest as [|part rest' IH]; intros prefix f H.
  - discriminate H.
  - cbn [mkdir_from] in H.
    destruct (stat f (prefix ++ [part])) as [[|text]|].
    + apply (IH _ _ H).
    + destruct (is_nil rest'); inversion H; reflexivity.
    + apply (IH _ _ H).
Qed.

Lemma floor_half_raises (a : Z) (e : exn) :
  floor_half a = Raise e -> e = OverflowError.
Proof.
  unfold floor_half. destruct (Z.abs a <? 2 ^ 53); [discriminate|].
  match goal with |- context [if ?b then _ else _] => destruct b end;
    [congruence | discriminate].
Qed.

Lemma delay_raises (a : Z) (w w' : world) (e : exn) :
  In (Raise e, w') (delay a w) -> e = ValueError \/ e = OverflowError.
Proof.
  unfold delay. intros H. in_bind_cases H k w1 Hk e' He.
  - rewrite bind_logger in H.
    destruct (PacerFacts.time_sleep_cases k (log_also [(DEBUG, u "Delay for: %s ms")] w1))
      as [(_ & _ & Hs)|(e' & Hs)].
    + rewrite Hs in H. destruct H as [H|[]]. discriminate H.
    + revert H. unfold time_sleep.
      repeat match goal with |- context [if ?b then _ else _] => destruct b end;
        intros [H|[]]; inversion H; auto.
  - inversion He. subst e'. clear He.
    unfold draw_ms in H. in_bind_cases H d w1 Hd e' He.
    + unfold randrange in H. destruct (0 <? a + d - (a - d)).
      * unfold choose in H. apply in_map_iff in H. destruct H as (x & Hx & _). discriminate Hx.
      * destruct H as [H|[]]. inversion H. auto.
    + inversion He. subst e'. unfold lift in H. destruct H as [H|[]].
      inversion H. right. apply (floor_half_raises a). congruence.
Qed.

End Raises.

Section LoopRaises.
Context {P : Platform}.
Import Raises.

Lemma write_content_raises (pathstr content : str) (w w' : world) (e : exn) :
  In (Raise e, w') (write_content pathstr content w) -> ends_the_loop e = true.
Proof.
  intros Hin.
  destruct (write_content_run pathstr content w)
    as [(e' & Hmk & Hrun)|[(f1 & n & _ & _ & Hrun)|(f1 & _ & _ & Hrun)]];
    rewrite Hrun in Hin; apply in_singleton in Hin; inversion Hin; subst.
  - apply (mkdir_from_raises _ _ _ _ Hmk).
  - reflexivity.
Qed.

Lemma append_content_raises (pathstr content : str) (w w' : world) (e : exn) :
  In (Raise e, w') (append_content pathstr content w) -> ends_the_loop e = true.
Proof.
  intros Hin.
  destruct (append_content_run pathstr content w)
    as [(e' & Hmk & Hrun)|[(f1 & _ & _ & Hrun)|(f1 & b & _ & _ & Hrun)]];
    rewrite Hrun in Hin; apply in_singleton in Hin; inversion Hin; subst.
  - apply (mkdir_from_raises _ _ _ _ Hmk).
  - reflexivity.
Qed.

Lemma fetch_and_store_raises (cf : config) (url : str) (w w' : world) (e : exn) :
  In (Raise e, w') (fetch_and_store cf url w) -> ends_the_loop e = true.
Proof.
  unfold fetch_and_store. rewrite bind_logger. intros H.
  in_bind_cases H r w1 Hr e' He.
  2:{ inversion He. subst e'. unfold requests_get in H.
      destruct (web _ url); apply in_singleton in H; inversion H. reflexivity. }
  destruct (negb (status_code r =? STATUS_CODE_OK)).
  { rewrite bind_logger in H. apply in_singleton in H. inversion H. reflexivity. }
  rewrite bind_logger in H.
  in_bind_cases H title w2 Ht e' He.
  2:{ inversion He. subst e'. destruct (title_matches (raw r));
      apply in_singleton in H; inversion H. reflexivity. }
  rewrite !bind_logger in H.
  in_bind_cases H text w3 Hc e' He.
  2:{ inversion He. subst e'. unfold final_content in H.
      destruct (contents_matches (raw r)) as [|first rest].
      - apply in_singleton in H. inversion H. reflexivity.
      - cbn [item0] in H. rewrite bind_ret in H. apply in_singleton in H. discriminate H. }
  in_bind_cases H x w4 Hw e' He.
  2:{ inversion He. subst e'. apply (write_content_raises _ _ _ _ _ H). }
  in_bind_cases H y w5 Ha e' He.
  - apply in_singleton in H. discriminate H.
  - inversion He. subst e'. destruct (serie_combine_flag cf).
    + apply (append_content_raises _ _ _ _ _ H).
    + apply in_singleton in H. discriminate H.
Qed.

Lemma advance_raises (cf : config) (doc : document) (w w' : world) (e : exn) :
  In (Raise e, w') (advance cf doc w) -> ends_the_loop e = true.
Proof.
  unfold advance. destruct (nexturl_matches doc) as [|m ms]; cbn [Fs.is_nil item0].
  - rewrite bind_logger. intros H. apply in_singleton in H. inversion H. reflexivity.
  - rewrite bind_ret, bind_logger. destruct (link_is_valid cf (strip m)).
    + rewrite bind_logger. intros H. in_bind_cases H x w1 Hx e' He.
      * apply in_singleton in H. discriminate H.
      * inversion He. subst e'.
        destruct (delay_raises _ _ _ _ H) as [-> | ->]; reflexivity.
    + rewrite bind_logger. intros H. apply in_singleton in H. inversion H. reflexivity.
Qed.

Lemma iteration_raises (cf : config) (url : str) (w w' : world) (e : exn) :
  In (Raise e, w') (iteration cf url w) -> ends_the_loop e = true.
Proof.
  unfold iteration. intros H. in_bind_cases H doc w1 Hd e' He.
  - apply (advance_raises _ _ _ _ _ H).
  - inversion He. subst e'. apply (fetch_and_store_raises _ _ _ _ _ H).
Qed.

Lemma crawl_raises (fuel : nat) (cf : config) (url : option (list N))
    (w w' : world) (e : exn) :
  In (Raise e, w') (crawl fuel cf url w) -> ends_the_loop e = true.
Proof.
  revert url w. induction fuel as [|fuel IH]; intros [url|] w H;
    try (apply in_singleton in H; discriminate H).
  cbn [crawl] in H. in_bind_cases H next w1 Hn e' He.
  - apply (IH _ _ H).
  - inversion He. subst e'. apply (iteration_raises _ _ _ _ _ H).
Qed.

End LoopRaises.

(** X9. The check of the configuration.  [main] raises [SystemError]
    exactly when the base URL of the source, in lower case, holds no
    ["://"]: then this is its one outcome, after one ERROR record and
    before anything is requested, written or slept; when the check
    passes, no outcome of the run is a [SystemError]. *)
Theorem main_config_check {P : Platform} (fuel : nat) (cf : config) (w : world) :
  (contains (u "://") (lower (src_baseurl cf)) = false ->
   main fuel cf w
   = [(Raise (SystemError (u "source baseurl configuration missing protocol")),
       log_also [(ERROR, u "source [%s] baseurl [%s] is missing url protocol")] w)])
  /\ (contains (u "://") (lower (src_baseurl cf)) = true ->
      forall r w', In (r, w') (main fuel cf w) ->
        forall msg, r <> Raise (SystemError msg)).
Proof.
  unfold main. split; intros E; rewrite E; cbn [negb].
  - rewrite bind_logger. reflexivity.
  - rewrite bind_logger. intros r w' H msg ->.
    apply crawl_raises in H. discriminate H.
Qed.

Section FetchFacts.
Context {P : Platform}.
Import Fs FsGrowth FsMakes FsFiles.

Lemma fetch_and_store_no_answer (cf : config) (url : str) (w : world) :
  web w url = None ->
  fetch_and_store cf url w = [(Raise ConnectionError, FETCH_LOG url w)].
Proof.
  intros H. unfold fetch_and_store. rewrite bind_logger.
  apply bind_raise. unfold requests_get. cbn [web log_also]. rewrite H. reflexivity.
Qed.

Lemma fetch_and_store_bad_status (cf : config) (url : str) (w : world) (r : response) :
  web w url = Some r -> status_code r <> STATUS_CODE_OK ->
  fetch_and_store cf url w =
  [(Raise (RequestException (status_code r)),
    log_also [(ERROR, u "Page status: %s %s")] (FETCH_LOG url w))].
Proof.
  intros H Hs. unfold fetch_and_store. rewrite bind_logger.
  rewrite (bind_ok _ _ _ (FETCH_LOG url w) r)
    by (unfold requests_get; cbn [web log_also]; rewrite H; reflexivity).
  destruct (Z.eqb_spec (status_code r) STATUS_CODE_OK) as [E|_]; [contradiction|].
  cbn [negb]. rewrite bind_logger. reflexivity.
Qed.

Lemma fetch_and_store_no_title (cf : config) (url : str) (w : world) (r : response) :
  web w url = Some r -> status_code r = STATUS_CODE_OK ->
  title_matches (raw r) = [] ->
  fetch_and_store cf url w =
  [(Raise IndexError,
    log_also [(DEBUG, u "Parsing HTML document")] (FETCH_LOG url w))].
Proof.
  intros H Hs Ht. unfold fetch_and_store. rewrite bind_logger.
  rewrite (bind_ok _ _ _ (FETCH_LOG url w) r)
    by (unfold requests_get; cbn [web log_also]; rewrite H; reflexivity).
  rewrite Hs. change (negb (STATUS_CODE_OK =? STATUS_CODE_OK)) with false. cbv iota.
  rewrite bind_logger, Ht. reflexivity.
Qed.

Lemma fetch_and_store_no_content (cf : config) (url : str) (w : world) (r : response)
    (title : str) (titles : list str) :
  web w url = Some r -> status_code r = STATUS_CODE_OK ->
  title_matches (raw r) = title :: titles ->
  contents_matches (raw r) = [] ->
  fetch_and_store cf url w =
  [(Raise IndexError,
    log_also [(DEBUG, u "Filename: %s")]
      (log_also [(DEBUG, u "Title: %s")]
         (log_also [(DEBUG, u "Parsing HTML document")] (FETCH_LOG url w))))].
Proof.
  intros H Hs Ht Hc. unfold fetch_and_store. rewrite bind_logger.
  rewrite (bind_ok _ _ _ (FETCH_LOG url w) r)
    by (unfold requests_get; cbn [web log_also]; rewrite H; reflexivity).
  rewrite Hs. change (negb (STATUS_CODE_OK =? STATUS_CODE_OK)) with false. cbv iota.
  rewrite bind_logger, Ht. cbn [item0]. rewrite bind_ret, !bind_logger, Hc.
  reflexivity.
Qed.

Lemma crawl_stops_in_fetch (fuel : nat) (cf : config) (url : str)
    (w w' : world) (e : exn) :
  fetch_and_store cf url w = [(Raise e, w')] ->
  crawl (S fuel) cf (Some url) w = [(Raise e, w')].
Proof.
  intros H. apply crawl_raise. unfold iteration. apply bind_raise, H.
Qed.

End FetchFacts.

(** X10. A page that cannot be fetched ends the run and leaves no file:
    when the request itself fails the loop ends with the error of the
    request, when the status is not 200 with [RequestException] carrying
    the status; the file system is untouched, nothing is slept, and the
    page is the last one requested. *)
Theorem unfetched_page_writes_nothing {P : Platform}
    (fuel : nat) (cf : config) (url : str) (w : world) :
  web w url = None
  \/ (exists r, web w url = Some r /\ status_code r <> STATUS_CODE_OK) ->
  exists e w',
    crawl (S fuel) cf (Some url) w = [(Raise e, w')]
    /\ (web w url = None /\ e = ConnectionError
        \/ exists r, web w url = Some r /\ e = RequestException (status_code r))
    /\ fs w' = fs w /\ fetched w' = url :: fetched w /\ slept w' = slept w.
Proof.
  intros [H|(r & H & Hs)].
  - eexists. eexists. split;
      [apply crawl_stops_in_fetch, fetch_and_store_no_answer, H|].
    split; [left; auto | auto].
  - eexists. eexists. split;
      [apply crawl_stops_in_fetch, (fetch_and_store_bad_status cf url w r H Hs)|].
    split; [right; eauto | auto].
Qed.

Lemma unfetched_page_writes_nothing_witness :
  exists w',
    crawl (P := Sample.posix) 1 Sample.cf (Some (u "https://example.com/gone")) Sample.w0
    = [(Raise (RequestException 404), w')]
    /\ fs w' = fs Sample.w0.
Proof.
  destruct (unfetched_page_writes_nothing (P := Sample.posix) O Sample.cf
              (u "https://example.com/gone") Sample.w0)
    as (e & w' & Hrun & [[Hn _]|(r & Hr & He)] & Hfs & _).
  - right. eexists. split; [reflexivity|]. vm_compute. discriminate.
  - vm_compute in Hn. discriminate Hn.
  - exists w'. vm_compute in Hr. inversion Hr. subst r e.
    split; [exact Hrun | exact Hfs].
Defined.

(** X11. A page that answers 200 without a title match, or without a
    content match, ends the run with [IndexError] before anything is
    written. *)
Theorem unextracted_page_writes_nothing {P : Platform}
    (fuel : nat) (cf : config) (url : str) (w : world) (r : response) :
  web w url = Some r -> status_code r = STATUS_CODE_OK ->
  title_matches (raw r) = [] \/ contents_matches (raw r) = [] ->
  exists w',
    crawl (S fuel) cf (Some url) w = [(Raise IndexError, w')]
    /\ fs w' = fs w /\ fetched w' = url :: fetched w /\ slept w' = slept w.
Proof.
  intros H Hs Hempty.
  destruct (title_matches (raw r)) as [|title titles] eqn:Ht.
  - eexists. split;
      [apply crawl_stops_in_fetch, (fetch_and_store_no_title cf url w r H Hs Ht) | auto].
  - destruct Hempty as [Hx|Hc]; [discriminate Hx|].
    eexists. split;
      [apply crawl_stops_in_fetch,
         (fetch_and_store_no_content cf url w r title titles H Hs Ht Hc) | auto].
Qed.

Lemma unextracted_page_writes_nothing_witness :
  exists w',
    crawl (P := Sample.posix) 1 Sample.cf (Some (u "x"))
      {| web := fun _ => Sample.ok_page {| title_matches := [u "T"];
                                           contents_matches := [];
                                           nexturl_matches := [] |};
         fs := ∅; log := []; fetched := []; slept := [] |}
    = [(Raise IndexError, w')].
Proof.
  destruct (unextracted_page_writes_nothing (P := Sample.posix) O Sample.cf (u "x")
              {| web := fun _ => Sample.ok_page {| title_matches := [u "T"];
                                                   contents_matches := [];
                                                   nexturl_matches := [] |};
                 fs := ∅; log := []; fetched := []; slept := [] |}
              {| status_code := 200; reason := u "OK";
                 raw := {| title_matches := [u "T"]; contents_matches := [];
                           nexturl_matches := [] |} |})
    as (w' & Hrun & _).
  - reflexivity.
  - reflexivity.
  - right. reflexivity.
  - exists w'. exact Hrun.
Defined.

Section StoredFacts.
Context {P : Platform}.
Import Fs FsGrowth FsFiles.

(** What a call of [fetch_and_store] that returned went through. *)
Lemma fetch_and_store_returns_parts (cf : config) (url : str) (w w1 : world)
    (doc : document) :
  In (Ok doc, w1) (fetch_and_store cf url w) ->
  exists r title titles first rest wa wb,
    web w url = Some r /\ status_code r = STATUS_CODE_OK
    /\ title_matches (raw r) = title :: titles
    /\ contents_matches (raw r) = first :: rest
    /\ doc = raw r
    /\ fs wa = fs w /\ fetched wa = url :: fetched w /\ slept wa = slept w
    /\ In (Ok tt, wb)
          (write_content (chapter_path cf (derive_filename title))
             (reconcile_heading title (content_firstline_of first)
                (normalize (first :: rest))) wa)
    /\ In (Ok tt, w1)
          ((if serie_combine_flag cf
            then append_content (combined_path cf)
                   (reconcile_heading title (content_firstline_of first)
                      (normalize (first :: rest)) ++ linesep)
            else ret tt) wb).
Proof.
  intros Hin. destruct (web w url) as [r|] eqn:Hweb.
  2:{ rewrite (fetch_and_store_no_answer _ _ _ Hweb) in Hin.
      apply in_singleton in Hin. discriminate Hin. }
  destruct (Z.eq_dec (status_code r) STATUS_CODE_OK) as [Hs|Hs].
  2:{ rewrite (fetch_and_store_bad_status _ _ _ _ Hweb Hs) in Hin.
      apply in_singleton in Hin. discriminate Hin. }
  destruct (title_matches (raw r)) as [|title titles] eqn:Ht.
  { rewrite (fetch_and_store_no_title _ _ _ _ Hweb Hs Ht) in Hin.
    apply in_singleton in Hin. discriminate Hin. }
  destruct (contents_matches (raw r)) as [|first rest] eqn:Hc.
  { rewrite (fetch_and_store_no_content _ _ _ _ _ _ Hweb Hs Ht Hc) in Hin.
    apply in_singleton in Hin. discriminate Hin. }
  pose proof (fetch_and_store_upto_write cf url w r title first titles rest
                Hweb Hs Ht Hc) as Hfetch.
  cbv zeta in Hfetch. rewrite Hfetch in Hin. clear Hfetch.
  in_bind_cases Hin x wb Hw e He; [|discriminate He].
  in_bind_cases Hin y wc Ha e He; [|discriminate He].
  apply in_singleton in Hin. inversion Hin. subst wc. destruct x, y.
  exists r, title, titles, first, rest.
  exists (log_also [(DEBUG, u "Filename: %s")]
            (log_also [(DEBUG, u "Title: %s")]
               (log_also [(DEBUG, u "Parsing HTML document")]
                  (after_get url (log_also [(INFO, u "Fetch URL: %s")] w))))), wb.
  split; [first [reflexivity | assumption]|]. split; [exact Hs|].
  split; [first [reflexivity | assumption]|].
  split; [first [reflexivity | assumption]|].
  split; [first [reflexivity | assumption]|]. split; [reflexivity|].
  split; [reflexivity|]. split; [reflexivity|]. split; [exact Hw | exact Ha].
Qed.

(** What a call of [write_content] that returned has done. *)
Lemma write_content_returns_inv (pathstr content : str) (w w1 : world) :
  In (Ok tt, w1) (write_content pathstr content w) ->
  exists f1,
    mkdir_parents (parent (Path pathstr)) (fs w) = Ok f1
    /\ stat f1 (Path pathstr) = None
    /\ fs w1 = <[Path pathstr := File (text_mode content)]> f1
    /\ fetched w1 = fetched w /\ slept w1 = slept w.
Proof.
  intros Hin.
  destruct (write_content_run pathstr content w)
    as [(e & _ & Hrun)|[(f1 & n & Hmk & _ & Hrun)|(f1 & Hmk & Hst & Hrun)]];
    rewrite Hrun in Hin; apply in_singleton in Hin; inversion Hin.
  exists f1. repeat split; assumption.
Qed.

(** What a call of [append_content] that returned has done. *)
Lemma append_content_returns_inv (pathstr content : str) (w w1 : world) :
  In (Ok tt, w1) (append_content pathstr content w) ->
  exists f1 before,
    mkdir_parents (parent (Path pathstr)) (fs w) = Ok f1
    /\ (f1 !! Path pathstr = Some (File before)
        \/ f1 !! Path pathstr = None /\ before = [])
    /\ fs w1 = <[Path pathstr := File (before ++ text_mode content)]> f1.
Proof.
  intros Hin.
  destruct (append_content_run pathstr content w)
    as [(e' & Hmk & Hrun)|[(f1 & Hmk & _ & Hrun)|(f1 & b & Hmk & Hst & Hrun)]];
    rewrite Hrun in Hin; apply in_singleton in Hin; inversion Hin.
  exists f1, b. split; [exact Hmk|]. split; [|reflexivity].
  destruct Hst as [Hst|[Hst ->]].
  - left. apply (stat_file _ _ _ Hst).
  - right. split; [apply (stat_none _ _ Hst) | reflexivity].
Qed.

(** What a call of [advance] that returned went through. *)
Lemma advance_returns_inv (cf : config) (doc : document) (w w' : world)
    (next : option str) :
  In (Ok next, w') (advance cf doc w) ->
  exists m ms w0,
    nexturl_matches doc = m :: ms
    /\ link_is_valid cf (strip m) = true
    /\ next = Some (Url.urljoin (src_baseurl cf) (strip m))
    /\ fs w0 = fs w /\ fetched w0 = fetched w /\ slept w0 = slept w
    /\ In (Ok tt, w') (delay (request_delay_ms cf) w0).
Proof.
  unfold advance. destruct (nexturl_matches doc) as [|m ms]; cbn [Fs.is_nil item0].
  - rewrite bind_logger. intros H. apply in_singleton in H. discriminate H.
  - rewrite bind_ret, bind_logger. destruct (link_is_valid cf (strip m)) eqn:Hv.
    + rewrite bind_logger. intros H. in_bind_cases H x w1 Hx e He; [|discriminate He].
      apply in_singleton in H. inversion H. subst. destruct x.
      exists m, ms.
      exists (log_also [(DEBUG, u "Next URL (normalized): %s")]
                (log_also [(DEBUG, u "Next URL (xpath): %s")] w)).
      split; [reflexivity|]. split; [first [reflexivity | exact Hv]|].
      split; [reflexivity|]. split; [reflexivity|]. split; [reflexivity|].
      split; [reflexivity | exact Hx].
    + rewrite bind_logger. intros H. apply in_singleton in H. discriminate H.
Qed.

End StoredFacts.

(** X12. What an iteration that goes on has done.  With the combined
    archive switched off, whenever the body of the loop hands on a next
    URL: the page answered 200 with a title, a content and a next link
    whose stripped text is a valid link; the directories above the
    chapter path were made, the chapter path was free, and the file
    system is what the making of the directories left plus the chapter
    file, holding the text as text mode writes it; the one page was
    requested; and the run has slept once, a number of milliseconds from
    [average - deviation] up to, and not including, [average + deviation],
    the deviation being [floor(average / 2)]. *)
Theorem iteration_continues {P : Platform}
    (cf : config) (url : str) (w w' : world) (next : option str) :
  serie_combine_flag cf = false ->
  In (Ok next, w') (iteration cf url w) ->
  exists r title titles first rest m ms f1 d k,
    web w url = Some r /\ status_code r = STATUS_CODE_OK
    /\ title_matches (raw r) = title :: titles
    /\ contents_matches (raw r) = first :: rest
    /\ nexturl_matches (raw r) = m :: ms
    /\ link_is_valid cf (strip m) = true
    /\ (exists next_url, next = Some next_url)
    /\ Fs.mkdir_parents
         (Fs.parent (Fs.Path (chapter_path cf (derive_filename title)))) (fs w)
       = Ok f1
    /\ Fs.stat f1 (Fs.Path (chapter_path cf (derive_filename title))) = None
    /\ fs w' = <[Fs.Path (chapter_path cf (derive_filename title))
                 := File (text_mode (reconcile_heading title
                                       (content_firstline_of first)
                                       (normalize (first :: rest))))]> f1
    /\ fetched w' = url :: fetched w
    /\ floor_half (request_delay_ms cf) = Ok d
    /\ slept w' = k :: slept w
    /\ request_delay_ms cf - d <= k < request_delay_ms cf + d.
Proof.
  intros Hflag Hin. unfold iteration in Hin.
  in_bind_cases Hin doc w1 Hdoc e He; [|discriminate He].
  destruct (fetch_and_store_returns_parts cf url w w1 doc Hdoc)
    as (r & title & titles & first & rest & wa & wb
        & Hweb & Hs & Ht & Hc & -> & Hfa & Hfe & Hsl & Hw & Ha).
  rewrite Hflag in Ha. apply in_singleton in Ha. inversion Ha. subst wb.
  destruct (write_content_returns_inv _ _ _ _ Hw)
    as (f1 & Hmk & Hst & Hfs1 & Hfe1 & Hsl1).
  destruct (advance_returns_inv cf (raw r) w1 w' next Hin)
    as (m & ms & w0 & Hm & Hv & Hnext & Hfs0 & Hfe0 & Hsl0 & Hd).
  destruct (delay_returns_inv _ _ _ Hd) as (d & k & Hfl & Hk & _ & _ & _ & ->).
  exists r, title, titles, first, rest, m, ms, f1, d, k.
  cbn [fs fetched slept after_sleep log_also].
  rewrite Hfa in Hmk.
  repeat split; try assumption; try (apply Hk).
  - eauto.
  - congruence.
  - congruence.
  - congruence.
Qed.

Lemma sample_iteration_run :
  exists next w',
    In (Ok next, w')
       (iteration (P := Sample.posix) (Sample.cf_from "https://example.com/ch1")
          (u "https://example.com/ch1") Sample.w0).
Proof. do 2 eexists. vm_compute. left. reflexivity. Qed.

Lemma iteration_continues_witness :
  exists next w' k,
    In (Ok next, w')
       (iteration (P := Sample.posix) (Sample.cf_from "https://example.com/ch1")
          (u "https://example.com/ch1") Sample.w0)
    /\ fetched w' = [u "https://example.com/ch1"]
    /\ slept w' = [k] /\ 2 <= k < 6.
Proof.
  destruct sample_iteration_run as (next & w' & Hin).
  destruct (iteration_continues (P := Sample.posix)
              (Sample.cf_from "https://example.com/ch1")
              (u "https://example.com/ch1") Sample.w0 w' next eq_refl Hin)
    as (r & title & titles & first & rest & m & ms & f1 & d & k
        & _ & _ & _ & _ & _ & _ & _ & _ & _ & _ & Hfe & Hd & Hsl & Hk).
  exists next, w', k. split; [exact Hin|]. split; [exact Hfe|].
  split; [exact Hsl|].
  vm_compute in Hd. inversion Hd. subst d. exact Hk.
Defined.

Lemma w_archive_well_formed : Fs.well_formed (fs w_archive).
Proof.
  intros p n H. unfold w_archive in H. cbn [fs] in H.
  apply lookup_insert_Some in H. destruct H as [[<- _]|[_ H]]; [reflexivity|].
  apply lookup_insert_Some in H. destruct H as [[<- _]|[_ H]]; [reflexivity|].
  apply lookup_insert_Some in H. destruct H as [[<- _]|[_ H]]; [reflexivity|].
  rewrite lookup_empty in H. discriminate H.
Qed.

(** X13. The combined archive.  With the archive switched on, whenever a
    page has been fetched and stored, its text [T] (as text mode writes
    it) is on disk twice.  When the chapter path is not the path of the
    archive, the chapter file holds [T] and the archive holds what it
    held before the call (nothing when it was not there), then [T], then
    one line separator.  When the file name of the chapter is the
    identifier of the series, so that the two paths are one, that file
    holds [T], then [T] again, then one line separator. *)
Theorem combined_archive_grows {P : Platform}
    (cf : config) (url : str) (w w1 : world) (doc : document) :
  serie_combine_flag cf = true ->
  In (Ok doc, w1) (fetch_and_store cf url w) ->
  exists r title titles first rest,
    web w url = Some r
    /\ title_matches (raw r) = title :: titles
    /\ contents_matches (raw r) = first :: rest
    /\ let T := text_mode (reconcile_heading title (content_firstline_of first)
                             (normalize (first :: rest))) in
       let chapter := Fs.Path (chapter_path cf (derive_filename title)) in
       let archive := Fs.Path (combined_path cf) in
       (chapter <> archive ->
        fs w1 !! chapter = Some (File T)
        /\ exists old,
             (fs w !! archive = Some (File old)
              \/ fs w !! archive = None /\ old = [])
             /\ fs w1 !! archive = Some (File (old ++ T ++ text_mode linesep)))
       /\ (chapter = archive ->
           fs w1 !! archive = Some (File (T ++ T ++ text_mode linesep))).
Proof.
  intros Hflag Hin.
  destruct (fetch_and_store_returns_parts cf url w w1 doc Hin)
    as (r & title & titles & first & rest & wa & wb
        & Hweb & Hs & Ht & Hc & _ & Hfa & _ & _ & Hw & Ha).
  rewrite Hflag in Ha.
  destruct (write_content_returns_inv _ _ _ _ Hw) as (f1 & Hmk & Hst & Hfs1 & _).
  destruct (append_content_returns_inv _ _ _ _ Ha) as (f2 & before & Hmk2 & Hb & Hfs2).
  rewrite Hfa in Hmk. rewrite text_mode_app in Hfs2.
  exists r, title, titles, first, rest.
  split; [exact Hweb|]. split; [exact Ht|]. split; [exact Hc|]. cbv zeta.
  set (T := text_mode _) in *.
  set (chapter := Fs.Path (chapter_path cf (derive_filename title))) in *.
  set (archive := Fs.Path (combined_path cf)) in *.
  assert (Hchapter : f2 !! chapter = Some (File T)).
  { apply (lookup_weaken (fs wb)); [|apply (FsGrowth.mkdir_from_grows _ _ _ _ Hmk2)].
    rewrite Hfs1. apply lookup_insert_eq. }
  split.
  - intros Hne. split.
    + rewrite Hfs2, lookup_insert_ne by congruence. exact Hchapter.
    + exists before. split; [|rewrite Hfs2; apply lookup_insert_eq].
      destruct Hb as [Hb|[Hb ->]].
      * left. apply (FsFiles.mkdir_from_files _ _ _ _ _ _ Hmk2) in Hb.
        rewrite Hfs1, lookup_insert_ne in Hb by exact Hne.
        apply (FsFiles.mkdir_from_files _ _ _ _ _ _ Hmk Hb).
      * right. split; [|reflexivity].
        destruct (fs w !! archive) as [n|] eqn:E; [|reflexivity].
        assert (Hin2 : f2 !! archive = Some n).
        { apply (lookup_weaken (fs wb)); [|apply (FsGrowth.mkdir_from_grows _ _ _ _ Hmk2)].
          rewrite Hfs1, lookup_insert_ne by exact Hne.
          apply (lookup_weaken (fs w)); [exact E|].
          apply (FsGrowth.mkdir_from_grows _ _ _ _ Hmk). }
        congruence.
  - intros Heq. rewrite <- Heq in *.
    assert (before = T).
    { destruct Hb as [Hb|[Hb _]]; congruence. }
    subst before. rewrite Hfs2. apply lookup_insert_eq.
Qed.

Lemma sample_fresh_store_run :
  exists doc w1,
    In (Ok doc, w1)
       (fetch_and_store (P := Sample.posix) Sample.cf (u "https://example.com/ch2")
          Sample.w0).
Proof. do 2 eexists. vm_compute. left. reflexivity. Qed.

Lemma combined_archive_grows_witness :
  exists doc w1,
    In (Ok doc, w1)
       (fetch_and_store (P := Sample.posix) Sample.cf (u "https://example.com/ch2")
          Sample.w0)
    /\ fs w1 !! [u "out"; u "novel"; u "novel.txt"]
       = Some (File (u "## A New Dawn" ++ [LF] ++ u "The sun rose slowly" ++ [LF])).
Proof.
  destruct sample_fresh_store_run as (doc & w1 & Hin). exists doc, w1.
  split; [exact Hin|].
  destruct (combined_archive_grows (P := Sample.posix) Sample.cf
              (u "https://example.com/ch2") Sample.w0 w1 doc eq_refl Hin)
    as (r & title & titles & first & rest & Hweb & Ht & Hc & Hdiff & _).
  vm_compute in Hweb. inversion Hweb. subst r. clear Hweb.
  vm_compute in Ht. inversion Ht. subst title titles. clear Ht.
  vm_compute in Hc. inversion Hc. subst first rest. clear Hc.
  destruct Hdiff as (_ & old & Hold & Harchive).
  - vm_compute. discriminate.
  - destruct Hold as [Hold|[_ ->]].
    + vm_compute in Hold. discriminate Hold.
    + assert (Hpath : Fs.Path (combined_path Sample.cf)
                      = [u "out"; u "novel"; u "novel.txt"])
        by (vm_compute; reflexivity).
      rewrite Hpath in Harchive. exact Harchive.
Defined.

(** * Further properties of the pacer *)

Module PacerSums.
Import PacerFacts.

Lemma total_app (a b : list Z) : total (a ++ b) = total a + total b.
Proof.
  unfold total. induction a as [|x t IH]; cbn [fold_right app]; lia.
Qed.

Lemma interval_succ (start : Z) (n : nat) :
  interval start (Z.of_nat (S n)) = interval start (Z.of_nat n) ++ [start + Z.of_nat n].
Proof.
  unfold interval. rewrite !Nat2Z.id, seq_S, map_app. reflexivity.
Qed.

(** Twice the sum of [n] consecutive integers from [start]. *)
Lemma total_interval (start : Z) (n : nat) :
  2 * total (interval start (Z.of_nat n))
  = Z.of_nat n * (2 * start + Z.of_nat n - 1).
Proof.
  induction n as [|n IH].
  - reflexivity.
  - rewrite interval_succ, total_app, Z.mul_add_distr_l, IH.
    unfold total. cbn [fold_right]. lia.
Qed.

Lemma length_interval (start : Z) (n : nat) :
  length (interval start (Z.of_nat n)) = n.
Proof. unfold interval. rewrite length_map, length_seq, Nat2Z.id. reflexivity. Qed.

End PacerSums.

(** X14. With an average of at least two milliseconds (and below
    [2 ** 40]) [delay] never fails and never skips the pause: each of its
    [2 * floor(average_ms / 2)] equally likely outcomes returns after one
    sleep of at least one millisecond, of at least half the average and of
    less than one and a half times the average. *)
Theorem delay_always_sleeps (average_ms : Z) (w : world) :
  2 <= average_ms < 2 ^ 40 ->
  Z.of_nat (length (delay average_ms w)) = 2 * (average_ms / 2)
  /\ forall r w', In (r, w') (delay average_ms w) ->
       r = Ok tt
       /\ exists k, slept w' = k :: slept w
                    /\ 1 <= k /\ average_ms <= 2 * k < 3 * average_ms.
Proof.
  intros Ha. destruct (delay_runs average_ms w Ha) as [Hrun Hwidth].
  assert (Hh : 1 <= average_ms / 2) by (apply Z.div_le_lower_bound; lia).
  assert (Hh' : 2 * (average_ms / 2) <= average_ms)
    by (apply Z.mul_div_le; lia).
  rewrite Hrun. split.
  - rewrite length_map. unfold interval. rewrite length_map, length_seq. lia.
  - intros r w' Hin. apply in_map_iff in Hin. destruct Hin as (k & Hk & Hkin).
    inversion Hk. subst r w'. apply PacerFacts.in_interval in Hkin.
    split; [reflexivity|]. exists k. split; [reflexivity | lia].
Qed.

Lemma delay_always_sleeps_witness :
  Z.of_nat (length (delay 5 Sample.w0)) = 4.
Proof.
  refine (proj1 (delay_always_sleeps 5 Sample.w0 _)). cbn. lia.
Defined.

(** X15. The mean of the pause is half a millisecond short of the
    average asked for: over the equally likely outcomes of [delay], twice
    the sum of the milliseconds slept is [2 * average_ms - 1] times their
    number. *)
Theorem delay_mean (average_ms : Z) (w : world) :
  2 <= average_ms < 2 ^ 40 ->
  2 * total (map slept_now (delay average_ms w))
  = (2 * average_ms - 1) * Z.of_nat (length (delay average_ms w)).
Proof.
  intros Ha. destruct (delay_runs average_ms w Ha) as [Hrun Hwidth].
  rewrite Hrun, map_map, length_map.
  rewrite (map_ext _ (fun k => k)) by reflexivity. rewrite map_id.
  set (n := Z.to_nat (average_ms + average_ms / 2 - (average_ms - average_ms / 2))).
  replace (average_ms + average_ms / 2 - (average_ms - average_ms / 2))
    with (Z.of_nat n) by (subst n; lia).
  rewrite PacerSums.total_interval, PacerSums.length_interval.
  assert (Hn : Z.of_nat n = 2 * (average_ms / 2)) by (subst n; lia).
  rewrite Hn. ring.
Qed.

Lemma delay_mean_witness :
  total (map slept_now (delay 5 Sample.w0)) = 18
  /\ 2 * total (map slept_now (delay 5 Sample.w0))
     = (2 * 5 - 1) * Z.of_nat (length (delay 5 Sample.w0)).
Proof.
  split; [vm_compute; reflexivity|].
  apply (delay_mean 5 Sample.w0). cbn. lia.
Defined.

(** * Properties of the data and configuration files *)

Section TryFacts.

Lemma try_ok {A} (m : M A) (h : exn -> option (M A)) (w w' : world) (a : A) :
  m w = [(Ok a, w')] -> try_except m h w = [(Ok a, w')].
Proof. intros H. unfold try_except. rewrite H. reflexivity. Qed.

Lemma try_caught {A} (m : M A) (h : exn -> option (M A)) (k : M A)
    (w w' : world) (e : exn) :
  m w = [(Raise e, w')] -> h e = Some k -> try_except m h w = k w'.
Proof.
  intros H Hh. unfold try_except. rewrite H. cbn [flat_map fst snd].
  rewrite Hh. apply app_nil_r.
Qed.

Lemma try_uncaught {A} (m : M A) (h : exn -> option (M A))
    (w w' : world) (e : exn) :
  m w = [(Raise e, w')] -> h e = None -> try_except m h w = [(Raise e, w')].
Proof.
  intros H Hh. unfold try_except. rewrite H. cbn [flat_map fst snd].
  rewrite Hh. reflexivity.
Qed.

Lemma walk_raises (f : gmap (list (list N)) node) (rest prefix : list (list N)) (e : exn) :
  FsRead.walk f prefix rest = Raise e ->
  e = FileNotFoundError \/ e = NotADirectoryError.
Proof.
  revert prefix. induction rest as [|part rest' IH]; intros prefix H;
    cbn [FsRead.walk] in H; destruct (Fs.stat f prefix) as [[|text]|];
    try discriminate H; try (inversion H; auto; fail).
  apply (IH _ H).
Qed.

(** What opening a file for reading gives. *)
Lemma open_read_cases (binary : bool) (p : list (list N)) (w : world) :
  (exists text, FsRead.find (fs w) p = Ok (File text)
                /\ open_read binary p w
                   = [(Ok (if binary then text else FsRead.universal_newlines text), w)])
  \/ (exists e, open_read binary p w = [(Raise e, w)]
                /\ is_OSError e = true
                /\ forall text, FsRead.find (fs w) p <> Ok (File text)).
Proof.
  unfold open_read. destruct (FsRead.find (fs w) p) as [[|text]|e] eqn:E.
  - right. exists IsADirectoryError. repeat split. discriminate.
  - left. exists text. auto.
  - right. exists e. split; [reflexivity|]. split; [|discriminate].
    destruct (walk_raises _ _ _ _ E) as [-> | ->]; reflexivity.
Qed.

End TryFacts.

Section DataFacts.
Context {P : Platform} {J : Parsers}.

(** The outcomes of [read_data]. *)
Lemma read_data_run (name : str) (w : world) :
  (exists text d,
     FsRead.find (fs w) (Fs.Path (data_path name)) = Ok (File text)
     /\ json_loads (FsRead.universal_newlines text) = Ok d
     /\ read_data name w = [(Ok d, READ_LOG w)])
  \/ (exists text e,
        FsRead.find (fs w) (Fs.Path (data_path name)) = Ok (File text)
        /\ json_loads (FsRead.universal_newlines text) = Raise e
        /\ is_OSError e = false
        /\ read_data name w = [(Raise e, READ_LOG w)])
  \/ (exists record,
        fst record = WARNING
        /\ ((forall text, FsRead.find (fs w) (Fs.Path (data_path name)) <> Ok (File text))
            \/ exists text e,
                 FsRead.find (fs w) (Fs.Path (data_path name)) = Ok (File text)
                 /\ json_loads (FsRead.universal_newlines text) = Raise e)
        /\ read_data name w = [(Ok empty_dict, log_also [record] (READ_LOG w))]).
Proof.
  unfold read_data. rewrite bind_logger. fold (READ_LOG w).
  destruct (open_read_cases false (Fs.Path (data_path name)) (READ_LOG w))
    as [(text & Hfind & Hopen)|(e & Hopen & Hos & Hno)].
  - destruct (json_loads (FsRead.universal_newlines text)) as [d|e] eqn:Hj.
    + left. exists text, d. split; [exact Hfind|]. split; [first [reflexivity | exact Hj]|].
      apply try_ok. rewrite (bind_ok _ _ _ _ _ Hopen).
      unfold lift at 1. unfold bind. rewrite Hj. reflexivity.
    + assert (Hbody : (text0 <- open_read false (Fs.Path (data_path name));;
                       data <- lift (json_loads text0);; ret data) (READ_LOG w)
                      = [(Raise e, READ_LOG w)]).
      { rewrite (bind_ok _ _ _ _ _ Hopen). unfold lift at 1. unfold bind.
        rewrite Hj. reflexivity. }
      destruct (is_OSError e) eqn:Hos.
      * right. right.
        destruct e; try discriminate Hos;
          (eexists; split; [|split;
           [right; exists text; eexists; split; [exact Hfind | exact Hj]
           |rewrite (try_caught _ _ _ _ _ _ Hbody eq_refl), bind_logger;
             reflexivity]];
           reflexivity).
      * right. left. exists text, e. split; [exact Hfind|].
        split; [first [reflexivity | exact Hj]|].
        split; [first [reflexivity | exact Hos]|]. apply (try_uncaught _ _ _ _ _ Hbody).
        destruct e; try discriminate Hos; reflexivity.
  - right. right.
    assert (Hbody : (text0 <- open_read false (Fs.Path (data_path name));;
                     data <- lift (json_loads text0);; ret data) (READ_LOG w)
                    = [(Raise e, READ_LOG w)])
      by (apply bind_raise, Hopen).
    destruct e; try discriminate Hos;
      (eexists; split; [|split;
       [left; exact Hno
       |rewrite (try_caught _ _ _ _ _ _ Hbody eq_refl), bind_logger;
         reflexivity]];
       reflexivity).
Qed.

End DataFacts.

(** X16. [read_data] absorbs the errors of the file system: for a plain
    name it never raises an [OSError] and never changes the file system; when the file
    cannot be opened (missing, a directory, or below something that is no
    directory) it returns the empty dictionary after one warning.  Only an
    error of the JSON parser that is no [OSError] gets out. *)
Theorem read_data_absorbs_io_errors {J : Parsers}
    (name : str) (w w' : world) (r : result pydata) :
  plain_name name = true ->
  In (r, w') (read_data name w) ->
  fs w' = fs w
  /\ (forall e, r = Raise e ->
        is_OSError e = false /\ exists text, json_loads text = Raise e)
  /\ ((forall text, FsRead.find (fs w) (Fs.Path (data_path name)) <> Ok (File text)) ->
      r = Ok empty_dict
      /\ exists record, fst record = WARNING /\ last (log w') = Some record).
Proof.
  intros _ Hin.
  destruct (read_data_run name w)
    as [(text & d & Hfind & Hj & Hrun)|[(text & e & Hfind & Hj & Hos & Hrun)
       |(record & Hlvl & _ & Hrun)]];
    rewrite Hrun in Hin; apply in_singleton in Hin; inversion Hin; subst r w'.
  - split; [reflexivity|]. split; [discriminate|].
    intros Hno. exfalso. apply (Hno text Hfind).
  - split; [reflexivity|]. split.
    + intros e' He'. inversion He'. subst e'. eauto.
    + intros Hno. exfalso. apply (Hno text Hfind).
  - split; [reflexivity|]. split; [discriminate|].
    intros _. split; [reflexivity|]. exists record. split; [exact Hlvl|].
    apply last_snoc.
Qed.

Lemma sample_read_run :
  exists w',
    In (Ok (u "{}"), w') (read_data (J := plain_parsers) (u "series") Sample.w0).
Proof. eexists. vm_compute. left. reflexivity. Qed.

Lemma read_data_absorbs_io_errors_witness :
  exists w',
    In (Ok (u "{}"), w') (read_data (J := plain_parsers) (u "series") Sample.w0)
    /\ fs w' = fs Sample.w0.
Proof.
  destruct sample_read_run as [w' Hin]. exists w'. split; [exact Hin|].
  exact (proj1 (read_data_absorbs_io_errors (J := plain_parsers)
                  (u "series") Sample.w0 w' _ eq_refl Hin)).
Defined.

Module PathFacts.
Import Fs.

Lemma split_plain (sep : N) (s : str) :
  existsb (N.eqb sep) s = false -> split sep s = [s].
Proof.
  induction s as [|c t IH]; intros H; [reflexivity|].
  cbn [existsb] in H. apply orb_false_iff in H. destruct H as [Hc Ht].
  cbn [split]. rewrite N.eqb_sym, Hc, (IH Ht). reflexivity.
Qed.

Lemma split_at_sep (sep : N) (a b : str) :
  existsb (N.eqb sep) a = false -> split sep (a ++ sep :: b) = a :: split sep b.
Proof.
  induction a as [|c t IH]; intros H.
  - cbn [app split]. rewrite N.eqb_refl. reflexivity.
  - cbn [existsb] in H. apply orb_false_iff in H. destruct H as [Hc Ht].
    cbn [app split]. rewrite N.eqb_sym, Hc, (IH Ht). reflexivity.
Qed.

(** The parts of the path of a data file. *)
Lemma data_path_parts (name : str) :
  existsb (N.eqb SLASH) name = false ->
  Path (data_path name) = [u "data"; name ++ u ".json"].
Proof.
  intros H. unfold Path.
  assert (Hsplit : split SLASH (data_path name)
                   = [u "."; u "data"; name ++ u ".json"]).
  { change (data_path name)
      with (u "." ++ SLASH :: (u "data" ++ SLASH :: (name ++ u ".json"))).
    rewrite split_at_sep by reflexivity.
    rewrite split_at_sep by reflexivity.
    rewrite split_plain; [reflexivity|].
    rewrite existsb_app, H. reflexivity. }
  rewrite Hsplit.
  change (startswith [SLASH; SLASH] (data_path name)) with false.
  change (startswith [SLASH] (data_path name)) with false.
  cbn [andb].
  assert (Hkeep : keep_part (name ++ u ".json") = true).
  { unfold keep_part.
    assert (Hlen : (length (name ++ u ".json") =? 1)%nat = false).
    { apply Nat.eqb_neq. rewrite length_app. cbn. lia. }
    rewrite Hlen, andb_false_r.
    destruct name; reflexivity. }
  cbn [List.filter]. rewrite Hkeep. reflexivity.
Qed.

End PathFacts.

Section NewlineFacts.
Context {P : Platform}.

(** Reading in text mode undoes what writing in text mode did. *)
Lemma universal_newlines_text_mode (text : str) :
  linesep = [LF] \/ linesep = [CR; LF] ->
  existsb (N.eqb CR) text = false ->
  FsRead.universal_newlines (text_mode text) = text.
Proof.
  intros Hsep. unfold text_mode.
  destruct Hsep as [-> | ->];
    induction text as [|c t IH]; intros H; try reflexivity;
    cbn [existsb] in H; apply orb_false_iff in H; destruct H as [Hc Ht];
    cbn [flat_map]; (destruct (N.eqb_spec c LF) as [->|Hne];
      [| cbn [app FsRead.universal_newlines];
         rewrite N.eqb_sym, Hc, (IH Ht); reflexivity]).
  - cbn [app FsRead.universal_newlines].
    change (LF =? CR)%N with false. cbv iota. rewrite (IH Ht). reflexivity.
  - cbn [app FsRead.universal_newlines].
    change (CR =? CR)%N with true. change (LF =? LF)%N with true. cbv iota.
    rewrite (IH Ht). reflexivity.
Qed.

End NewlineFacts.

Lemma plain_name_no_slash (name : str) :
  plain_name name = true -> existsb (N.eqb Fs.SLASH) name = false.
Proof.
  unfold plain_name. intros H. apply andb_true_iff in H. destruct H as [H _].
  induction name as [|c t IH]; [reflexivity|].
  cbn [forallb] in H. apply andb_true_iff in H. destruct H as [Hc Ht].
  cbn [existsb]. rewrite (IH Ht), orb_false_r.
  apply andb_true_iff in Hc. destruct Hc as [Hc _].
  apply andb_true_iff in Hc. destruct Hc as [Hc _].
  rewrite N.eqb_sym. apply negb_true_iff, Hc.
Qed.

Section RoundTrip.
Context {P : Platform} {J : Parsers}.
Import Fs FsGrowth FsMakes FsFiles.

(** What a call of [write_data] that returned has done. *)
Lemma write_data_returns_inv (name : str) (d : pydata) (w w1 : world) :
  In (Ok tt, w1) (write_data name d w) ->
  exists f1,
    mkdir_parents (Path (u "data")) (fs w) = Ok f1
    /\ stat f1 (Path (data_path name)) <> Some Dir
    /\ stat f1 (parent (Path (data_path name))) = Some Dir
    /\ snd (json_dump d) = None
    /\ fs w1 = <[Path (data_path name) := File (text_mode (fst (json_dump d)))]> f1.
Proof.
  unfold write_data, makedirs. intros H.
  in_bind_cases H x w0 Hmk e He; [|discriminate He].
  unfold mkdir in Hmk.
  destruct (mkdir_parents (Path (u "data")) (fs w)) as [f1|e] eqn:E;
    apply in_singleton in Hmk; inversion Hmk. subst w0. clear Hmk.
  rewrite bind_logger in H.
  in_bind_cases H y w2 Hop e He; [|discriminate He].
  exists f1. split; [reflexivity|].
  unfold open_write in Hop. cbn [fs set_fs log_also] in Hop.
  destruct (stat f1 (Path (data_path name))) as [[|old]|] eqn:Hst;
    try (apply in_singleton in Hop; discriminate Hop);
    (destruct (stat f1 (parent (Path (data_path name)))) as [[|t]|] eqn:Hpar;
     apply in_singleton in Hop; inversion Hop; subst w2;
     destruct (snd (json_dump d)) eqn:Hd;
     apply in_singleton in H; inversion H;
     repeat split; try congruence; try discriminate).
Qed.

End RoundTrip.

(** X17. Data written are the data read.  When the name is plain,
    the dump goes through and holds no carriage return, and the JSON
    parser gives the data back from the text of the dump: after a call of
    [write_data] that returned, [read_data] returns the same data,
    whether the line separator is a line feed or a carriage return and a
    line feed, and changes nothing. *)
Theorem data_round_trip {P : Platform} {J : Parsers}
    (name : str) (d : pydata) (w w1 : world) :
  linesep = [LF] \/ linesep = [CR; LF] ->
  plain_name name = true ->
  snd (json_dump d) = None ->
  existsb (N.eqb CR) (fst (json_dump d)) = false ->
  json_loads (fst (json_dump d)) = Ok d ->
  In (Ok tt, w1) (write_data name d w) ->
  exists w2, read_data name w1 = [(Ok d, w2)] /\ fs w2 = fs w1.
Proof.
  intros Hsep Hplain Hdump Hcr Hload Hin.
  pose proof (plain_name_no_slash name Hplain) as Hname.
  destruct (write_data_returns_inv name d w w1 Hin)
    as (f1 & Hmk & Hnd & Hpar & _ & Hfs).
  rewrite (PathFacts.data_path_parts name Hname) in *.
  change (Fs.parent [u "data"; name ++ u ".json"]) with [u "data"] in Hpar.
  assert (Hfind : FsRead.find (fs w1) [u "data"; name ++ u ".json"]
                  = Ok (File (text_mode (fst (json_dump d))))).
  { rewrite Hfs. unfold FsRead.find. cbn [FsRead.walk Fs.stat app].
    rewrite lookup_insert_ne by discriminate.
    change (Fs.is_root (u "data")) with false. cbv iota.
    change (Fs.is_root (u "data")) with false in Hpar. cbn [Fs.stat] in Hpar.
    change (Fs.is_root (u "data")) with false in Hpar. cbv iota in Hpar.
    rewrite Hpar, lookup_insert_eq. reflexivity. }
  destruct (read_data_run name w1)
    as [(text & d' & Hfind' & Hj & Hrun)|[(text & e & Hfind' & Hj & _ & Hrun)
       |(record & _ & [Hno|(text & e & Hfind' & Hj)] & Hrun)]];
    rewrite (PathFacts.data_path_parts name Hname) in *.
  - exists (READ_LOG w1). split; [|reflexivity].
    assert (text = text_mode (fst (json_dump d))) by congruence. subst text.
    rewrite (universal_newlines_text_mode _ Hsep Hcr) in Hj.
    assert (d' = d) by congruence. subst d'. exact Hrun.
  - assert (text = text_mode (fst (json_dump d))) by congruence. subst text.
    rewrite (universal_newlines_text_mode _ Hsep Hcr) in Hj. congruence.
  - exfalso. apply (Hno _ Hfind).
  - assert (text = text_mode (fst (json_dump d))) by congruence. subst text.
    rewrite (universal_newlines_text_mode _ Hsep Hcr) in Hj. congruence.
Qed.

Lemma sample_write_data_run :
  exists w1,
    In (Ok tt, w1) (write_data (P := Sample.posix) (J := plain_parsers)
                      (u "series") (u "{1: 2}" ++ [LF]) Sample.w0).
Proof. eexists. vm_compute. left. reflexivity. Qed.

Lemma data_round_trip_witness :
  exists w1 w2,
    In (Ok tt, w1) (write_data (P := Sample.posix) (J := plain_parsers)
                      (u "series") (u "{1: 2}" ++ [LF]) Sample.w0)
    /\ read_data (J := plain_parsers) (u "series") w1
       = [(Ok (u "{1: 2}" ++ [LF]), w2)].
Proof.
  destruct sample_write_data_run as [w1 Hin].
  destruct (data_round_trip (P := Sample.posix) (J := plain_parsers)
              (u "series") (u "{1: 2}" ++ [LF]) Sample.w0 w1) as (w2 & Hrun & _).
  - left. reflexivity.
  - reflexivity.
  - reflexivity.
  - reflexivity.
  - reflexivity.
  - exact Hin.
  - exists w1, w2. split; [exact Hin | exact Hrun].
Defined.

Section ConfigFacts.

(** A [try] whose only clause catches [OSError], logs and raises again. *)
Lemma try_reraise {A} (m : M A) (lvl : level) (msg : string)
    (w w' : world) (r : result A) :
  m w = [(r, w')] ->
  exists w'',
    try_except m
      (fun e => if is_OSError e
                then Some (logger lvl msg ;; raise e)
                else None) w
    = [(r, w'')]
    /\ fs w'' = fs w'
    /\ (forall e, r = Raise e -> is_OSError e = true ->
          w'' = log_also [(lvl, u msg)] w').
Proof.
  intros H. unfold try_except. rewrite H. cbn [flat_map fst snd].
  destruct r as [a|e].
  - exists w'. repeat split. discriminate.
  - destruct (is_OSError e) eqn:Hos.
    + exists (log_also [(lvl, u msg)] w'). rewrite bind_logger.
      repeat split.
    + exists w'. repeat split. intros e' He'. inversion He'. congruence.
Qed.

(** Opening a file and parsing what was read. *)
Lemma open_and_parse {A} (binary : bool) (parse : str -> result A)
    (name : str) (w : world) :
  exists r,
    (text <- open_name binary name ;; lift (parse text)) w = [(r, w)]
    /\ (forall text, FsRead.find (fs w) (Fs.Path name) = Ok (File text) ->
          r = parse (if binary then text else FsRead.universal_newlines text))
    /\ ((forall text, FsRead.find (fs w) (Fs.Path name) <> Ok (File text)) ->
          exists e, r = Raise e /\ is_OSError e = true).
Proof.
  unfold open_name. destruct name as [|c name'].
  { exists (Raise FileNotFoundError). split; [reflexivity|]. split.
    - intros text H. discriminate H.
    - intros _. exists FileNotFoundError. auto. }
  cbn [Fs.is_nil]. set (name := c :: name').
  destruct (open_read_cases binary (Fs.Path name) w)
    as [(text & Hfind & Hopen)|(e & Hopen & Hos & Hno)].
  - exists (parse (if binary then text else FsRead.universal_newlines text)).
    split; [|split].
    + rewrite (bind_ok _ _ _ _ _ Hopen). unfold lift.
      destruct (parse _); reflexivity.
    + intros text' H'. rewrite Hfind in H'. inversion H'. reflexivity.
    + intros Hno. exfalso. apply (Hno _ Hfind).
  - exists (Raise e). split; [|split].
    + apply bind_raise, Hopen.
    + intros text H'. exfalso. apply (Hno _ H').
    + intros _. exists e. auto.
Qed.

End ConfigFacts.

(** X18. [read_app_config] lets errors through, where [read_data] absorbs
    them: for a plain name it never changes the file system; when the path is a file, the
    result is that of the TOML parser on the bytes as they are in the
    file, without translation of newlines; when the path cannot be
    opened, it raises an [OSError] after logging one ERROR record. *)
Theorem read_app_config_reraises {J : Parsers}
    (path : str) (w w' : world) (r : result pydata) :
  plain_name path = true ->
  In (r, w') (read_app_config path w) ->
  fs w' = fs w
  /\ (forall bytes, FsRead.find (fs w) (Fs.Path path) = Ok (File bytes) ->
        r = tomli_load bytes)
  /\ ((forall bytes, FsRead.find (fs w) (Fs.Path path) <> Ok (File bytes)) ->
      (exists e, r = Raise e /\ is_OSError e = true)
      /\ last (log w') = Some CONFIG_ERROR).
Proof.
  intros _. unfold read_app_config. rewrite bind_logger.
  set (w0 := log_also _ w).
  destruct (open_and_parse true tomli_load path w0)
    as (r0 & Hbody & Hfile & Hmissing).
  destruct (try_reraise _ ERROR "Failed to load app config: %s" _ _ _ Hbody)
    as (w'' & Hrun & Hfs & Hlog).
  rewrite Hrun. intros Hin. apply in_singleton in Hin. inversion Hin. subst r0 w''.
  split; [exact Hfs|]. split; [exact Hfile|].
  intros Hno. destruct (Hmissing Hno) as (e & -> & Hos).
  split; [eauto|]. rewrite (Hlog e eq_refl Hos). apply last_snoc.
Qed.

Lemma sample_config_run :
  exists w',
    In (Raise FileNotFoundError, w')
       (read_app_config (J := plain_parsers) (u "conf.toml") Sample.w0).
Proof. eexists. vm_compute. left. reflexivity. Qed.

Lemma read_app_config_reraises_witness :
  exists w',
    In (Raise FileNotFoundError, w')
       (read_app_config (J := plain_parsers) (u "conf.toml") Sample.w0)
    /\ fs w' = fs Sample.w0.
Proof.
  destruct sample_config_run as [w' Hin]. exists w'. split; [exact Hin|].
  exact (proj1 (read_app_config_reraises (J := plain_parsers)
                  (u "conf.toml") Sample.w0 w' _ eq_refl Hin)).
Defined.

(** X19. [setup_logging] makes the log directory first and reads the
    configuration second: when the directory could be made and the plain
    name is then no file, the call raises an [OSError] after one ERROR record
    and the directory stays behind, the file system otherwise as it
    was. *)
Theorem setup_logging_unreadable {J : Parsers}
    (path : str) (w w' : world) (r : result unit) (f1 : gmap (list (list N)) node) :
  plain_name path = true ->
  Fs.mkdir_parents (Fs.Path (u "log")) (fs w) = Ok f1 ->
  (forall text, FsRead.find f1 (Fs.Path path) <> Ok (File text)) ->
  In (r, w') (setup_logging path w) ->
  (exists e, r = Raise e /\ is_OSError e = true)
  /\ fs w' = f1
  /\ Fs.stat (fs w') [u "log"] = Some Dir
  /\ log w' = log w ++ [LOGGING_ERROR].
Proof.
  intros _ Hmk Hno. unfold setup_logging, makedirs.
  assert (Hdir : mkdir (Fs.Path (u "log")) w = [(Ok tt, set_fs f1 w)])
    by (unfold mkdir; rewrite Hmk; reflexivity).
  rewrite (bind_ok _ _ _ _ _ Hdir).
  destruct (open_and_parse false yaml_safe_load path (set_fs f1 w))
    as (r0 & Hbody & _ & Hmissing).
  destruct (Hmissing Hno) as (e & -> & Hos).
  destruct (try_reraise _ ERROR "Error loading of logging config: %s" _ _ _ Hbody)
    as (w'' & Hrun & _ & Hlog).
  rewrite (bind_raise _ _ _ _ _ Hrun).
  intros Hin. apply in_singleton in Hin. inversion Hin. subst r w'.
  rewrite (Hlog e eq_refl Hos).
  split; [eauto|]. split; [reflexivity|]. split; [|reflexivity].
  apply (FsMakes.mkdir_parents_makes _ _ _ Hmk).
Qed.

Lemma sample_logging_run :
  exists r w',
    In (r, w') (setup_logging (J := plain_parsers) (u "logging.yaml") Sample.w0).
Proof. do 2 eexists. vm_compute. left. reflexivity. Qed.

Lemma setup_logging_unreadable_witness :
  exists r w',
    In (r, w') (setup_logging (J := plain_parsers) (u "logging.yaml") Sample.w0)
    /\ Fs.stat (fs w') [u "log"] = Some Dir.
Proof.
  destruct sample_logging_run as (r & w' & Hin). exists r, w'.
  split; [exact Hin|].
  refine (proj1 (proj2 (proj2 (setup_logging_unreadable (J := plain_parsers)
            (u "logging.yaml") Sample.w0 w' r _ eq_refl eq_refl _ Hin)))).
  intros text. vm_compute. discriminate.
Defined.

(** * What a run leaves of the files that were there *)

Section Moves.
Variable R : gmap path node -> gmap path node -> Prop.
Hypothesis R_refl : forall f, R f f.
Hypothesis R_trans : forall f g h, R f g -> R g h -> R f h.

Lemma moves_still {A} (m : M A) :
  (forall w r w', In (r, w') (m w) -> fs w' = fs w) -> moves R m.
Proof. intros H w r w' Hin. rewrite (H _ _ _ Hin). apply R_refl. Qed.

Lemma moves_bind {A B} (m : M A) (f : A -> M B) :
  moves R m -> (forall a, moves R (f a)) -> moves R (bind m f).
Proof.
  intros Hm Hf w r w' Hin. in_bind_cases Hin a w1 Ha e He.
  - apply (R_trans _ (fs w1)); [apply (Hm _ _ _ Ha) | apply (Hf _ _ _ _ Hin)].
  - apply (Hm _ _ _ Hin).
Qed.

Lemma moves_ret {A} (a : A) : moves R (ret a).
Proof. apply moves_still. intros w r w' H. apply in_singleton in H. inversion H. reflexivity. Qed.

Lemma moves_raise {A} (e : exn) : moves R (raise e : M A).
Proof. apply moves_still. intros w r w' H. apply in_singleton in H. inversion H. reflexivity. Qed.

Lemma moves_logger (l : level) (msg : string) : moves R (logger l msg).
Proof. apply moves_still. intros w r w' H. apply in_singleton in H. inversion H. reflexivity. Qed.

Lemma moves_lift {A} (r : result A) : moves R (lift r).
Proof.
  apply moves_still. intros w r' w' H. unfold lift in H.
  destruct r; apply in_singleton in H; inversion H; reflexivity.
Qed.

Lemma moves_item0 {A} (l : list A) : moves R (item0 l).
Proof. destruct l; [apply moves_raise | apply moves_ret]. Qed.

Lemma moves_choose {A} (l : list A) : moves R (choose l).
Proof.
  apply moves_still. intros w r w' H. unfold choose in H.
  apply in_map_iff in H. destruct H as (x & Hx & _). inversion Hx. reflexivity.
Qed.

Lemma moves_time_sleep (ms : Z) : moves R (time_sleep ms).
Proof.
  apply moves_still. intros w r w' H. unfold time_sleep in H.
  repeat match type of H with context [if ?b then _ else _] => destruct b end;
    apply in_singleton in H; inversion H; reflexivity.
Qed.

Lemma moves_requests_get (url : str) : moves R (requests_get url).
Proof.
  apply moves_still. intros w r w' H. unfold requests_get in H.
  destruct (web w url); apply in_singleton in H; inversion H; reflexivity.
Qed.

Lemma moves_delay (average_ms : Z) : moves R (delay average_ms).
Proof.
  unfold delay, draw_ms, randrange. cbv zeta.
  apply moves_bind; [apply moves_bind; [apply moves_lift|]|].
  - intros d. destruct (0 <? _); [apply moves_choose | apply moves_raise].
  - intros k. apply moves_bind; [apply moves_logger | intros _; apply moves_time_sleep].
Qed.

Lemma moves_advance (cf : config) (doc : document) : moves R (advance cf doc).
Proof.
  unfold advance. cbv zeta. destruct (Fs.is_nil _).
  - apply moves_bind; [apply moves_logger | intros _; apply moves_raise].
  - apply moves_bind; [apply moves_item0 | intros m].
    apply moves_bind; [apply moves_logger | intros _].
    destruct (link_is_valid _ _).
    + apply moves_bind; [apply moves_logger | intros _].
      apply moves_bind; [apply moves_delay | intros _; apply moves_ret].
    + apply moves_bind; [apply moves_logger | intros _; apply moves_raise].
Qed.

Section Loop.
Context {P : Platform}.
Variable cf : config.
Hypothesis R_write : forall pathstr content, moves R (write_content pathstr content).
Hypothesis R_append : forall content, moves R (append_content (combined_path cf) content).

Lemma moves_fetch_and_store (url : str) : moves R (fetch_and_store cf url).
Proof.
  unfold fetch_and_store, final_content. cbv zeta.
  apply moves_bind; [apply moves_logger | intros _].
  apply moves_bind; [apply moves_requests_get | intros r].
  destruct (negb _).
  { apply moves_bind; [apply moves_logger | intros _]. apply moves_raise. }
  apply moves_bind; [apply moves_logger | intros _].
  apply moves_bind; [apply moves_item0 | intros title].
  apply moves_bind; [apply moves_logger | intros _].
  apply moves_bind; [apply moves_logger | intros _].
  apply moves_bind; [| intros text].
  { apply moves_bind; [apply moves_item0 | intros first]. apply moves_ret. }
  apply moves_bind; [apply R_write | intros _].
  apply moves_bind; [| intros _; apply moves_ret].
  destruct (serie_combine_flag cf); [apply R_append | apply moves_ret].
Qed.

Lemma moves_crawl (fuel : nat) (url : option str) : moves R (crawl fuel cf url).
Proof.
  revert url. induction fuel as [|fuel IH]; intros [url|];
    try (apply moves_ret).
  cbn [crawl]. apply moves_bind; [| intros next; apply IH].
  unfold iteration.
  apply moves_bind; [apply moves_fetch_and_store | intros doc].
  apply moves_advance.
Qed.

Lemma moves_main (fuel : nat) : moves R (main fuel cf).
Proof.
  unfold main. destruct (negb _).
  - apply moves_bind; [apply moves_logger | intros _]. apply moves_raise.
  - apply moves_bind; [apply moves_logger | intros _]. apply moves_crawl.
Qed.

End Loop.

End Moves.

Section Evolution.
Context {P : Platform}.
Import Fs FsGrowth.

Lemma evolves_refl (a : path) (f : gmap path node) : evolves a f f.
Proof.
  intros q n H. exists n. split; [exact H|]. split; [reflexivity|].
  destruct n as [|old]; [reflexivity|]. exists []. rewrite app_nil_r. reflexivity.
Qed.

Lemma evolves_trans (a : path) (f g h : gmap path node) :
  evolves a f g -> evolves a g h -> evolves a f h.
Proof.
  intros Hfg Hgh q n H.
  destruct (Hfg q n H) as (n1 & H1 & Hne1 & Hk1).
  destruct (Hgh q n1 H1) as (n2 & H2 & Hne2 & Hk2).
  exists n2. split; [exact H2|]. split.
  - intros Hq. rewrite (Hne2 Hq). apply (Hne1 Hq).
  - destruct n as [|old].
    + subst n1. exact Hk2.
    + destruct Hk1 as [more1 ->]. destruct Hk2 as [more2 ->].
      exists (more1 ++ more2). rewrite app_assoc. reflexivity.
Qed.

Lemma evolves_grows (a : path) (f g : gmap path node) : f ⊆ g -> evolves a f g.
Proof.
  intros Hsub q n H. exists n. split; [apply (lookup_weaken _ _ _ _ H Hsub)|].
  split; [reflexivity|].
  destruct n as [|old]; [reflexivity|]. exists []. rewrite app_nil_r. reflexivity.
Qed.

Lemma evolves_append (p : path) (f : gmap path node) (before text : str) :
  f !! p = Some (File before) \/ f !! p = None ->
  evolves p f (<[p := File (before ++ text)]> f).
Proof.
  intros Hp q n H. destruct (decide (q = p)) as [->|Hne].
  - destruct Hp as [Hp|Hp]; rewrite Hp in H; inversion H. subst n.
    exists (File (before ++ text)). split; [apply lookup_insert_eq|].
    split; [intros Hq; contradiction|]. exists text. reflexivity.
  - exists n. split; [rewrite lookup_insert_ne by congruence; exact H|].
    split; [reflexivity|].
    destruct n as [|old]; [reflexivity|]. exists []. rewrite app_nil_r. reflexivity.
Qed.

Lemma moves_write_content (a : path) (pathstr content : str) :
  moves (evolves a) (write_content pathstr content).
Proof.
  intros w r w' Hin. apply evolves_grows, (write_content_grows _ _ _ _ _ Hin).
Qed.

Lemma moves_append_content (pathstr content : str) :
  moves (evolves (Path pathstr)) (append_content pathstr content).
Proof.
  intros w r w' Hin.
  destruct (append_content_run pathstr content w)
    as [(e' & Hmk & Hrun)|[(f1 & Hmk & _ & Hrun)|(f1 & b & Hmk & Hst & Hrun)]];
    rewrite Hrun in Hin; apply in_singleton in Hin; inversion Hin; subst;
    cbn [fs set_fs log_also].
  - apply evolves_refl.
  - apply evolves_grows, (mkdir_from_grows _ _ _ _ Hmk).
  - apply (evolves_trans _ _ f1).
    + apply evolves_grows, (mkdir_from_grows _ _ _ _ Hmk).
    + apply evolves_append. destruct Hst as [Hst|[Hst _]].
      * left. apply (stat_file _ _ _ Hst).
      * right. apply (stat_none _ _ Hst).
Qed.

Lemma keeps_well_formed_refl (f : gmap path node) : keeps_well_formed f f.
Proof. intros H. exact H. Qed.

Lemma keeps_well_formed_trans (f g h : gmap path node) :
  keeps_well_formed f g -> keeps_well_formed g h -> keeps_well_formed f h.
Proof. intros Hfg Hgh H. apply Hgh, Hfg, H. Qed.

Lemma write_content_keeps_well_formed (pathstr content : str) :
  moves keeps_well_formed (write_content pathstr content).
Proof. intros w r w' Hin WF. apply (write_content_well_formed _ _ _ _ _ WF Hin). Qed.

Lemma append_content_keeps_well_formed (pathstr content : str) :
  moves keeps_well_formed (append_content pathstr content).
Proof. intros w r w' Hin WF. apply (append_content_well_formed _ _ _ _ _ WF Hin). Qed.

End Evolution.

(** X20. A run never overwrites.  In every outcome of [main], whatever
    the site answers and however the run ends, each file and directory
    that was there before is still there: a directory as a directory, a
    file with the text it had, except the combined archive, which keeps
    its old text at the beginning. *)
Theorem main_never_overwrites {P : Platform}
    (fuel : nat) (cf : config) (w w' : world) (r : result loop_end) :
  In (r, w') (main fuel cf w) ->
  evolves (Fs.Path (combined_path cf)) (fs w) (fs w').
Proof.
  revert w r w'. change (moves (evolves (Fs.Path (combined_path cf))) (main fuel cf)).
  apply moves_main.
  - apply evolves_refl.
  - apply evolves_trans.
  - intros pathstr content. apply moves_write_content.
  - intros content. apply moves_append_content.
Qed.

Lemma sample_archive_run :
  exists r w', In (r, w') (main (P := Sample.posix) 5 Sample.cf w_archive).
Proof. do 2 eexists. vm_compute. left. reflexivity. Qed.

Lemma main_never_overwrites_witness :
  exists r w' more,
    In (r, w') (main (P := Sample.posix) 5 Sample.cf w_archive)
    /\ fs w' !! [u "out"; u "novel"; u "novel.txt"]
       = Some (File (u "## Zero;" ++ more)).
Proof.
  destruct sample_archive_run as (r & w' & Hin).
  destruct (main_never_overwrites (P := Sample.posix) 5 Sample.cf w_archive w' r Hin
              [u "out"; u "novel"; u "novel.txt"] (File (u "## Zero;")) eq_refl)
    as (n' & Hn' & _ & more & ->).
  exists r, w', more. split; [exact Hin | exact Hn'].
Defined.

(** X21. A run keeps the file system well formed: in every outcome of
    [main] whatever exists lies in a directory, when it was so before. *)
Theorem main_keeps_well_formed {P : Platform}
    (fuel : nat) (cf : config) (w w' : world) (r : result loop_end) :
  Fs.well_formed (fs w) ->
  In (r, w') (main fuel cf w) ->
  Fs.well_formed (fs w').
Proof.
  intros WF Hin. revert WF. change (keeps_well_formed (fs w) (fs w')).
  revert w r w' Hin. change (moves keeps_well_formed (main fuel cf)).
  apply moves_main.
  - apply keeps_well_formed_refl.
  - apply keeps_well_formed_trans.
  - intros pathstr content. apply write_content_keeps_well_formed.
  - intros content. apply append_content_keeps_well_formed.
Qed.

Lemma main_keeps_well_formed_witness :
  exists r w',
    In (r, w') (main (P := Sample.posix) 5 Sample.cf w_archive)
    /\ Fs.well_formed (fs w').
Proof.
  destruct sample_archive_run as (r & w' & Hin). exists r, w'.
  split; [exact Hin|].
  exact (main_keeps_well_formed (P := Sample.posix) 5 Sample.cf w_archive w' r
           w_archive_well_formed Hin).
Defined.

(** * A page is stored once *)

Section Revisit.
Context {P : Platform}.
Import Fs FsGrowth.

Lemma lookup_stat (f : gmap path node) (p : path) (n : node) :
  f !! p = Some n -> exists n', stat f p = Some n'.
Proof.
  destruct p as [|a [|b rest]]; cbn [stat]; eauto.
  destruct (is_root a); eauto.
Qed.

Lemma write_content_returns_file (pathstr content : str) (w w1 : world) :
  In (Ok tt, w1) (write_content pathstr content w) ->
  fs w1 !! Path pathstr = Some (File (text_mode content)).
Proof.
  intros Hin.
  destruct (write_content_run pathstr content w)
    as [(e & _ & Hrun)|[(f1 & n & Hmk & _ & Hrun)|(f1 & Hmk & Hst & Hrun)]];
    rewrite Hrun in Hin; apply in_singleton in Hin; inversion Hin.
  cbn [fs set_fs log_also]. apply lookup_insert_eq.
Qed.

(** What a call of [fetch_and_store] that returned has found and done. *)
Lemma fetch_and_store_returns_inv (cf : config) (url : str) (w w1 : world)
    (doc : document) :
  In (Ok doc, w1) (fetch_and_store cf url w) ->
  exists r title titles first rest,
    web w url = Some r /\ status_code r = STATUS_CODE_OK
    /\ title_matches (raw r) = title :: titles
    /\ contents_matches (raw r) = first :: rest
    /\ exists n, fs w1 !! Path (chapter_path cf (derive_filename title)) = Some n.
Proof.
  intros Hin. destruct (web w url) as [r|] eqn:Hweb.
  2:{ rewrite (fetch_and_store_no_answer _ _ _ Hweb) in Hin.
      apply in_singleton in Hin. discriminate Hin. }
  destruct (Z.eq_dec (status_code r) STATUS_CODE_OK) as [Hs|Hs].
  2:{ rewrite (fetch_and_store_bad_status _ _ _ _ Hweb Hs) in Hin.
      apply in_singleton in Hin. discriminate Hin. }
  destruct (title_matches (raw r)) as [|title titles] eqn:Ht.
  { rewrite (fetch_and_store_no_title _ _ _ _ Hweb Hs Ht) in Hin.
    apply in_singleton in Hin. discriminate Hin. }
  destruct (contents_matches (raw r)) as [|first rest] eqn:Hc.
  { rewrite (fetch_and_store_no_content _ _ _ _ _ _ Hweb Hs Ht Hc) in Hin.
    apply in_singleton in Hin. discriminate Hin. }
  exists r, title, titles, first, rest. repeat split; try assumption; try reflexivity.
  pose proof (fetch_and_store_upto_write cf url w r title first titles rest
                Hweb Hs Ht Hc) as Hfetch.
  cbv zeta in Hfetch. rewrite Hfetch in Hin. clear Hfetch.
  in_bind_cases Hin x wb Hw e He; [|discriminate He].
  in_bind_cases Hin y wc Ha e He; [|discriminate He].
  apply in_singleton in Hin. inversion Hin. subst wc. destruct x.
  pose proof (write_content_returns_file _ _ _ _ Hw) as Hfile.
  assert (Hev : evolves (Path (combined_path cf)) (fs wb) (fs w1)).
  { destruct (serie_combine_flag cf).
    - apply (moves_append_content _ _ _ _ _ Ha).
    - apply in_singleton in Ha. inversion Ha. apply evolves_refl. }
  destruct (Hev _ _ Hfile) as (n & Hn & _). exists n. exact Hn.
Qed.

End Revisit.

(** X22. A page is stored once.  After a page has been fetched and
    stored, in any later state whose well-formed file system evolved from
    the one the call left, and in which the site still gives the same
    answer, the loop on that URL ends with [FileExistsError] for the
    chapter file and writes nothing: a chain of links that comes back to
    a page stops there. *)
Theorem stored_page_is_not_stored_again {P : Platform}
    (fuel : nat) (cf : config) (url : str) (w w1 w2 : world) (doc : document) :
  In (Ok doc, w1) (fetch_and_store cf url w) ->
  evolves (Fs.Path (combined_path cf)) (fs w1) (fs w2) ->
  Fs.well_formed (fs w2) ->
  web w2 url = web w url ->
  exists r title titles w3,
    web w url = Some r /\ title_matches (raw r) = title :: titles
    /\ crawl (S fuel) cf (Some url) w2
       = [(Raise (FileExistsError (chapter_path cf (derive_filename title))), w3)]
    /\ fs w3 = fs w2 /\ fetched w3 = url :: fetched w2 /\ slept w3 = slept w2.
Proof.
  intros Hin Hev WF Hsame.
  destruct (fetch_and_store_returns_inv cf url w w1 doc Hin)
    as (r & title & titles & first & rest & Hweb & Hs & Ht & Hc & n & Hn).
  destruct (Hev _ _ Hn) as (n2 & Hn2 & _).
  destruct (lookup_stat _ _ _ Hn2) as (n' & Hst).
  rewrite Hweb in Hsame.
  exists r, title, titles. eexists. split; [exact Hweb|]. split; [exact Ht|].
  split.
  - apply crawl_stops_in_fetch.
    rewrite (fetch_and_store_upto_write cf url w2 r title first titles rest
               Hsame Hs Ht Hc).
    apply bind_raise. apply (write_content_existing _ _ _ n'); [exact WF | exact Hst].
  - auto.
Qed.

Lemma sample_store_run :
  exists doc w1,
    In (Ok doc, w1)
       (fetch_and_store (P := Sample.posix) Sample.cf (u "https://example.com/ch2")
          w_archive)
    /\ web w1 (u "https://example.com/ch2") = web w_archive (u "https://example.com/ch2").
Proof.
  do 2 eexists. split.
  - vm_compute. left. reflexivity.
  - reflexivity.
Qed.

Lemma stored_page_is_not_stored_again_witness :
  exists doc w1 title w3,
    In (Ok doc, w1)
       (fetch_and_store (P := Sample.posix) Sample.cf (u "https://example.com/ch2")
          w_archive)
    /\ crawl (P := Sample.posix) 1 Sample.cf (Some (u "https://example.com/ch2")) w1
       = [(Raise (FileExistsError
                    (chapter_path Sample.cf (derive_filename (P := Sample.posix) title))),
           w3)].
Proof.
  destruct sample_store_run as (doc & w1 & Hin & Hweb).
  destruct (stored_page_is_not_stored_again (P := Sample.posix) 0 Sample.cf
              (u "https://example.com/ch2") w_archive w1 w1 doc Hin)
    as (r & title & titles & w3 & _ & _ & Hrun & _).
  - apply evolves_refl.
  - apply (moves_fetch_and_store keeps_well_formed keeps_well_formed_refl
             keeps_well_formed_trans Sample.cf
             (write_content_keeps_well_formed (P := Sample.posix))
             (append_content_keeps_well_formed (P := Sample.posix) _)
             _ _ _ _ Hin w_archive_well_formed).
  - exact Hweb.
  - exists doc, w1, title, w3. split; [exact Hin | exact Hrun].
Defined.
